(** * link-scraper: product attributes from pages, wish sentences and photos

    A shallow embedding of [server.js]: the regular-expression extractors,
    the attribute resolver [parse], the wish-text analyzer with its
    deterministic fallback, the image analyzer cascade and the expiring
    wish-text store, followed by the properties proved about them.

    JavaScript values are modelled as the program sees them: strings are
    lists of UTF-16 code units, numbers are IEEE 754 binary64 values
    ([spec_float] with [prec = 53], [emax = 1024]), regular expressions are
    run by a backtracking matcher that follows the ECMAScript matching
    rules for the constructs the program uses, and [JSON.parse] is a parser
    producing a tree of JavaScript values. *)

From Stdlib Require Import ZArith NArith List Bool String Ascii Lia.
From Stdlib Require Import Floats.SpecFloat.
From stdpp Require Import gmap.
Import ListNotations.

Local Open Scope N_scope.

(* ===================================================================== *)
(** ** Strings: UTF-16 code units                                        *)
(* ===================================================================== *)

Module JsString.

(** A JavaScript string is a sequence of 16-bit code units. *)
Abbreviation jsstring := (list N).

Definition byte_of (a : ascii) : N := N_of_ascii a.

(** Source literals are UTF-8; [utf16_of_utf8] decodes them to code units
    (a code point above U+FFFF becomes a surrogate pair). *)
Fixpoint utf16_of_utf8 (bs : list N) : jsstring :=
  match bs with
  | [] => []
  | b1 :: t1 =>
    if b1 <? 128 then b1 :: utf16_of_utf8 t1
    else match t1 with
    | [] => [65533]
    | b2 :: t2 =>
      if b1 <? 224 then
        (N.lor (N.shiftl (N.land b1 31) 6) (N.land b2 63)) :: utf16_of_utf8 t2
      else match t2 with
      | [] => [65533]
      | b3 :: t3 =>
        if b1 <? 240 then
          (N.lor (N.shiftl (N.land b1 15) 12)
             (N.lor (N.shiftl (N.land b2 63) 6) (N.land b3 63))) :: utf16_of_utf8 t3
        else match t3 with
        | [] => [65533]
        | b4 :: t4 =>
          let cp := N.lor (N.shiftl (N.land b1 7) 18)
                      (N.lor (N.shiftl (N.land b2 63) 12)
                         (N.lor (N.shiftl (N.land b3 63) 6) (N.land b4 63))) in
          let v := cp - 65536 in
          (55296 + N.shiftr v 10) :: (56320 + N.land v 1023) :: utf16_of_utf8 t4
        end
      end
    end
  end.

Definition js (s : string) : jsstring :=
  utf16_of_utf8 (map byte_of (list_ascii_of_string s)).

(** The double quote, which a literal cannot hold; [jsq] reads a literal
    in which every backtick stands for a double quote. *)
Definition dq : N := 34.
Definition jsq (s : string) : jsstring :=
  map (fun c => if c =? 96 then dq else c) (js s).

Fixpoint str_eqb (a b : jsstring) : bool :=
  match a, b with
  | [], [] => true
  | x :: a', y :: b' => (x =? y) && str_eqb a' b'
  | _, _ => false
  end.

Fixpoint starts_with (p s : jsstring) : bool :=
  match p, s with
  | [], _ => true
  | x :: p', y :: s' => (x =? y) && starts_with p' s'
  | _ :: _, [] => false
  end.

(** [String.prototype.includes]. *)
Fixpoint includes (s p : jsstring) : bool :=
  starts_with p s || match s with [] => false | _ :: s' => includes s' p end.

(** [s.replace(p, r)] with a string pattern: the first occurrence only. *)
Fixpoint replace_str (s p r : jsstring) : jsstring :=
  if starts_with p s then r ++ skipn (List.length p) s
  else match s with [] => [] | c :: s' => c :: replace_str s' p r end.

(** White space and line terminators: the set of [\s] and of [trim]. *)
Definition is_space (c : N) : bool :=
  ((9 <=? c) && (c <=? 13)) || (c =? 32) || (c =? 160) || (c =? 5760)
  || ((8192 <=? c) && (c <=? 8202)) || (c =? 8232) || (c =? 8233)
  || (c =? 8239) || (c =? 8287) || (c =? 12288) || (c =? 65279).

Fixpoint trim_start (s : jsstring) : jsstring :=
  match s with
  | c :: s' => if is_space c then trim_start s' else s
  | [] => []
  end.

Definition trim (s : jsstring) : jsstring :=
  rev (trim_start (rev (trim_start s))).

(** Simple case mappings on one code unit, exact on the Latin and the
    Cyrillic alphabets (the letters of the program's patterns). [upper]
    is the canonicalization of a case-insensitive pattern: a code unit
    outside ASCII never maps into ASCII. *)
Definition upper (c : N) : N :=
  if (97 <=? c) && (c <=? 122) then c - 32
  else if (1072 <=? c) && (c <=? 1103) then c - 32
  else if (1104 <=? c) && (c <=? 1119) then c - 80
  else if c =? 7296 then 1042 else if c =? 7297 then 1044
  else if c =? 7298 then 1054 else if c =? 7299 then 1057
  else if (c =? 7300) || (c =? 7301) then 1058
  else if c =? 7302 then 1066
  else c.

Definition lower (c : N) : N :=
  if (65 <=? c) && (c <=? 90) then c + 32
  else if (1040 <=? c) && (c <=? 1071) then c + 32
  else if (1024 <=? c) && (c <=? 1039) then c + 80
  else c.

(** [String.prototype.toLowerCase] on the same alphabets. *)
Definition toLowerCase (s : jsstring) : jsstring := map lower s.

(** The code units with the same canonical form as [c]. *)
Definition same_case (c : N) : list N :=
  let u := upper c in
  [c; u; lower u]
  ++ (if u =? 1042 then [7296] else []) ++ (if u =? 1044 then [7297] else [])
  ++ (if u =? 1054 then [7298] else []) ++ (if u =? 1057 then [7299] else [])
  ++ (if u =? 1058 then [7300; 7301] else []) ++ (if u =? 1066 then [7302] else []).

End JsString.
Export JsString.

(* ===================================================================== *)
(** ** Regular expressions                                               *)
(* ===================================================================== *)

Module Regex.

(** The pattern constructs used by the program. [Rep mn mx g r] is a
    quantifier with at least [mn] and at most [mx] iterations ([None]:
    unbounded), greedy when [g]; [Group i r] is the [i]-th capture. *)
Inductive regex :=
| Empty
| Char (c : N)
| Class (neg : bool) (rs : list (N * N))
| Seq (r1 r2 : regex)
| Alt (r1 r2 : regex)
| Rep (mn : nat) (mx : option nat) (greedy : bool) (r : regex)
| Group (i : nat) (r : regex)
| Bol
| Eol
| WordB.

Record mstate := MState {
  ms_prev : option N;          (* the code unit before the position *)
  ms_rest : jsstring;          (* the input from the position on *)
  ms_caps : list (nat * jsstring)
}.

Definition in_ranges (rs : list (N * N)) (c : N) : bool :=
  existsb (fun r => (fst r <=? c) && (c <=? snd r)) rs.

Definition char_eq (ic : bool) (a c : N) : bool :=
  if ic then upper a =? upper c else a =? c.

Definition class_mem (ic : bool) (rs : list (N * N)) (c : N) : bool :=
  in_ranges rs c || (ic && existsb (in_ranges rs) (same_case c)).

Definition is_word (c : N) : bool :=
  ((48 <=? c) && (c <=? 57)) || ((65 <=? c) && (c <=? 90))
  || ((97 <=? c) && (c <=? 122)) || (c =? 95).

Definition is_word_opt (o : option N) : bool :=
  match o with Some c => is_word c | None => false end.

Definition set_cap (i : nat) (s : jsstring) (caps : list (nat * jsstring)) :=
  (i, s) :: filter (fun p => negb (Nat.eqb (fst p) i)) caps.

Definition consumed (st st' : mstate) : jsstring :=
  firstn (List.length (ms_rest st) - List.length (ms_rest st')) (ms_rest st).

Definition orelse {A} (a b : option A) : option A :=
  match a with Some x => Some x | None => b end.

Definition matcher := mstate -> (mstate -> option mstate) -> option mstate.

(** A quantifier around the matcher [m] of its body, before the
    continuation [k]: a greedy quantifier tries one more iteration
    first, a lazy one the continuation first; an iteration beyond the
    minimum that consumes nothing is rejected. Every iteration lowers
    the minimum or shortens the input, which bounds their number. *)
Fixpoint rep_loop (m : matcher) (g : bool) (k : mstate -> option mstate)
         (fuel mn : nat) (mx : option nat) (st : mstate) {struct fuel}
  : option mstate :=
  match fuel with
  | O => k st
  | S fuel' =>
    match mx with
    | Some O => k st
    | _ =>
      let iter :=
        m st (fun st' =>
          if Nat.eqb mn 0
             && Nat.eqb (List.length (ms_rest st')) (List.length (ms_rest st))
          then None
          else rep_loop m g k fuel' (Nat.pred mn) (option_map Nat.pred mx) st') in
      if Nat.eqb mn 0
      then if g then orelse iter (k st) else orelse (k st) iter
      else iter
    end
  end.

(** The backtracking matcher in continuation-passing style: the
    alternatives of a choice are tried in order. *)
Fixpoint exec (ic : bool) (r : regex) (st : mstate)
         (k : mstate -> option mstate) {struct r} : option mstate :=
  match r with
  | Empty => k st
  | Char c =>
    match ms_rest st with
    | x :: t => if char_eq ic c x then k (MState (Some x) t (ms_caps st)) else None
    | [] => None
    end
  | Class neg rs =>
    match ms_rest st with
    | x :: t => if xorb neg (class_mem ic rs x)
                then k (MState (Some x) t (ms_caps st)) else None
    | [] => None
    end
  | Seq a b => exec ic a st (fun st' => exec ic b st' k)
  | Alt a b => orelse (exec ic a st k) (exec ic b st k)
  | Group i a =>
    exec ic a st (fun st' =>
      k (MState (ms_prev st') (ms_rest st') (set_cap i (consumed st st') (ms_caps st'))))
  | Rep mn mx g a =>
    rep_loop (exec ic a) g k (S (mn + List.length (ms_rest st))) mn mx st
  | Bol => match ms_prev st with None => k st | Some _ => None end
  | Eol => match ms_rest st with [] => k st | _ :: _ => None end
  | WordB =>
    if xorb (is_word_opt (ms_prev st)) (is_word_opt (hd_error (ms_rest st)))
    then k st else None
  end.

(** A successful match: where it starts, the text of the whole match,
    the text of each capture and the input after the match. *)
Record rmatch := RMatch {
  m_index : nat;
  m_text : jsstring;
  m_caps : list (nat * jsstring);
  m_after : jsstring
}.

(** Capture [i] of a match ([None] for a group that took no part). *)
Definition group (m : rmatch) (i : nat) : option jsstring :=
  match i with
  | O => Some (m_text m)
  | _ => option_map snd (find (fun p => Nat.eqb (fst p) i) (m_caps m))
  end.

(** The leftmost match at or after a position. *)
Fixpoint search (ic : bool) (r : regex) (prev : option N) (s : jsstring)
         (pos : nat) : option rmatch :=
  match exec ic r (MState prev s []) Some with
  | Some st' =>
    Some (RMatch pos (consumed (MState prev s []) st') (ms_caps st') (ms_rest st'))
  | None =>
    match s with
    | [] => None
    | c :: s' => search ic r (Some c) s' (S pos)
    end
  end.

(** [s.match(re)] without the [g] flag, and [re.test(s)]. *)
Definition rx_match (ic : bool) (r : regex) (s : jsstring) : option rmatch :=
  search ic r None s 0.

Definition rx_test (ic : bool) (r : regex) (s : jsstring) : bool :=
  match rx_match ic r s with Some _ => true | None => false end.

(** All the matches of a [g] pattern, left to right; after an empty match
    the search resumes one code unit further. *)
Fixpoint match_all_from (fuel : nat) (ic : bool) (r : regex) (prev : option N)
         (s : jsstring) (pos : nat) : list rmatch :=
  match fuel with
  | O => []
  | S fuel' =>
    match search ic r prev s pos with
    | None => []
    | Some m =>
      let e := (m_index m + List.length (m_text m))%nat in
      m :: match m_text m with
           | [] => match m_after m with
                   | [] => []
                   | c :: t => match_all_from fuel' ic r (Some c) t (S e)
                   end
           | _ :: _ => match_all_from fuel' ic r (Some (List.last (m_text m) 0))
                         (m_after m) e
           end
    end
  end.

End Regex.
Export Regex.

(* ===================================================================== *)
(** ** Numbers: IEEE 754 binary64                                        *)
(* ===================================================================== *)

Module Num.
Local Open Scope Z_scope.

Definition num := spec_float.
Definition prec : Z := 53.
Definition emax : Z := 1024.

Definition NaN : num := S754_nan.
Definition zero : num := S754_zero false.

(** The Number value of an integer (round to nearest, ties to even). *)
Definition of_Z (z : Z) : num := binary_normalize prec emax z 0 false.

(** The Number value of the fraction [n / d]. The numerator is scaled to
    give a quotient of at least 55 bits, whose remainder fixes the
    rounding direction. *)
Definition of_ratio (neg : bool) (n d : positive) : num :=
  let s := Z.max 0 (55 + Zdigits2 (Zpos d) - Zdigits2 (Zpos n)) in
  let '(q, r) := Z.div_eucl (Z.shiftl (Zpos n) s) (Zpos d) in
  binary_round_aux prec emax neg q (- s) (new_location (Zpos d) r).

(** The Number value of [m * 10^e], [m >= 0], with the sign [neg]. *)
Definition of_decimal (neg : bool) (m e : Z) : num :=
  match m with
  | Zpos p =>
    if 0 <=? e then binary_normalize prec emax ((if neg then - m else m) * 10 ^ e) 0 neg
    else of_ratio neg p (Z.to_pos (10 ^ (- e)))
  | _ => S754_zero neg
  end.

Definition isNaN (x : num) : bool :=
  match x with S754_nan => true | _ => false end.

(** [x < y], [x <= y] and [x === y] on Numbers (false on NaN). *)
Definition ltb (x y : num) : bool := SFltb x y.
Definition leb (x y : num) : bool := SFleb x y.
Definition eqb (x y : num) : bool := SFeqb x y.

(** Same Number value, told apart from [eqb] on NaN and on the zeros. *)
Definition same (x y : num) : bool :=
  match x, y with
  | S754_nan, S754_nan => true
  | S754_zero a, S754_zero b => Bool.eqb a b
  | S754_infinity a, S754_infinity b => Bool.eqb a b
  | S754_finite a m e, S754_finite b m' e' => Bool.eqb a b && Pos.eqb m m' && Z.eqb e e'
  | _, _ => false
  end.

(** ToBoolean of a Number. *)
Definition truthy (x : num) : bool :=
  match x with S754_nan | S754_zero _ => false | _ => true end.

Definition is_digit (c : N) : bool := ((48 <=? c) && (c <=? 57))%N.

Fixpoint span_digits (s : jsstring) : list N * jsstring :=
  match s with
  | c :: t => if is_digit c then let '(d, r) := span_digits t in (c :: d, r)
              else ([], s)
  | [] => ([], [])
  end.

Definition digits_value (ds : list N) : Z :=
  fold_left (fun acc c => 10 * acc + (Z.of_N c - 48)) ds 0.

Definition take_sign (s : jsstring) : bool * jsstring :=
  match s with
  | 45%N :: t => (true, t)
  | 43%N :: t => (false, t)
  | _ => (false, s)
  end.

(** [parseFloat]: white space is skipped, then the longest prefix that is
    a decimal literal (sign, [Infinity] or digits with an optional
    fraction and exponent) gives the value; [NaN] when there is none. *)
Definition parseFloat (s : jsstring) : num :=
  let '(neg, s2) := take_sign (trim_start s) in
  if starts_with (js "Infinity") s2 then S754_infinity neg
  else
    let '(ip, s3) := span_digits s2 in
    let '(fp, s4) := match s3 with
                     | 46%N :: t => span_digits t
                     | _ => ([], s3)
                     end in
    match ip ++ fp with
    | [] => NaN
    | ds =>
      let ex := match s4 with
                | c :: t =>
                  if ((c =? 101) || (c =? 69))%N then
                    let '(eneg, t') := take_sign t in
                    let '(ed, _) := span_digits t' in
                    match ed with
                    | [] => 0
                    | _ => if eneg then - digits_value ed else digits_value ed
                    end
                  else 0
                | [] => 0
                end in
      of_decimal neg (digits_value ds) (ex - Z.of_nat (List.length fp))
    end.

(** [parseInt(s, 10)]. *)
Definition parseInt10 (s : jsstring) : num :=
  let '(neg, s2) := take_sign (trim_start s) in
  match fst (span_digits s2) with
  | [] => NaN
  | ds => of_decimal neg (digits_value ds) 0
  end.

(** *** Number to string *)

(** A positive finite Number as the exact fraction [fst / snd]. *)
Definition ratio_of (m : positive) (e : Z) : Z * Z :=
  if 0 <=? e then (Zpos m * 2 ^ e, 1) else (Zpos m, 2 ^ (- e)).

(** [a/b] scaled by [10^(-p)], again as a fraction. *)
Definition scale10 (ab : Z * Z) (p : Z) : Z * Z :=
  let '(a, b) := ab in
  if 0 <=? p then (a, b * 10 ^ p) else (a * 10 ^ (- p), b).

(** The least [n] from [n0] on with [a/b < 10^n]. *)
Fixpoint magnitude (fuel : nat) (ab : Z * Z) (n : Z) : Z :=
  match fuel with
  | O => n
  | S f => let '(a, b) := scale10 ab n in
           if a <? b then n else magnitude f ab (n + 1)
  end.

(** The shortest digit string [s] of [k] digits, with its exponent [n],
    such that [s * 10^(n-k)] has the Number value [x]; of two candidates
    the one nearer to [x]. *)
Fixpoint shortest (fuel : nat) (x : num) (ab : Z * Z) (n k : Z) : Z * Z * Z :=
  let p := n - k in
  let '(a, b) := scale10 ab p in
  let lo := a / b in
  let hi := lo + 1 in
  let ok_lo := same (of_decimal false lo p) x in
  let ok_hi := same (of_decimal false hi p) x in
  let pick_hi := if hi =? 10 ^ k then (10 ^ (k - 1), n + 1, k) else (hi, n, k) in
  match fuel with
  | O => (lo, n, k)
  | S f =>
    if ok_lo && ok_hi then
      (if 2 * (a - lo * b) <? b then (lo, n, k)
       else if b <? 2 * (a - lo * b) then pick_hi
       else if Z.even lo then (lo, n, k) else pick_hi)
    else if ok_lo then (lo, n, k)
    else if ok_hi then pick_hi
    else shortest f x ab n (k + 1)
  end.

Fixpoint digits_of (fuel : nat) (z : Z) (acc : jsstring) : jsstring :=
  match fuel with
  | O => acc
  | S f => let acc' := Z.to_N (48 + z mod 10) :: acc in
           if z <? 10 then acc' else digits_of f (z / 10) acc'
  end.

Definition decimal_string (z : Z) : jsstring :=
  digits_of (S (Z.to_nat (Z.log2 z + 1))) z [].

Definition zeros (n : Z) : jsstring := repeat 48%N (Z.to_nat n).

(** [Number::toString] in radix 10. *)
Definition to_string (x : num) : jsstring :=
  match x with
  | S754_nan => js "NaN"
  | S754_zero _ => js "0"
  | S754_infinity neg => (if neg then js "-" else []) ++ js "Infinity"
  | S754_finite neg m e =>
    let ab := ratio_of m e in
    let n0 := magnitude 700 ab (-330) in
    let '(s, n, k) := shortest 20 (S754_finite false m e) ab n0 1 in
    let ds := decimal_string s in
    let body :=
      if (k <=? n) && (n <=? 21) then ds ++ zeros (n - k)
      else if (0 <? n) && (n <=? 21) then
        firstn (Z.to_nat n) ds ++ js "." ++ skipn (Z.to_nat n) ds
      else if (-6 <? n) && (n <=? 0) then js "0." ++ zeros (- n) ++ ds
      else
        let ex := (if 0 <=? n - 1 then js "+" else js "-")
                  ++ decimal_string (Z.abs (n - 1)) in
        match ds with
        | d :: ((_ :: _) as rest) => d :: js "." ++ rest ++ js "e" ++ ex
        | _ => ds ++ js "e" ++ ex
        end in
    (if neg then js "-" else []) ++ body
  end.

End Num.
Export Num.

(* ===================================================================== *)
(** ** JavaScript values and JSON.parse                                  *)
(* ===================================================================== *)

Module JsVal.

#[local] Set Warnings "-register-all".

(** The values [JSON.parse] can produce, and [undefined]. An object keeps
    its members in source order; of two members with one key the later
    one is the property. *)
Inductive jsval :=
| VUndef
| VNull
| VBool (b : bool)
| VNum (x : num)
| VStr (s : jsstring)
| VArr (l : list jsval)
| VObj (fs : list (jsstring * jsval))
| VBuiltin (k : jsstring).

(** [VBuiltin k] is the function or object of the language's library
    that the key [k] of [Object.prototype] holds; a lookup in an object
    literal reaches it through the prototype. *)

(** ToBoolean. *)
Definition truthy (v : jsval) : bool :=
  match v with
  | VUndef | VNull => false
  | VBool b => b
  | VNum x => Num.truthy x
  | VStr s => match s with [] => false | _ => true end
  | VArr _ | VObj _ | VBuiltin _ => true
  end.

Definition is_string (v : jsval) : bool :=
  match v with VStr _ => true | _ => false end.

Definition is_array (v : jsval) : bool :=
  match v with VArr _ => true | _ => false end.

(** [a || b] and [a && b] on values. *)
Definition or_else (a b : jsval) : jsval := if truthy a then a else b.
Definition and_then (a b : jsval) : jsval := if truthy a then b else a.

Fixpoint lookup_last (fs : list (jsstring * jsval)) (k : jsstring) : option jsval :=
  match fs with
  | [] => None
  | (k', v) :: fs' =>
    match lookup_last fs' k with
    | Some w => Some w
    | None => if str_eqb k' k then Some v else None
    end
  end.

(** [v[k]] for a key that no prototype defines, on a value that is
    neither [null] nor [undefined]: the own property or [undefined]. *)
Definition get (v : jsval) (k : jsstring) : jsval :=
  match v with
  | VObj fs => match lookup_last fs k with Some w => w | None => VUndef end
  | _ => VUndef
  end.

(** [v[0]]: the first element of an array, the first code unit of a
    string, the property ["0"] of an object. *)
Definition get0 (v : jsval) : jsval :=
  match v with
  | VArr (x :: _) => x
  | VStr (c :: _) => VStr [c]
  | VObj fs => get v (js "0")
  | _ => VUndef
  end.

(** ToString: an array joins its elements with commas ([null] and
    [undefined] elements are empty), an object is ["[object Object]"]. *)
Fixpoint to_str (v : jsval) : jsstring :=
  match v with
  | VUndef => js "undefined"
  | VNull => js "null"
  | VBool b => if b then js "true" else js "false"
  | VNum x => Num.to_string x
  | VStr s => s
  | VArr l =>
    (fix join (first : bool) (l : list jsval) : jsstring :=
       match l with
       | [] => []
       | x :: l' =>
         (if first then [] else js ",")
         ++ match x with VUndef | VNull => [] | _ => to_str x end
         ++ join false l'
       end) true l
  | VObj _ => js "[object Object]"
  | VBuiltin k =>
    if str_eqb k (js "__proto__") then js "[object Object]"
    else js "function " ++ (if str_eqb k (js "constructor") then js "Object" else k)
         ++ js "() { [native code] }"
  end.

End JsVal.
Export JsVal.

Module Json.

Definition is_ws (c : N) : bool := (c =? 32) || (c =? 9) || (c =? 10) || (c =? 13).

Fixpoint skip_ws (s : jsstring) : jsstring :=
  match s with
  | c :: t => if is_ws c then skip_ws t else s
  | [] => []
  end.

Definition hex_val (c : N) : option N :=
  if (48 <=? c) && (c <=? 57) then Some (c - 48)
  else if (65 <=? c) && (c <=? 70) then Some (c - 55)
  else if (97 <=? c) && (c <=? 102) then Some (c - 87)
  else None.

(** The characters of a string after its opening quote. *)
Fixpoint pstring (s : jsstring) (acc : jsstring) : option (jsstring * jsstring) :=
  match s with
  | [] => None
  | 34 :: t => Some (rev acc, t)
  | 92 :: 117 :: a :: b :: c :: d :: t =>
    match hex_val a, hex_val b, hex_val c, hex_val d with
    | Some x, Some y, Some z, Some w => pstring t ((x * 4096 + y * 256 + z * 16 + w) :: acc)
    | _, _, _, _ => None
    end
  | 92 :: e :: t =>
    match
      (if e =? 34 then Some 34 else if e =? 92 then Some 92
       else if e =? 47 then Some 47 else if e =? 98 then Some 8
       else if e =? 102 then Some 12 else if e =? 110 then Some 10
       else if e =? 114 then Some 13 else if e =? 116 then Some 9 else None)
    with
    | Some c => pstring t (c :: acc)
    | None => None
    end
  | c :: t => if c <? 32 then None else if c =? 92 then None else pstring t (c :: acc)
  end.

(** A number: an optional minus, an integer part without a leading zero,
    an optional fraction with at least one digit, an optional exponent. *)
Definition pnumber (s : jsstring) : option (jsval * jsstring) :=
  let '(neg, s1) := match s with 45 :: t => (true, t) | _ => (false, s) end in
  let '(ip, s2) := span_digits s1 in
  match ip with
  | [] => None
  | d0 :: ip' =>
    if (d0 =? 48) && negb (Nat.eqb (List.length ip') 0) then None else
    let frac := match s2 with
                | 46 :: t => let '(fp, r) := span_digits t in
                             match fp with [] => None | _ => Some (fp, r) end
                | _ => Some ([], s2)
                end in
    match frac with
    | None => None
    | Some (fp, s3) =>
      let expo := match s3 with
                  | c :: t =>
                    if (c =? 101) || (c =? 69) then
                      let '(eneg, t') := match t with
                                         | 45 :: u => (true, u)
                                         | 43 :: u => (false, u)
                                         | _ => (false, t)
                                         end in
                      let '(ed, r) := span_digits t' in
                      match ed with
                      | [] => None
                      | _ => Some ((if eneg then - digits_value ed else digits_value ed)%Z, r)
                      end
                    else Some (0%Z, s3)
                  | [] => Some (0%Z, s3)
                  end in
      match expo with
      | None => None
      | Some (ex, s4) =>
        Some (VNum (of_decimal neg (digits_value (ip ++ fp))
                      (ex - Z.of_nat (List.length fp))%Z), s4)
      end
    end
  end.

(** One JSON value, and the members of an array or of an object after
    the first; the fuel bounds the number of nested and of successive
    values, each of which takes at least one character. *)
Fixpoint pvalue (fuel : nat) (s : jsstring) : option (jsval * jsstring) :=
  match fuel with
  | O => None
  | S f =>
    match skip_ws s with
    | 123 :: t =>
      match skip_ws t with
      | 125 :: t' => Some (VObj [], t')
      | _ => pmembers f t []
      end
    | 91 :: t =>
      match skip_ws t with
      | 93 :: t' => Some (VArr [], t')
      | _ => pelements f t []
      end
    | 34 :: t =>
      match pstring t [] with
      | Some (str, r) => Some (VStr str, r)
      | None => None
      end
    | (_ :: _) as s' =>
      if starts_with (js "true") s' then Some (VBool true, skipn 4 s')
      else if starts_with (js "false") s' then Some (VBool false, skipn 5 s')
      else if starts_with (js "null") s' then Some (VNull, skipn 4 s')
      else pnumber s'
    | [] => None
    end
  end
with pelements (fuel : nat) (s : jsstring) (acc : list jsval)
     : option (jsval * jsstring) :=
  match fuel with
  | O => None
  | S f =>
    match pvalue f s with
    | Some (v, r) =>
      match skip_ws r with
      | 44 :: r' => pelements f r' (v :: acc)
      | 93 :: r' => Some (VArr (rev (v :: acc)), r')
      | _ => None
      end
    | None => None
    end
  end
with pmembers (fuel : nat) (s : jsstring) (acc : list (jsstring * jsval))
     : option (jsval * jsstring) :=
  match fuel with
  | O => None
  | S f =>
    match skip_ws s with
    | 34 :: t =>
      match pstring t [] with
      | Some (key, r) =>
        match skip_ws r with
        | 58 :: r1 =>
          match pvalue f r1 with
          | Some (v, r2) =>
            match skip_ws r2 with
            | 44 :: r3 => pmembers f r3 ((key, v) :: acc)
            | 125 :: r3 => Some (VObj (rev ((key, v) :: acc)), r3)
            | _ => None
            end
          | None => None
          end
        | _ => None
        end
      | None => None
      end
    | _ => None
    end
  end.

(** [JSON.parse(s)]: [None] stands for the SyntaxError it throws. *)
Definition JSON_parse (s : jsstring) : option jsval :=
  match pvalue (S (2 * List.length s)) s with
  | Some (v, r) => match skip_ws r with [] => Some v | _ :: _ => None end
  | None => None
  end.

End Json.
Export Json.

(* ===================================================================== *)
(** ** Writing patterns                                                  *)
(* ===================================================================== *)

Module Pat.

Definition lit (s : jsstring) : regex :=
  fold_right (fun c r => Seq (Char c) r) Empty s.

Definition seqs (l : list regex) : regex := fold_right Seq Empty l.

Fixpoint alts (l : list regex) : regex :=
  match l with
  | [] => Class false []
  | [r] => r
  | r :: l' => Alt r (alts l')
  end.

Definition star (r : regex) : regex := Rep 0 None true r.
Definition plus (r : regex) : regex := Rep 1 None true r.
Definition opt (r : regex) : regex := Rep 0 (Some 1%nat) true r.
Definition lazy_star (r : regex) : regex := Rep 0 None false r.
Definition times (mn mx : nat) (r : regex) : regex := Rep mn (Some mx) true r.

Definition singles (s : jsstring) : list (N * N) := map (fun c => (c, c)) s.

Definition digit_r : list (N * N) := [(48, 57)].
Definition space_r : list (N * N) :=
  [(9, 13); (32, 32); (160, 160); (5760, 5760); (8192, 8202); (8232, 8233);
   (8239, 8239); (8287, 8287); (12288, 12288); (65279, 65279)].

Definition digit : regex := Class false digit_r.              (* \d *)
Definition space : regex := Class false space_r.              (* \s *)
Definition any : regex := Class true [].                      (* [\s\S] *)
Definition dot : regex := Class true [(10, 10); (13, 13); (8232, 8233)].
Definition one_of (s : jsstring) : regex := Class false (singles s).
Definition none_of (s : jsstring) : regex := Class true (singles s).
(** Either quote character. *)
Definition quote : regex := one_of (jsq "`'").

(** [s.replace(re, r)] for a pattern without [g] and a replacement text
    without [$]: the first match is replaced. *)
Definition rx_replace (ic : bool) (r : regex) (s rep : jsstring) : jsstring :=
  match rx_match ic r s with
  | Some m => firstn (m_index m) s ++ rep ++ m_after m
  | None => s
  end.

Definition match_all (ic : bool) (r : regex) (s : jsstring) : list rmatch :=
  match_all_from (S (List.length s)) ic r None s 0.

(** [s.replace(re, r)] for a pattern with [g]: every match is replaced. *)
Fixpoint splice (s : jsstring) (pos : nat) (ms : list rmatch) (rep : jsstring)
  : jsstring :=
  match ms with
  | [] => s
  | m :: ms' =>
    firstn (m_index m - pos) s ++ rep
    ++ splice (m_after m) (m_index m + List.length (m_text m)) ms' rep
  end.

Definition rx_replace_all (ic : bool) (r : regex) (s rep : jsstring) : jsstring :=
  splice s 0 (match_all ic r s) rep.

End Pat.
Export Pat.

(* ===================================================================== *)
(** ** Results                                                           *)
(* ===================================================================== *)

(** What a call comes to: it returns a value or it throws (an [async]
    function: its promise is fulfilled or rejected). *)
Inductive outcome (A : Type) :=
| Returned (a : A)
| Thrown.
Arguments Returned {A} a.
Arguments Thrown {A}.

Definition bind {A B} (o : outcome A) (k : A -> outcome B) : outcome B :=
  match o with Returned a => k a | Thrown => Thrown end.

Notation "'let*' x ':=' e 'in' k" := (bind e (fun x => k))
  (at level 10, x name, e at level 100, k at level 200).

(** [try { body } catch { handler }]. *)
Definition try_catch {A} (body : outcome A) (handler : outcome A) : outcome A :=
  match body with Returned a => Returned a | Thrown => handler end.

(** ToString of a value as the program reaches it ([String(v)], the
    argument of [parseFloat], a property key). An object whose own
    members include [toString] has no primitive value: TypeError. *)
Fixpoint has_own_toString (v : jsval) : bool :=
  match v with
  | VObj fs => existsb (fun kv => str_eqb (fst kv) (js "toString")) fs
  | VArr l => existsb has_own_toString l
  | _ => false
  end.

Definition ToString (v : jsval) : outcome jsstring :=
  if has_own_toString v then Thrown else Returned (to_str v).

(** The record every resolution path returns. A property the path does not
    set reads as [undefined]. *)
Record AttributeRecord := {
  name : jsval;
  price : jsval;
  currency : jsval;
  size : jsval;
  link : jsval;
  image : jsval
}.

Definition opt_str (o : option jsstring) : jsval :=
  match o with Some s => VStr s | None => VNull end.

(* ===================================================================== *)
(** ** Wish-text analyzer                                                *)
(* ===================================================================== *)

Definition wish : jsstring := js "Желание".

Definition re_intent : regex := seqs [Bol; lit (js "хочу"); plus space].

Definition priceRe : regex :=
  seqs [Group 1 (Seq digit (star (Class false (digit_r ++ space_r ++ singles (js ".")))));
        star space;
        Group 2 (alts [Seq (lit (js "руб")) (opt (Char 46)); lit (js "₽");
                       lit (js "Br"); lit (js "BYN"); Char 36; lit (js "USD");
                       lit (js "€"); lit (js "EUR");
                       Seq (lit (js "долларо")) (opt (lit (js "в")));
                       lit (js "рублей"); Seq (lit (js "бун")) (opt (Char 46))])].

Definition garment : regex :=
  alts [lit (js "XS"); lit (js "S"); lit (js "M"); lit (js "L"); lit (js "XL");
        lit (js "XXL")].

Definition sizeRe : regex :=
  seqs [WordB;
        Group 1 (alts [lit (js "XS"); lit (js "S"); lit (js "M"); lit (js "L");
                       lit (js "XL"); lit (js "XXL");
                       seqs [lit (js "EU"); star space; plus digit];
                       seqs [lit (js "US"); star space; plus digit];
                       times 2 2 digit]);
        WordB].

Definition re_two_digits : regex := seqs [Bol; times 2 2 digit; Eol].
Definition re_garment : regex := seqs [Bol; Group 1 garment; Eol].
Definition re_eu_us : regex :=
  seqs [Bol; Group 1 (Alt (lit (js "EU")) (lit (js "US"))); star space; plus digit].

Definition billion : num := of_Z 1000000000.

(** Fallback: regex parsing without the language model. *)
Definition analyzeWishTextFallback (text : jsstring) : AttributeRecord :=
  let s := match trim (rx_replace true re_intent text []) with
           | [] => wish
           | s0 => s0
           end in
  let '(s, price, currency) :=
    match rx_match true priceRe s with
    | Some m =>
      let m1 := match group m 1 with Some x => x | None => [] end in
      let m2 := match group m 2 with Some x => x | None => [] end in
      let num := parseFloat (replace_str (rx_replace_all false space m1 []) (js ",") (js ".")) in
      if negb (isNaN num) && ltb num billion then
        let c := toLowerCase m2 in
        let currency :=
          if includes c (js "руб") || str_eqb c (js "₽") then VStr (js "₽")
          else if includes c (js "byn") || includes c (js "бун") then VStr (js "Br")
          else if includes c (js "долл") || str_eqb c (js "$") then VStr (js "$")
          else if includes c (js "eur") || includes c (js "евр") then VStr (js "€")
          else VNull in
        (trim (rx_replace_all false (plus space) (rx_replace true priceRe s []) (js " ")),
         VNum num, currency)
      else (s, VNull, VNull)
    | None => (s, VNull, VNull)
    end in
  let size :=
    match rx_match true sizeRe s with
    | Some sm =>
      let sz := match group sm 1 with Some x => x | None => [] end in
      if rx_test false re_two_digits sz
         && leb (of_Z 35) (parseInt10 sz) && leb (parseInt10 sz) (of_Z 52)
      then VStr sz
      else if rx_test true re_garment sz || rx_test true re_eu_us sz then VStr sz
      else VNull
    | None => VNull
    end in
  {| name := VStr (match s with [] => wish | _ => s end);
     price := price; currency := currency; size := size;
     link := VUndef; image := VUndef |}.

(** *** The inference providers *)

(** The credentials of [process.env]; a variable that is not set, or set to
    the empty string, is falsy. *)
Record Env := {
  OPENROUTER_API_KEY : option jsstring;
  GROQ_API_KEY : option jsstring;
  GEMINI_API_KEY : option jsstring
}.

Definition env_or (a b : option jsstring) : option jsstring :=
  match a with Some (_ :: _) => a | _ => b end.

Definition is_set (a : option jsstring) : bool :=
  match a with Some (_ :: _) => true | _ => false end.

Definition env_str (a : option jsstring) : jsstring :=
  match a with Some s => s | None => js "undefined" end.

(** A request to a provider, and what [fetch] gives back: a rejection, or
    a response with its [ok] flag and the text of its body. *)
Record request := {
  req_url : jsstring;
  req_bearer : option jsstring;
  req_model : option jsstring;
  req_text : jsstring;
  req_image : option jsstring;
  req_max_tokens : option Z
}.

Inductive fetch_result :=
| FetchError
| Response (ok : bool) (body : jsstring).

Definition WISH_TEXT_PROMPT : jsstring := jsq
"Текст начинается со слова «хочу». Извлеки данные. Верни ТОЛЬКО JSON:
{`name`:`строка`,`price`:число или null,`currency`:`строка или null`,`size`:`строка или null`}

Правила:
1. name — ТОЛЬКО название товара/желания (что хочет). БЕЗ слова «хочу». БЕЗ цены, размеров, валют. Примеры: «наушники AirPods Pro», «кроссовки Nike», «книга Сто лет одиночества». НЕ бери числа, цены, размеры в name.
2. price — ТОЛЬКО если явно указана сумма за товар (число рядом с руб, ₽, Br, BYN, $, USD, €, EUR, долларов, рублей). НЕ бери: год (2024), количество (2 штуки), размер (42). Иначе null.
3. currency — валюта из цены. Нормализуй: руб/RUB/₽ → ₽, BYN/Br/бун → Br, USD/$/долл → $, EUR/€/евр → €. Иначе null.
4. size — ТОЛЬКО размер одежды/обуви (42, XL, EU 43, US 10). Иначе null.".

Definition VISION_PROMPT : jsstring := jsq
"Проанализируй изображение и извлеки информацию о товаре. Верни ТОЛЬКО валидный JSON без пояснений:
{`name`:`строка или N/A`,`price`:число или null,`currency`:`строка или null`,`size`:`строка или null`}
1. name — название товара (существительное/фраза). Иначе `N/A`.
2. price и currency — связка число + валюта (BYN, Br, ₽, $, €, руб, долл). Иначе null.
3. size — только для одежды/обуви (EU 25-50, XXS-XL). Иначе null.".

Definition groq_url : jsstring := js "https://api.groq.com/openai/v1/chat/completions".
Definition openrouter_url : jsstring := js "https://openrouter.ai/api/v1/chat/completions".
Definition groq_model : jsstring := js "meta-llama/llama-4-scout-17b-16e-instruct".
Definition openrouter_model : jsstring := js "google/gemma-3-27b-it:free".
Definition gemini_url : jsstring :=
  js "https://generativelanguage.googleapis.com/v1beta/models/gemini-2.0-flash:generateContent?key=".

(** [await res.json()]. *)
Definition res_json (body : jsstring) : outcome jsval :=
  match JSON_parse body with Some v => Returned v | None => Thrown end.

Definition nullish (v : jsval) : bool :=
  match v with VUndef | VNull => true | _ => false end.

(** [v?.k] and [v?.[0]]. *)
Definition opt_get (v : jsval) (k : jsstring) : jsval :=
  if nullish v then VUndef else get v k.
Definition opt_get0 (v : jsval) : jsval :=
  if nullish v then VUndef else get0 v.

(** [data.choices?.[0]?.message?.content]; a TypeError on [null]. *)
Definition choices_content (data : jsval) : outcome jsval :=
  if nullish data then Thrown
  else Returned (opt_get (opt_get (opt_get0 (get data (js "choices"))) (js "message"))
                   (js "content")).

(** [data.candidates?.[0]?.content?.parts?.[0]?.text]. *)
Definition candidates_text (data : jsval) : outcome jsval :=
  if nullish data then Thrown
  else Returned (opt_get (opt_get0 (opt_get (opt_get (opt_get0 (get data (js "candidates")))
                                              (js "content")) (js "parts")))
                   (js "text")).

(** The pattern that cuts the answer out of the reply: an opening brace,
    as many characters as possible, a closing brace. *)
Definition re_braces : regex := seqs [Char 123; star any; Char 125].

(** [t.match(re_braces)] on a truthy [t]: a value that is not a string has
    no [match] method. *)
Definition match_braces (t : jsval) : outcome (option jsstring) :=
  match t with
  | VStr ts => Returned (option_map m_text (rx_match false re_braces ts))
  | _ => Thrown
  end.

Definition json_parse (s : jsstring) : outcome jsval :=
  match JSON_parse s with Some v => Returned v | None => Thrown end.

Definition curMap : list (jsstring * jsstring) :=
  [(js "BYN", js "Br"); (js "Br", js "Br"); (js "RUB", js "₽"); (js "руб", js "₽");
   (js "USD", js "$"); (js "EUR", js "€"); (js "KZT", js "₸")].

Definition object_prototype_keys : list jsstring :=
  map js ["constructor"; "__defineGetter__"; "__defineSetter__"; "hasOwnProperty";
          "__lookupGetter__"; "__lookupSetter__"; "isPrototypeOf";
          "propertyIsEnumerable"; "toString"; "valueOf"; "__proto__";
          "toLocaleString"]%string.

(** [curMap[k]]: an own property, else what the prototype holds. *)
Definition curMap_get (k : jsstring) : jsval :=
  match find (fun kv => str_eqb (fst kv) k) curMap with
  | Some kv => VStr (snd kv)
  | None => if existsb (str_eqb k) object_prototype_keys then VBuiltin k else VUndef
  end.

Definition number_or_null (v : jsval) : jsval :=
  match v with
  | VNum x => if isNaN x then VNull else v
  | _ => VNull
  end.

Definition string_or_null (v : jsval) : jsval :=
  match v with VStr _ => v | _ => VNull end.

(** [v && String(v).trim()], as a condition. *)
Definition has_text (v : jsval) : outcome bool :=
  if truthy v then
    let* s := ToString v in
    Returned (match trim s with [] => false | _ :: _ => true end)
  else Returned false.

(** The currency of the record: the entry of [curMap] for [cur], else
    [cur] itself when it is a string, else null. *)
Definition wish_currency (cur : jsval) : outcome jsval :=
  let* key := ToString cur in
  Returned (or_else (or_else (curMap_get key) (string_or_null cur)) VNull).

(** The record built from the parsed answer of the text provider. *)
Definition wish_record (text : jsstring) (parsed : jsval) : outcome AttributeRecord :=
  let cur := get parsed (js "currency") in
  let* named := has_text (get parsed (js "name")) in
  let* currency_ := wish_currency cur in
  Returned
    {| name := if named then get parsed (js "name")
               else name (analyzeWishTextFallback text);
       price := number_or_null (get parsed (js "price"));
       currency := currency_;
       size := string_or_null (get parsed (js "size"));
       link := VUndef; image := VUndef |}.

Section Providers.

(** The network: what each request comes back with. *)
Variable fetch : request -> fetch_result.
Variable env : Env.

Definition wish_request (text : jsstring) : request :=
  let apiKey := env_or (OPENROUTER_API_KEY env) (GROQ_API_KEY env) in
  let isGroq := is_set (GROQ_API_KEY env) in
  let url := if isGroq then groq_url else openrouter_url in
  let model := if isGroq then groq_model else openrouter_model in
  {| req_url := url; req_bearer := apiKey; req_model := Some model;
     req_text := WISH_TEXT_PROMPT ++ [10; 10] ++ text;
     req_image := None; req_max_tokens := Some 300%Z |}.

Definition analyzeWishText (text : jsstring) : outcome AttributeRecord :=
  let apiKey := env_or (OPENROUTER_API_KEY env) (GROQ_API_KEY env) in
  if negb (is_set apiKey) then Returned (analyzeWishTextFallback text) else
  match fetch (wish_request text) with
  | FetchError => Thrown
  | Response ok body =>
    if negb ok then Returned (analyzeWishTextFallback text) else
    let* data := res_json body in
    let* t := choices_content data in
    if negb (truthy t) then Returned (analyzeWishTextFallback text) else
    let* m := match_braces t in
    match m with
    | None => Returned (analyzeWishTextFallback text)
    | Some m0 =>
      try_catch
        (let* parsed := json_parse m0 in wish_record text parsed)
        (Returned (analyzeWishTextFallback text))
    end
  end.

Definition unknown : AttributeRecord :=
  {| name := VStr (js "N/A"); price := VNull; currency := VNull; size := VNull;
     link := VUndef; image := VUndef |}.

(** The record built from the parsed answer of a vision provider. *)
Definition vision_record (p : jsval) : outcome AttributeRecord :=
  let* named := has_text (get p (js "name")) in
  Returned
    {| name := if named then get p (js "name") else VStr (js "N/A");
       price := number_or_null (get p (js "price"));
       currency := string_or_null (get p (js "currency"));
       size := string_or_null (get p (js "size"));
       link := VUndef; image := VUndef |}.

(** The body of one provider's [try] block, after the request: the
    record it returns, or [None] when control leaves the block. *)
Definition read_answer (resp : fetch_result) (content : jsval -> outcome jsval)
  : outcome (option AttributeRecord) :=
  match resp with
  | FetchError => Thrown
  | Response ok body =>
    if ok then
      let* data := res_json body in
      let* t := content data in
      if truthy t then
        let* m := match_braces t in
        match m with
        | Some m0 =>
          let* p := json_parse m0 in
          let* r := vision_record p in
          Returned (Some r)
        | None => Returned None
        end
      else Returned None
    else Returned None
  end.

(** [try { ... } catch (e) { console.warn(...) }]: an exception of the
    block is logged and control goes on after it. *)
Definition attempt (block : outcome (option AttributeRecord)) : option AttributeRecord :=
  match block with Returned r => r | Thrown => None end.

Definition dataUrl (imageBase64 : jsstring) : jsstring :=
  if starts_with (js "data:") imageBase64 then imageBase64
  else js "data:image/jpeg;base64," ++ imageBase64.

Definition re_data_prefix : regex :=
  seqs [Bol; lit (js "data:"); plus (none_of (js ";")); lit (js ";base64,")].

Definition groq_request (imageBase64 : jsstring) : request :=
  {| req_url := groq_url; req_bearer := GROQ_API_KEY env;
     req_model := Some groq_model; req_text := VISION_PROMPT;
     req_image := Some (dataUrl imageBase64);
     req_max_tokens := Some 500%Z |}.

Definition openrouter_request (imageBase64 : jsstring) : request :=
  {| req_url := openrouter_url; req_bearer := OPENROUTER_API_KEY env;
     req_model := Some openrouter_model; req_text := VISION_PROMPT;
     req_image := Some (dataUrl imageBase64);
     req_max_tokens := Some 500%Z |}.

Definition gemini_request (imageBase64 : jsstring) : request :=
  {| req_url := gemini_url ++ env_str (GEMINI_API_KEY env);
     req_bearer := None; req_model := None; req_text := VISION_PROMPT;
     req_image := Some (rx_replace false re_data_prefix imageBase64 []);
     req_max_tokens := None |}.

Definition groq_vision (imageBase64 : jsstring) : outcome (option AttributeRecord) :=
  read_answer (fetch (groq_request imageBase64)) choices_content.

Definition openrouter_vision (imageBase64 : jsstring) : outcome (option AttributeRecord) :=
  read_answer (fetch (openrouter_request imageBase64)) choices_content.

Definition gemini_vision (imageBase64 : jsstring) : outcome (option AttributeRecord) :=
  read_answer (fetch (gemini_request imageBase64)) candidates_text.

Definition analyzeImage (imageBase64 : jsstring) : outcome AttributeRecord :=
  let apiKey := env_or (GROQ_API_KEY env)
                  (env_or (OPENROUTER_API_KEY env) (GEMINI_API_KEY env)) in
  if negb (is_set apiKey) then Returned unknown else
  match (if is_set (GROQ_API_KEY env) then attempt (groq_vision imageBase64) else None) with
  | Some r => Returned r
  | None =>
    match (if is_set (OPENROUTER_API_KEY env)
           then attempt (openrouter_vision imageBase64) else None) with
    | Some r => Returned r
    | None =>
      match (if is_set (GEMINI_API_KEY env)
             then attempt (gemini_vision imageBase64) else None) with
      | Some r => Returned r
      | None => Returned unknown
      end
    end
  end.

End Providers.

(* ===================================================================== *)
(** ** Metadata readers and heuristics                                   *)
(* ===================================================================== *)

Definition re_meta1 (nm : jsstring) : regex :=
  seqs [lit (js "<meta"); plus (none_of (js ">"));
        Alt (lit (js "property")) (lit (js "name")); Char 61; quote; lit nm; quote;
        plus (none_of (js ">")); lit (js "content="); quote;
        Group 1 (plus (none_of (jsq "`'"))); quote].

Definition re_meta2 (nm : jsstring) : regex :=
  seqs [lit (js "<meta"); plus (none_of (js ">")); lit (js "content="); quote;
        Group 1 (plus (none_of (jsq "`'"))); quote; plus (none_of (js ">"));
        Alt (lit (js "property")) (lit (js "name")); Char 61; quote; lit nm; quote].

(** The tag names the program asks for hold no character that [esc] would
    change, so the pattern matches the name itself, whatever its case. *)
Definition extractMeta (html nm : jsstring) : option jsstring :=
  match rx_match true (re_meta1 nm) html with
  | Some m1 => group m1 1
  | None =>
    match rx_match true (re_meta2 nm) html with
    | Some m2 => group m2 1
    | None => None
    end
  end.

Definition re_title : regex :=
  seqs [lit (js "<title"); star (none_of (js ">")); Char 62;
        Group 1 (plus (none_of (js "<"))); lit (js "</title>")].

Definition extractTitle (html : jsstring) : option jsstring :=
  match rx_match true re_title html with
  | Some m => option_map trim (group m 1)
  | None => None
  end.

(** Digits with an optional fraction after a point or a comma, captured. *)
Definition amount : regex :=
  Group 1 (Seq (plus digit) (opt (Seq (one_of (js ".,")) (plus digit)))).

(** A quoted key, a colon, an optionally quoted amount. *)
Definition keyed (key : jsstring) : regex :=
  seqs [Char dq; lit key; Char dq; star space; Char 58; star space;
        opt quote; amount; opt quote].

(** The labeled patterns in the order they are tried, each with its
    case-insensitivity flag. *)
Definition price_patterns : list (bool * regex) :=
  [ (true, keyed (js "price"));
    (false, seqs [Char dq; lit (js "price"); Char dq; star space; Char 58;
                  star space; amount]);
    (true, keyed (js "currentPrice"));
    (true, keyed (js "salePrice"));
    (true, keyed (js "basePrice"));
    (true, keyed (js "productPrice"));
    (true, seqs [lit (js "data-price="); quote; amount; quote]);
    (true, seqs [lit (jsq "itemprop=`price`"); plus space; lit (js "content=");
                 quote; amount; quote]);
    (true, seqs [lit (js "__NEXT_DATA__"); lazy_star any; keyed (js "price")]);
    (true, seqs [alts [lit (js "__NUXT__"); lit (js "__INITIAL_STATE__");
                       lit (jsq "`product`")];
                 star space; one_of (js ":}"); lazy_star any; keyed (js "price")]) ].

(** One round of the loop: the pattern matches and its amount, with a
    comma read as a point, is a number strictly between 0 and 1e9. *)
Definition price_candidate (html : jsstring) (p : bool * regex) : option num :=
  match rx_match (fst p) (snd p) html with
  | Some m =>
    let n := parseFloat (replace_str (match group m 1 with Some x => x | None => [] end)
                           (js ",") (js ".")) in
    if negb (isNaN n) && ltb zero n && ltb n billion then Some n else None
  | None => None
  end.

Fixpoint first_price (html : jsstring) (ps : list (bool * regex)) : option num :=
  match ps with
  | [] => None
  | p :: ps' =>
    match price_candidate html p with
    | Some n => Some n
    | None => first_price html ps'
    end
  end.

Definition extractPriceFromHtml (html : jsstring) : option num :=
  first_price html price_patterns.

Definition re_priceCurrency : regex :=
  seqs [lit (jsq "`priceCurrency`"); star space; Char 58; star space; quote;
        Group 1 (times 3 3 (Class false [(65, 90)])); quote].

Definition re_currency_token : regex :=
  seqs [WordB;
        Group 1 (alts [lit (js "BYN"); lit (js "Br"); lit (js "₽");
                       Seq (lit (js "руб")) (opt (Char 46)); lit (js "RUB");
                       lit (js "USD"); Char 36; lit (js "EUR"); lit (js "€")]);
        WordB].

Definition extractCurrencyFromHtml (html : jsstring) : option jsstring :=
  match rx_match true re_priceCurrency html with
  | Some m1 =>
    let c := match group m1 1 with Some x => x | None => [] end in
    if rx_test true (Alt (lit (js "BYN")) (lit (js "Br"))) c then Some (js "Br")
    else if rx_test true (lit (js "RUB")) c then Some (js "₽")
    else if rx_test true (lit (js "USD")) c then Some (js "$")
    else if rx_test true (lit (js "EUR")) c then Some (js "€")
    else if rx_test true (lit (js "KZT")) c then Some (js "₸")
    else Some c
  | None =>
    match rx_match true re_currency_token html with
    | Some m2 =>
      let c := match group m2 1 with Some x => x | None => [] end in
      if rx_test true (Alt (lit (js "BYN")) (lit (js "Br"))) c then Some (js "Br")
      else if rx_test true (alts [lit (js "RUB"); lit (js "₽"); lit (js "руб")]) c
      then Some (js "₽")
      else if rx_test true (Alt (lit (js "USD")) (lit (js "$"))) c then Some (js "$")
      else if rx_test true (Alt (lit (js "EUR")) (lit (js "€"))) c then Some (js "€")
      else None
    | None => None
    end
  end.

(** The type tag of [obj] is the string Product, or its string form (that
    of the empty string when the tag is falsy) includes Product. *)
Definition typed_product (obj : jsval) : outcome bool :=
  let ty := get obj (js "@type") in
  match ty with
  | VStr s => Returned (str_eqb s (js "Product") || includes s (js "Product"))
  | _ =>
    let* s := ToString (or_else ty (VStr [])) in
    Returned (includes s (js "Product"))
  end.

(** The search for the product node. On an array, [find] gives back the
    first element in which the search succeeds (the element, not the node
    found in it). *)
Fixpoint findProductInJsonLd (obj : jsval) : outcome jsval :=
  if negb (truthy obj) then Returned VNull else
  let* is_product := typed_product obj in
  if is_product then Returned obj else
  match obj with
  | VArr l =>
    (fix find_in (l : list jsval) : outcome jsval :=
       match l with
       | [] => Returned VUndef
       | x :: l' =>
         let* r := findProductInJsonLd x in
         if truthy r then Returned x else find_in l'
       end) l
  | VObj fs =>
    match
      (fix graph (fs : list (jsstring * jsval)) : option (outcome jsval) :=
         match fs with
         | [] => None
         | (k, v) :: fs' =>
           match graph fs' with
           | Some r => Some r
           | None =>
             if str_eqb k (js "@graph")
             then Some (if truthy v then findProductInJsonLd v else Returned VNull)
             else None
           end
         end) fs
    with
    | Some r => r
    | None => Returned VNull
    end
  | _ => Returned VNull
  end.

Definition re_ld_script : regex :=
  seqs [lit (js "<script"); plus (none_of (js ">")); lit (js "type="); quote;
        lit (js "application/ld+json"); quote; star (none_of (js ">")); Char 62;
        Group 1 (lazy_star any); lit (js "</script>")].

(** One structured-data block: the product found in it, [None] when the
    block does not parse, raises or holds none. *)
Definition ld_block (body : jsstring) : option jsval :=
  match try_catch
          (let* parsed := json_parse body in
           let* product := findProductInJsonLd parsed in
           Returned (if truthy product then Some product else None))
          (Returned None) with
  | Returned r => r
  | Thrown => None
  end.

Fixpoint first_product (ms : list rmatch) : jsval :=
  match ms with
  | [] => VNull
  | m :: ms' =>
    match ld_block (match group m 1 with Some x => x | None => [] end) with
    | Some product => product
    | None => first_product ms'
    end
  end.

Definition extractJsonLd (html : jsstring) : jsval :=
  first_product (match_all true re_ld_script html).

(* ===================================================================== *)
(** ** Script blob scanner and attribute resolver                        *)
(* ===================================================================== *)

(** The text of the first capture of a match, empty when it has none. *)
Definition cap1 (m : rmatch) : jsstring :=
  match group m 1 with Some x => x | None => [] end.

Definition with_image (r : AttributeRecord) (v : jsval) : AttributeRecord :=
  {| name := name r; price := price r; currency := currency r; size := size r;
     link := link r; image := v |}.

(** [extractFromJsonBlobs], lines 338 to 372 of the source. Two pattern
    literals of its text are not patterns of the language: the one for the
    image key, line 355, and the one for the mainImage key, line 361. In
    each, the alternative for an address that starts with two slashes is
    written with two backslashes before each slash. Two backslashes are one
    escaped backslash, so the slash that follows them ends the literal,
    with two groups still open, and the characters after it are no flags.
    The language rejects a text that holds such a literal as a whole, with
    a SyntaxError, before any statement of it runs. The function therefore
    has one behaviour, whatever the document and the address: its call
    raises. The embedding gives every call that exception and embeds none
    of the statements of a body that never runs. The fault is confined to
    this function: the functions whose own text is well formed are embedded
    as they read, and a caller meets the exception where it calls. *)
Definition extractFromJsonBlobs (html baseUrl : jsstring) : outcome AttributeRecord :=
  Thrown.

Section Resolver.

(** [new URL(u, base).href]; [None] when the constructor throws. *)
Variable new_URL : jsstring -> jsstring -> option jsstring.

Definition href (u base : jsstring) : outcome jsval :=
  match new_URL u base with Some h => Returned (VStr h) | None => Thrown end.

(** [Array.isArray(v) ? v[0] : v]. *)
Definition first_or_self (v : jsval) : jsval :=
  if is_array v then get0 v else v.

(** The price of an offer: a number as it is, anything else through
    [parseFloat]. *)
Definition offer_price (off : jsval) : outcome jsval :=
  if truthy off then
    match get off (js "price") with
    | VNum x => Returned (VNum x)
    | v => let* s := ToString v in Returned (VNum (parseFloat s))
    end
  else Returned VNull.

(** The value of the first entry of the list whose name is Размер or
    Size, [undefined] when there is none; an entry that is null raises. *)
Fixpoint find_size (ps : list jsval) : outcome jsval :=
  match ps with
  | [] => Returned VUndef
  | p :: ps' =>
    if nullish p then Thrown
    else match get p (js "name") with
         | VStr s =>
           if str_eqb s (js "Размер") || str_eqb s (js "Size")
           then Returned (get p (js "value")) else find_size ps'
         | _ => find_size ps'
         end
  end.

Definition additional_size (jsonLd : jsval) : outcome jsval :=
  if negb (truthy jsonLd) then Returned jsonLd else
  let ap := get jsonLd (js "additionalProperty") in
  if negb (truthy ap) then Returned ap else
  match ap with
  | VArr ps => find_size ps
  | _ => Thrown
  end.

(** The fields of the record, each resolved from its sources in order. *)
Definition resolve_name (ogTitle title : option jsstring) (jsonLd blob_name : jsval)
  : jsval :=
  or_else (or_else (or_else (or_else (opt_str ogTitle)
                               (and_then jsonLd (get jsonLd (js "name"))))
                      blob_name)
             (opt_str title))
    (VStr (js "N/A")).

Definition resolve_price (html : jsstring) (ogPrice : option jsstring)
           (jsonLd blob_price : jsval) : outcome jsval :=
  let price_ := match ogPrice with
                | Some ((_ :: _) as p) => VNum (parseFloat p)
                | _ => VNull
                end in
  let* price_ :=
    if nullish price_ && truthy jsonLd && truthy (get jsonLd (js "offers"))
    then offer_price (first_or_self (get jsonLd (js "offers")))
    else Returned price_ in
  let price_ := if nullish price_ then blob_price else price_ in
  let price_ := if nullish price_
                then match extractPriceFromHtml html with
                     | Some n => VNum n
                     | None => VNull
                     end
                else price_ in
  Returned price_.

Definition resolve_currency (html : jsstring) (ogCurrency : option jsstring)
           (jsonLd blob_currency : jsval) : jsval :=
  let currency_ := or_else (opt_str ogCurrency) VNull in
  let currency_ :=
    if negb (truthy currency_) && truthy jsonLd && truthy (get jsonLd (js "offers"))
    then let off := first_or_self (get jsonLd (js "offers")) in
         and_then off (or_else (get off (js "priceCurrency")) (get off (js "currency")))
    else currency_ in
  let currency_ := if negb (truthy currency_) then blob_currency else currency_ in
  if negb (truthy currency_) then opt_str (extractCurrencyFromHtml html) else currency_.

Definition resolve_size (jsonLd : jsval) : outcome jsval :=
  let size1 := and_then jsonLd (get jsonLd (js "size")) in
  if truthy size1 then Returned size1
  else let* size2 := additional_size jsonLd in
       Returned (or_else size2 VNull).

Definition resolve_image (ogImage : option jsstring) (jsonLd blob_image : jsval)
           (targetUrl : jsstring) : outcome jsval :=
  let imageUrl :=
    or_else (or_else (or_else (opt_str ogImage)
                        (and_then jsonLd (first_or_self (get jsonLd (js "image")))))
               blob_image)
      VNull in
  if truthy imageUrl then
    match imageUrl with
    | VStr u => if negb (starts_with (js "http") u) then href u targetUrl
                else Returned imageUrl
    | _ => Thrown
    end
  else Returned imageUrl.

Definition parse (html targetUrl : jsstring) : outcome AttributeRecord :=
  let title := extractTitle html in
  let ogTitle := extractMeta html (js "og:title") in
  let ogImage := extractMeta html (js "og:image") in
  let ogPrice := extractMeta html (js "og:price:amount") in
  let ogCurrency := extractMeta html (js "og:price:currency") in
  let jsonLd := extractJsonLd html in
  let* blob := extractFromJsonBlobs html targetUrl in
  let name_ := resolve_name ogTitle title jsonLd (name blob) in
  let* price_ := resolve_price html ogPrice jsonLd (price blob) in
  let currency_ := resolve_currency html ogCurrency jsonLd (currency blob) in
  let* size_ := resolve_size jsonLd in
  let* imageUrl := resolve_image ogImage jsonLd (image blob) targetUrl in
  Returned {| name := match name_ with VStr _ => name_ | _ => VStr (js "N/A") end;
              price := number_or_null price_;
              currency := string_or_null currency_;
              size := string_or_null size_;
              link := VStr targetUrl;
              image := imageUrl |}.

End Resolver.

(* ===================================================================== *)
(** ** Ephemeral text store                                              *)
(* ===================================================================== *)

Module Store.

Definition WISH_TEXT_TTL : Z := 10 * 60 * 1000.

(** An entry of [wishTextStore]. *)
Record entry := { text : jsstring; expires : Z }.

(** The state the handlers share: the map, the timers that [setTimeout]
    has armed (due time and id of the entry to delete) and the clock
    that [Date.now()] reads. *)
Record state := {
  wishTextStore : gmap (list N) entry;
  timers : list (Z * list N);
  now : Z
}.

Definition init : state := {| wishTextStore := ∅; timers := []; now := 0 |}.

Inductive reply :=
| BadRequest                                   (* 400, Invalid text *)
| Stored (id : jsstring)                       (* the id *)
| NotFound                                     (* 404, Not found or expired *)
| Text (t : jsstring)                          (* the text *)
| Analyzed (t : jsstring) (r : AttributeRecord) (* the text and its analysis *)
| Rejected.                                    (* the handler's promise rejects *)

(** The text is falsy, or not a string, or longer than 2000 code units. *)
Definition invalid_text (t : jsval) : bool :=
  negb (truthy t) || negb (is_string t)
  || match t with VStr s => (2000 <? List.length s)%nat | _ => false end.

(** POST /store-wish-text, with the id that [randomId()] draws. *)
Definition store_wish_text (id : jsstring) (body_text : jsval) (st : state)
  : state * reply :=
  match body_text with
  | VStr s =>
    if invalid_text body_text then (st, BadRequest)
    else
      ({| wishTextStore :=
            <[id := {| text := s; expires := (now st + WISH_TEXT_TTL)%Z |}]>
              (wishTextStore st);
          timers := timers st ++ [((now st + WISH_TEXT_TTL)%Z, id)];
          now := now st |},
       Stored id)
  | _ => (st, BadRequest)
  end.

Fixpoint disarm (t : Z * list N) (ts : list (Z * list N)) : list (Z * list N) :=
  match ts with
  | [] => []
  | u :: ts' =>
    if Z.eqb (fst u) (fst t) && str_eqb (snd u) (snd t) then ts'
    else u :: disarm t ts'
  end.

(** The callback of a timer: [wishTextStore.delete(id)]. *)
Definition fire (t : Z * list N) (st : state) : state :=
  {| wishTextStore := delete (snd t) (wishTextStore st);
     timers := disarm t (timers st);
     now := now st |}.

Section Handlers.

Variable fetch : request -> fetch_result.
Variable env : Env.

(** GET /wish-text. The id of the query is any value; only a string
    can be a key of the map. *)
Definition wish_text (id : jsval) (analyze : bool) (st : state) : reply :=
  match (match id with VStr k => wishTextStore st !! k | _ => None end) with
  | None => NotFound
  | Some e =>
    if negb analyze then Text (text e)
    else match analyzeWishText fetch env (text e) with
         | Returned extracted => Analyzed (text e) extracted
         | Thrown => Rejected
         end
  end.

(** What can happen to the server: time passes, a request comes in, an
    armed timer runs. *)
Inductive event :=
| Tick (dt : Z)
| Post (id : jsstring) (body_text : jsval)
| Get (id : jsval) (analyze : bool)
| Fire (t : Z * list N).

(** A timer runs only once armed and due, and time does not go back. *)
Definition enabled (ev : event) (st : state) : Prop :=
  match ev with
  | Tick dt => (0 <= dt)%Z
  | Fire t => In t (timers st) /\ (fst t <= now st)%Z
  | _ => True
  end.

Definition step (ev : event) (st : state) : state * option reply :=
  match ev with
  | Tick dt => ({| wishTextStore := wishTextStore st; timers := timers st;
                   now := (now st + dt)%Z |}, None)
  | Post id t => let '(st', r) := store_wish_text id t st in (st', Some r)
  | Get id a => (st, Some (wish_text id a st))
  | Fire t => (fire t st, None)
  end.

(** The states the server can be in. *)
Inductive reachable : state -> Prop :=
| reach_init : reachable init
| reach_step st ev : reachable st -> enabled ev st -> reachable (fst (step ev st)).

Fixpoint run (evs : list event) (st : state) : state * list (option reply) :=
  match evs with
  | [] => (st, [])
  | ev :: evs' =>
    let '(st', r) := step ev st in
    let '(st'', rs) := run evs' st' in
    (st'', r :: rs)
  end.

End Handlers.

(** Every entry holds a text of 1 to 2000 code units. *)
Definition bounded_texts (st : state) : Prop :=
  forall (id : list N) (e : entry),
    wishTextStore st !! id = Some e -> (1 <= List.length (text e) <= 2000)%nat.

End Store.

(* ===================================================================== *)
(** ** What the specification says, in its own words                     *)
(* ===================================================================== *)

(** The readings of the specification that the resolver and the analyzers
    are compared with. *)
Module Spec.

(** The closed set of currency symbols. *)
Definition symbols : list jsstring := [js "₽"; js "Br"; js "$"; js "€"; js "₸"].

(** The first balanced span of braces: from the first opening brace to
    the closing brace that brings the depth back to zero, braces inside
    string literals not counted. *)
Fixpoint balanced_end (s : jsstring) (depth : nat) (in_str : bool) (acc : jsstring)
  : option jsstring :=
  match s with
  | [] => None
  | c :: s' =>
    if in_str then
      if c =? 92 then
        match s' with
        | e :: s'' => balanced_end s'' depth true (e :: c :: acc)
        | [] => None
        end
      else balanced_end s' depth (negb (c =? dq)) (c :: acc)
    else if c =? dq then balanced_end s' depth true (c :: acc)
    else if c =? 123 then balanced_end s' (S depth) false (c :: acc)
    else if c =? 125 then
      match depth with
      | 1%nat => Some (rev (c :: acc))
      | _ => balanced_end s' (Nat.pred depth) false (c :: acc)
      end
    else balanced_end s' depth false (c :: acc)
  end.

Fixpoint first_balanced_span (t : jsstring) : option jsstring :=
  match t with
  | [] => None
  | c :: t' => if c =? 123 then balanced_end t' 1 false [c] else first_balanced_span t'
  end.

(** The span the pattern of the program cuts out, said without the
    pattern: from the first opening brace to the last closing brace
    after it. *)
Fixpoint from_first (c : N) (s : jsstring) : option jsstring :=
  match s with
  | [] => None
  | x :: s' => if x =? c then Some s' else from_first c s'
  end.

Fixpoint upto_last (c : N) (s : jsstring) : option jsstring :=
  match s with
  | [] => None
  | x :: s' =>
    match upto_last c s' with
    | Some p => Some (x :: p)
    | None => if x =? c then Some [x] else None
    end
  end.

Definition widest_brace_span (t : jsstring) : option jsstring :=
  match from_first 123 t with
  | Some s => option_map (cons 123) (upto_last 125 s)
  | None => None
  end.

End Spec.

(** A finite Number: neither NaN nor an infinity. *)
Definition is_finite (x : num) : bool :=
  match x with
  | S754_finite _ _ _ | S754_zero _ => true
  | _ => false
  end.

(** A provider call that fails or gives nothing to use: the request is
    rejected, the status is not a success, the body is not JSON, the reply
    holds no text, the text holds no braces, or what the braces hold is not
    a JSON object with a printable name. *)
Inductive unusable (content : jsval -> outcome jsval) : fetch_result -> Prop :=
| no_response : unusable content FetchError
| bad_status body : unusable content (Response false body)
| body_not_json body :
    JSON_parse body = None -> unusable content (Response true body)
| content_raises body data :
    JSON_parse body = Some data -> content data = Thrown ->
    unusable content (Response true body)
| content_empty body data t :
    JSON_parse body = Some data -> content data = Returned t -> truthy t = false ->
    unusable content (Response true body)
| content_not_text body data t :
    JSON_parse body = Some data -> content data = Returned t -> truthy t = true ->
    is_string t = false -> unusable content (Response true body)
| no_braces body data ts :
    JSON_parse body = Some data -> content data = Returned (VStr ts) ->
    Spec.widest_brace_span ts = None -> unusable content (Response true body)
| answer_not_json body data ts span :
    JSON_parse body = Some data -> content data = Returned (VStr ts) ->
    Spec.widest_brace_span ts = Some span -> JSON_parse span = None ->
    unusable content (Response true body)
| name_not_printable body data ts span p :
    JSON_parse body = Some data -> content data = Returned (VStr ts) ->
    Spec.widest_brace_span ts = Some span -> JSON_parse span = Some p ->
    has_text (get p (js "name")) = Thrown ->
    unusable content (Response true body).

(** A greedy star over any character followed by [k]: the longest rest of
    the input that [k] accepts. *)
Fixpoint try_longest (k : mstate -> option mstate) (prev : option N) (s : jsstring)
         (caps : list (nat * jsstring)) : option mstate :=
  match s with
  | [] => k (MState prev [] caps)
  | x :: s' => orelse (try_longest k (Some x) s' caps) (k (MState prev s caps))
  end.

(** The continuation of the star in [re_braces]: a closing brace. *)
Definition close_brace (st : mstate) : option mstate :=
  exec false (Seq (Char 125) Empty) st Some.

(** The tests that [extractCurrencyFromHtml] runs on a captured code or
    token, said without patterns: a pattern made of a literal is found in a
    text, case apart, when the upper-case text includes the upper-case
    literal. *)
Definition holds (c lit_ : jsstring) : bool := includes (map upper c) (map upper lit_).

Definition code_symbol (c : jsstring) : jsstring :=
  if holds c (js "BYN") || holds c (js "Br") then js "Br"
  else if holds c (js "RUB") then js "₽"
  else if holds c (js "USD") then js "$"
  else if holds c (js "EUR") then js "€"
  else if holds c (js "KZT") then js "₸"
  else c.

Definition token_symbol (c : jsstring) : option jsstring :=
  if holds c (js "BYN") || holds c (js "Br") then Some (js "Br")
  else if holds c (js "RUB") || (holds c (js "₽") || holds c (js "руб")) then Some (js "₽")
  else if holds c (js "USD") || holds c (js "$") then Some (js "$")
  else if holds c (js "EUR") || holds c (js "€") then Some (js "€")
  else None.

(** A pattern made of a literal at the head of a text. *)
Fixpoint prefix_eq (ic : bool) (p s : jsstring) : bool :=
  match p, s with
  | [], _ => true
  | c :: p', x :: s' => char_eq ic c x && prefix_eq ic p' s'
  | _ :: _, [] => false
  end.

Definition is_some {A} (o : option A) : bool :=
  match o with Some _ => true | None => false end.

(* ===================================================================== *)
(** ** Sample documents                                                  *)
(* ===================================================================== *)

(** A document with an open-graph title and a price in a script blob, and
    nothing else; its address; a resolver of addresses that is never asked. *)
Definition page_title_and_blob : jsstring := jsq
  "<html><head><meta property=`og:title` content=`Кеды Nike Air`></head><body><script>window.__STATE__ = {`sku`:`A-17`,`price`: 4999.5};</script></body></html>".

Definition page_url : jsstring := js "https://shop.example/p/17".

Definition no_URL : jsstring -> jsstring -> option jsstring := fun _ _ => None.

(** A document whose structured data names the product by a value object,
    and whose title names it in plain text. *)
Definition page_named_by_object : jsstring := jsq
  "<html><head><title>Кеды Nike Air</title><script type=`application/ld+json`>{`@context`:`https://schema.org`,`@type`:`Product`,`name`:{`@language`:`ru`,`@value`:`Кеды Nike Air`}}</script></head><body></body></html>".


(* ===================================================================== *)
(** ** Structured data, said list by list                                *)
(* ===================================================================== *)

(** [obj.find(x => findProductInJsonLd(x))] on the elements of an array:
    the first element in which the search succeeds. *)
Fixpoint find_in_array (l : list jsval) : outcome jsval :=
  match l with
  | [] => Returned VUndef
  | x :: l' =>
    let* r := findProductInJsonLd x in
    if truthy r then Returned x else find_in_array l'
  end.

Definition is_container (v : jsval) : bool :=
  match v with VArr _ | VObj _ => true | _ => false end.

(* ===================================================================== *)
(** ** The endpoints around the analyzers                                *)
(* ===================================================================== *)

(** What [fetch(body.imageUrl)] comes to: a rejection (of the request or
    of the reading of the body), or a response with its [ok] flag and the
    base64 text of its bytes. *)
Inductive download :=
| DownloadError
| Downloaded (ok : bool) (base64 : jsstring).

Inductive image_reply :=
| Image400 (missing : bool)          (* the download failed, or no image *)
| Image200 (r : AttributeRecord)     (* the analysis and the stored address *)
| Image502.

Section AnalyzeImageEndpoint.

Variable fetch : request -> fetch_result.
Variable env : Env.
Variable fetch_bytes : jsstring -> download.

(** The object storage: [None] when no client is configured; else what the
    upload of the raw base64 text comes to: an exception, no address
    (an error, or no data), or the value of [publicUrl]. *)
Variable storage : option (jsstring -> outcome (option jsval)).

(** The image to analyze: [body.image || body.base64], replaced by the
    downloaded bytes when [body.imageUrl] is a string that is not empty. *)
Definition image_payload (body : jsval) : outcome jsval :=
  let imageBase64 := or_else (get body (js "image")) (get body (js "base64")) in
  match get body (js "imageUrl") with
  | VStr ((_ :: _) as u) =>
    match fetch_bytes u with
    | Downloaded true b64 => Returned (VStr b64)
    | _ => Thrown
    end
  | _ => Returned imageBase64
  end.

(** The address of the stored copy, null without storage or on failure. *)
Definition stored_image (imageBase64 : jsstring) : jsval :=
  match storage with
  | Some upload =>
    match upload (rx_replace false re_data_prefix imageBase64 []) with
    | Returned (Some publicUrl) => or_else publicUrl VNull
    | _ => VNull
    end
  | None => VNull
  end.

(** POST /analyze-image; [req.body], absent, reads as an empty object. *)
Definition analyze_image (req_body : jsval) : image_reply :=
  let body := or_else req_body (VObj []) in
  match image_payload body with
  | Thrown => Image400 false
  | Returned imageBase64 =>
    match imageBase64 with
    | VStr ((_ :: _) as b64) =>
      match analyzeImage fetch env b64 with
      | Returned extracted => Image200 (with_image extracted (stored_image b64))
      | Thrown => Image502
      end
    | _ => Image400 true
    end
  end.

End AnalyzeImageEndpoint.

(** What the visit of the image address by the browser comes to: an
    exception, no response, or a response with its [ok] flag, its
    content-type header and the base64 text of its bytes. *)
Inductive image_visit :=
| VisitError
| NoResponse
| Visited (ok : bool) (content_type : jsval) (base64 : jsstring).

Inductive page_reply :=
| Page400 (https_only : bool)
| Page200 (r : AttributeRecord) (imageBase64 : jsval)
| Page502 (link_ : jsstring).

Definition re_image_type : regex :=
  seqs [Bol; lit (js "image/");
        Group 1 (alts [lit (js "jpeg"); lit (js "png"); lit (js "webp"); lit (js "gif")])].

Section PageEndpoint.

Variable new_URL : jsstring -> jsstring -> option jsstring.

(** The browser: the rendered document of an address (launch, navigation
    and reading of the content, any of which may raise), and the visit of
    an image address. *)
Variable render : jsstring -> outcome jsstring.
Variable visit : jsstring -> image_visit.

(** The image of the record as a data address, [undefined] when it is not
    fetched; whatever the inner block raises is logged and dropped. *)
Definition image_data (result : AttributeRecord) (targetUrl : jsstring) : jsval :=
  match image result with
  | VStr ((_ :: _) as u) =>
    match (if starts_with (js "http") u then Some u else new_URL u targetUrl) with
    | Some imgUrl =>
      match visit imgUrl with
      | Visited true ct b64 =>
        match ToString (or_else ct (VStr (js "image/jpeg"))) with
        | Returned ct_ =>
          if rx_test true re_image_type ct_
          then VStr (js "data:" ++ ct_ ++ js ";base64," ++ b64)
          else VUndef
        | Thrown => VUndef
        end
      | _ => VUndef
      end
    | None => VUndef
    end
  | _ => VUndef
  end.

(** GET /, for the [url] of the query. *)
Definition get_page (url : jsval) : page_reply :=
  match url with
  | VStr ((_ :: _) as targetUrl) =>
    if negb (starts_with (js "https://") targetUrl) then Page400 true
    else
      match (let* html := render targetUrl in parse new_URL html targetUrl) with
      | Returned result =>
        Page200 result (or_else (image_data result targetUrl) VNull)
      | Thrown => Page502 targetUrl
      end
  | _ => Page400 false
  end.

End PageEndpoint.

(* ===================================================================== *)
(** ** Shapes of records and of the store                                *)
(* ===================================================================== *)

(** The part of the shape that the analyzers share: a truthy name, a price
    that is null or a number that is not NaN, a size that is null or a
    string. *)
Definition named_and_typed (r : AttributeRecord) : Prop :=
  truthy (name r) = true
  /\ (price r = VNull \/ exists x, price r = VNum x /\ isNaN x = false)
  /\ (size r = VNull \/ exists s, size r = VStr s).

(** Every entry has its timer armed, due at the expiry of the entry, and
    no expiry and no timer lies further ahead than the time to live. *)
Definition timers_cover (st : Store.state) : Prop :=
  (forall (k : list N) (e : Store.entry),
      Store.wishTextStore st !! k = Some e ->
      In (Store.expires e, k) (Store.timers st))
  /\ (forall t, In t (Store.timers st) -> (fst t <= Store.now st + Store.WISH_TEXT_TTL)%Z).

(** Where a search that succeeds can end: at the node itself when it is
    typed as a product, at an element of an array in which the search
    succeeds, or where the search in the graph member ends. *)
Inductive answer_of : jsval -> jsval -> Prop :=
| answer_self obj :
    typed_product obj = Returned true -> answer_of obj obj
| answer_element l x r :
    In x l -> findProductInJsonLd x = Returned r -> truthy r = true ->
    answer_of (VArr l) x
| answer_graph fs r :
    answer_of (get (VObj fs) (js "@graph")) r -> answer_of (VObj fs) r.

(** A document whose structured data gives the image as an image object. *)
Definition page_image_object : jsstring := jsq
  "<html><head><title>Кеды Nike Air</title><script type=`application/ld+json`>{`@context`:`https://schema.org`,`@type`:`Product`,`name`:`Кеды Nike Air`,`image`:{`@type`:`ImageObject`,`url`:`https://shop.example/i/17.jpg`}}</script></head><body></body></html>".

(** A document whose structured data gives one additional property, as an
    object and not as a list. *)
Definition page_property_object : jsstring := jsq
  "<html><head><title>Кеды Nike Air</title><script type=`application/ld+json`>{`@context`:`https://schema.org`,`@type`:`Product`,`name`:`Кеды Nike Air`,`additionalProperty`:{`@type`:`PropertyValue`,`name`:`Size`,`value`:`42`}}</script></head><body></body></html>".

(* ===================================================================== *)
(** ** What a pattern can match                                          *)
(* ===================================================================== *)

(** The text of capture [i] in a list of captures. *)
Definition cap_of (caps : list (nat * jsstring)) (i : nat) : option jsstring :=
  option_map snd (find (fun p => Nat.eqb (fst p) i) caps).

(** The numbers of iterations a quantifier allows. *)
Definition count_ok (mn : nat) (mx : option nat) (n : nat) : Prop :=
  match mx with
  | Some b => (n <= b /\ Nat.min mn b <= n)%nat
  | None => (mn <= n)%nat
  end.

(** The texts a pattern can consume, the context of the assertions left
    aside: an assertion consumes nothing. *)
Fixpoint lang (ic : bool) (r : regex) (w : jsstring) {struct r} : Prop :=
  match r with
  | Empty | Bol | Eol | WordB => w = []
  | Char c => exists x, w = [x] /\ char_eq ic c x = true
  | Class neg rs => exists x, w = [x] /\ xorb neg (class_mem ic rs x) = true
  | Seq a b => exists u v, w = u ++ v /\ lang ic a u /\ lang ic b v
  | Alt a b => lang ic a w \/ lang ic b w
  | Rep mn mx _ a =>
    exists ws, w = concat ws /\ Forall (lang ic a) ws
               /\ count_ok mn mx (List.length ws)
  | Group _ a => lang ic a w
  end.

(** The texts that capture [i] of a pattern can hold: those of the body of
    a group numbered [i]. *)
Fixpoint cap_lang (ic : bool) (r : regex) (i : nat) (u : jsstring) {struct r} : Prop :=
  match r with
  | Seq a b | Alt a b => cap_lang ic a i u \/ cap_lang ic b i u
  | Rep _ _ _ a => cap_lang ic a i u
  | Group j a => (j = i /\ lang ic a u) \/ cap_lang ic a i u
  | _ => False
  end.

(** The groups that take part in every match of a pattern. *)
Fixpoint must_cap (r : regex) (i : nat) : bool :=
  match r with
  | Seq a b => must_cap a i || must_cap b i
  | Alt a b => must_cap a i && must_cap b i
  | Rep mn mx _ a =>
    negb (Nat.eqb mn 0)
    && match mx with Some O => false | _ => true end
    && must_cap a i
  | Group j a => Nat.eqb j i || must_cap a i
  | _ => false
  end.

(** One run of a pattern from a state to a state: it consumes a text of
    the pattern, each capture is as before or holds a text of a group of
    that number, and the captures of the groups that always take part are
    set. *)
Definition run_of (ic : bool) (r : regex) (st st' : mstate) : Prop :=
  exists w,
    ms_rest st = w ++ ms_rest st'
    /\ lang ic r w
    /\ (forall i, cap_of (ms_caps st') i = cap_of (ms_caps st) i
                  \/ exists u, cap_of (ms_caps st') i = Some u /\ cap_lang ic r i u)
    /\ (forall i, must_cap r i = true -> cap_of (ms_caps st') i <> None).

(** The bodies of the groups numbered [i] in a pattern. *)
Fixpoint group_bodies (r : regex) (i : nat) : list regex :=
  match r with
  | Seq a b | Alt a b => group_bodies a i ++ group_bodies b i
  | Rep _ _ _ a => group_bodies a i
  | Group j a => (if Nat.eqb j i then [a] else []) ++ group_bodies a i
  | _ => []
  end.

(* ===================================================================== *)
(** ** Sample documents for the price heuristic                          *)
(* ===================================================================== *)

(** Documents with the price that the heuristic reads in them. The first
    twelve are decided by the ten patterns of the list, in the order of the
    list, the last pattern once by each of its three markers; the others
    show the bounds, the decimal comma, the order of the patterns, and that
    only the first match of a pattern is looked at. *)
Definition price_samples : list (jsstring * option num) :=
  [ (jsq "{`price`: 15}", Some (of_Z 15));
    (jsq "{`PRICE`:0,`price`:20}", Some (of_Z 20));
    (jsq "{`currentPrice`:`7`}", Some (of_Z 7));
    (jsq "{`salePrice`: 8}", Some (of_Z 8));
    (jsq "{`basePrice`:'9'}", Some (of_Z 9));
    (jsq "{`productPrice`:10.5}", Some (of_ratio false 21 2));
    (jsq "<span data-price=`12,5`>12,50</span>", Some (of_ratio false 25 2));
    (jsq "<meta itemprop=`price`  content=`99.90`>", Some (of_ratio false 999 10));
    (jsq "{`price`:0} __NEXT_DATA__ {`id`:1,`price`:`30`}", Some (of_Z 30));
    (jsq "{`price`:0,`product`:{`id`:1,`price`:43}}", Some (of_Z 43));
    (jsq "{`price`:0};__INITIAL_STATE__ : {`price`:42}", Some (of_Z 42));
    (jsq "{`price`:0} __NUXT__}{`price`:41}", Some (of_Z 41));
    (jsq "{`price`: 999999999}", Some (of_Z 999999999));
    (jsq "{`price`: 1000000000}", None);
    (jsq "{`price`: 0}", None);
    (jsq "{`price`: -5}", None);
    (jsq "{`price`:`12,50`}", Some (of_ratio false 25 2));
    (jsq "{`salePrice`:5,`currentPrice`:7}", Some (of_Z 7));
    (jsq "{`price`:0,`salePrice`:5}", Some (of_Z 5));
    (jsq "{`price`:0,`price`:15}", None);
    (jsq "<p>price: 15</p>", None) ].

(* ===================================================================== *)
(** ** Sample documents for the resolver                                 *)
(* ===================================================================== *)

(** A document with an open-graph title and an open-graph amount. *)
Definition page_og_price : jsstring := jsq
  "<html><head><meta property=`og:title` content=`Кеды Nike Air`><meta property=`og:price:amount` content=`4999.50`></head><body></body></html>".

(** A document with an open-graph title and an open-graph currency code. *)
Definition page_og_currency : jsstring := jsq
  "<html><head><meta property=`og:title` content=`Кеды Nike Air`><meta property=`og:price:currency` content=`RUB`></head><body></body></html>".

(* ===================================================================== *)
(** ** Texts that leave the count of braces as it is                     *)
(* ===================================================================== *)

(** A text that the scan for the balanced span passes over, outside a
    string literal, without a change of depth; and the body of a string
    literal, which the scan leaves at its closing quote. *)
Definition neutral (w : jsstring) : Prop :=
  forall (d : nat) (acc r : jsstring),
    (1 <= d)%nat ->
    Spec.balanced_end (w ++ r) d false acc = Spec.balanced_end r d false (rev w ++ acc).

Definition string_body (b : jsstring) : Prop :=
  forall (d : nat) (acc r : jsstring),
    Spec.balanced_end (b ++ 34 :: r) d true acc
    = Spec.balanced_end r d false (34 :: rev b ++ acc).

(** A code unit that is no quote and no brace. *)
Definition plain (c : N) : Prop := c <> 34 /\ c <> 123 /\ c <> 125.
(* ===================================================================== *)
(** ** Properties                                                        *)
(* ===================================================================== *)

(** *** The deterministic fallback on the example sentence *)

(** C7. The deterministic wish-text fallback applied to the sentence
    хочу кроссовки Nike 42 за 150 руб returns a record whose name does not
    contain the word хочу (it is кроссовки Nike 42 за), whose price is 150,
    whose currency is ₽ and whose size is 42. *)
Theorem fallback_on_example_sentence :
  let r := analyzeWishTextFallback (js "хочу кроссовки Nike 42 за 150 руб") in
  name r = VStr (js "кроссовки Nike 42 за")
  /\ includes (js "кроссовки Nike 42 за") (js "хочу") = false
  /\ price r = VNum (of_Z 150)
  /\ currency r = VStr (js "₽")
  /\ size r = VStr (js "42").
Proof. vm_compute. repeat split; reflexivity. Qed.

(** *** The text store *)

Import Store.

Lemma invalid_text_cases (t : jsval) :
  t = VStr [] \/ is_string t = false
  \/ (exists s, t = VStr s /\ (2000 < List.length s)%nat) ->
  invalid_text t = true.
Proof.
  intros [-> | [H | (s & -> & H)]]; unfold invalid_text.
  - reflexivity.
  - destruct t; try discriminate H; simpl; rewrite ?orb_true_r; reflexivity.
  - apply orb_true_iff. right. apply Nat.ltb_lt. exact H.
Qed.

Lemma valid_text_length (t : jsval) :
  invalid_text t = false ->
  exists s, t = VStr s /\ (1 <= List.length s <= 2000)%nat.
Proof.
  unfold invalid_text. intros H.
  apply orb_false_iff in H as [H H2]. apply orb_false_iff in H as [H0 H1].
  destruct t; try discriminate.
  exists s. split; [reflexivity|].
  apply Nat.ltb_ge in H2. destruct s; [discriminate|]. simpl in *. lia.
Qed.

Lemma store_wish_text_invalid (id : jsstring) (t : jsval) (st : state) :
  invalid_text t = true -> store_wish_text id t st = (st, BadRequest).
Proof.
  intros H. unfold store_wish_text. destruct t; try reflexivity. now rewrite H.
Qed.

Lemma bounded_texts_step fetch env (ev : event) (st : state) :
  bounded_texts st -> bounded_texts (fst (step fetch env ev st)).
Proof.
  intros Hst. destruct ev as [dt | id t | id a | tm]; simpl.
  - exact Hst.
  - unfold store_wish_text. destruct t; try exact Hst.
    destruct (invalid_text (VStr s)) eqn:Hinv; [exact Hst|].
    apply valid_text_length in Hinv as (s' & Heq & Hlen). injection Heq as <-.
    intros k e. simpl. rewrite lookup_insert. case_decide.
    + intros Heq. injection Heq as Heq. subst e. exact Hlen.
    + apply Hst.
  - exact Hst.
  - intros k e. simpl. rewrite lookup_delete.
    case_decide; [discriminate | apply Hst].
Qed.

(** C10. The submit-text operation rejects an empty string, a value that
    is not a string and a text longer than 2000 characters with the 400
    reply and leaves the store as it was; so every entry of every state
    the server can reach holds a text of 1 to 2000 characters. *)
Theorem submit_rejects_invalid_text_and_store_is_bounded fetch env :
  (forall (id : jsstring) (t : jsval) (st : state),
      t = VStr [] \/ is_string t = false
      \/ (exists s, t = VStr s /\ (2000 < List.length s)%nat) ->
      store_wish_text id t st = (st, BadRequest))
  /\ (forall st : state, reachable fetch env st -> bounded_texts st).
Proof.
  split.
  - intros id t st H. apply store_wish_text_invalid, invalid_text_cases, H.
  - induction 1 as [| st ev _ IH _].
    + intros k e. unfold init. simpl. rewrite lookup_empty. discriminate.
    + apply bounded_texts_step, IH.
Qed.

Lemma submit_rejects_invalid_text_and_store_is_bounded_witness :
  store_wish_text (js "k3x9q2ab") (VNum (of_Z 7)) init = (init, BadRequest)
  /\ (1 <= List.length (js "хочу кеды") <= 2000)%nat.
Proof.
  pose (fetch := fun _ : request => FetchError).
  pose (env := {| OPENROUTER_API_KEY := None; GROQ_API_KEY := None;
                  GEMINI_API_KEY := None |}).
  destruct (submit_rejects_invalid_text_and_store_is_bounded fetch env) as [Hrej Hbound].
  split.
  - apply Hrej. right. left. reflexivity.
  - apply (Hbound
             (fst (step fetch env (Post (js "k3x9q2ab") (VStr (js "хочу кеды"))) init))
             (reach_step fetch env init
                (Post (js "k3x9q2ab") (VStr (js "хочу кеды")))
                (reach_init fetch env) I)
             (js "k3x9q2ab")
             {| text := js "хочу кеды"; expires := WISH_TEXT_TTL |}).
    vm_compute. reflexivity.
Defined.

(** The lookup never reads the clock nor the expiry of the entry. *)
Lemma wish_text_serves_any_entry fetch env (k : list N) (e : entry) (st : state) :
  wishTextStore st !! k = Some e ->
  wish_text fetch env (VStr k) false st = Text (text e).
Proof. intros H. unfold wish_text. cbv beta iota. rewrite H. reflexivity. Qed.

(** C1, at the failing schedule: a text is stored at time 0, the clock
    passes its expiry (600000) by one millisecond before the armed timer
    has run, and the lookup of the id still replies with the stored text,
    where a reply of not found is due. *)
Theorem lookup_after_expiry_serves_stored_text fetch env :
  let id := js "k3x9q2ab" in
  let txt := js "хочу кеды" in
  let res := run fetch env
               [Post id (VStr txt); Tick (WISH_TEXT_TTL + 1); Get (VStr id) false] init in
  snd res = [Some (Stored id); None; Some (Text txt)]
  /\ wishTextStore (fst res) !! id = Some {| text := txt; expires := 600000 |}
  /\ now (fst res) = 600001%Z
  /\ timers (fst res) = [(600000%Z, id)].
Proof. vm_compute. repeat split; reflexivity. Qed.

(** Once the armed timer has run, the same lookup replies not found. *)
Example lookup_after_timer_is_not_found fetch env :
  snd (run fetch env
         [Post (js "k3x9q2ab") (VStr (js "хочу кеды")); Tick (WISH_TEXT_TTL + 1);
          Fire (600000%Z, js "k3x9q2ab"); Get (VStr (js "k3x9q2ab")) false] init)
  = [Some (Stored (js "k3x9q2ab")); None; None; Some NotFound].
Proof. vm_compute. reflexivity. Qed.

(** *** The regex price heuristic *)

Lemma price_candidate_range (html : jsstring) (p : bool * regex) (n : num) :
  price_candidate html p = Some n ->
  isNaN n = false /\ ltb zero n = true /\ ltb n billion = true.
Proof.
  unfold price_candidate. destruct (rx_match p.1 p.2 html) as [m|]; [|discriminate].
  set (x := parseFloat _).
  destruct (negb (isNaN x) && ltb zero x && ltb x billion) eqn:H; [|discriminate].
  intros [= <-].
  apply andb_true_iff in H as [H H3]. apply andb_true_iff in H as [H1 H2].
  apply negb_true_iff in H1. auto.
Qed.

Lemma range_is_finite (n : num) :
  ltb zero n = true -> ltb n billion = true -> is_finite n = true.
Proof. destruct n as [s | [|] | | s m e]; simpl; try reflexivity; discriminate. Qed.

(** What one round of the loop yields, said with the match itself. *)
Lemma price_candidate_match (html : jsstring) (p : bool * regex) (n : num) :
  price_candidate html p = Some n <->
  exists m, rx_match (fst p) (snd p) html = Some m
            /\ n = parseFloat (replace_str (cap1 m) (js ",") (js "."))
            /\ isNaN n = false /\ ltb zero n = true /\ ltb n billion = true.
Proof.
  unfold price_candidate, cap1. split.
  - destruct (rx_match p.1 p.2 html) as [m|]; [|discriminate].
    set (x := parseFloat _).
    destruct (negb (isNaN x) && ltb zero x && ltb x billion) eqn:H; [|discriminate].
    intros [= <-]. exists m. split; [reflexivity|]. split; [reflexivity|].
    apply andb_true_iff in H as [H H3]. apply andb_true_iff in H as [H1 H2].
    apply negb_true_iff in H1. auto.
  - intros (m & -> & -> & H1 & H2 & H3). now rewrite H1, H2, H3.
Qed.

Lemma first_price_first (html : jsstring) (ps : list (bool * regex)) :
  match first_price html ps with
  | Some n =>
    exists (i : nat) (p : bool * regex),
      nth_error ps i = Some p /\ price_candidate html p = Some n
      /\ forall (j : nat) (q : bool * regex),
           (j < i)%nat -> nth_error ps j = Some q -> price_candidate html q = None
  | None => forall p, In p ps -> price_candidate html p = None
  end.
Proof.
  induction ps as [|p ps IH]; simpl.
  - intros p [].
  - destruct (price_candidate html p) as [n|] eqn:Hp.
    + exists 0%nat, p. repeat split; auto. intros j q Hj. lia.
    + destruct (first_price html ps) as [n|].
      * destruct IH as (i & q & Hi & Hq & Hbefore).
        exists (S i), q. repeat split; auto.
        intros [|j] q' Hj; simpl; [intros [= <-]; exact Hp|].
        apply Hbefore. lia.
      * intros q [<- | Hq]; auto.
Qed.

Lemma price_candidate_none (html : jsstring) (p : bool * regex) :
  price_candidate html p = None ->
  match rx_match (fst p) (snd p) html with
  | None => True
  | Some m =>
    negb (isNaN (parseFloat (replace_str (cap1 m) (js ",") (js "."))))
    && ltb zero (parseFloat (replace_str (cap1 m) (js ",") (js ".")))
    && ltb (parseFloat (replace_str (cap1 m) (js ",") (js "."))) billion = false
  end.
Proof.
  unfold price_candidate, cap1.
  destruct (rx_match p.1 p.2 html) as [m|]; [|trivial].
  destruct (negb _ && _ && _); [discriminate | reflexivity].
Qed.

(** C4. The regex price heuristic tries its ten labeled patterns (the
    generic price key, with and without the quotes around the amount, then
    currentPrice, salePrice, basePrice, productPrice, the data-price
    attribute, the itemprop price content attribute and the two
    framework-state markers) in that order. It returns the amount of the
    first pattern of the list whose first match in the document reads, a
    comma taken as the decimal point, as a number that is not NaN and lies
    strictly between 0 and 1e9; every pattern before it does not match or
    its first match reads outside that interval. It returns nothing exactly
    when every pattern does not match or reads outside the interval. The
    sample documents give each pattern, the bounds and the order at work. *)
Theorem extractPriceFromHtml_first_in_range (html : jsstring) :
  price_patterns
  = [ (true, keyed (js "price"));
      (false, seqs [Char dq; lit (js "price"); Char dq; star space; Char 58;
                    star space; amount]);
      (true, keyed (js "currentPrice"));
      (true, keyed (js "salePrice"));
      (true, keyed (js "basePrice"));
      (true, keyed (js "productPrice"));
      (true, seqs [lit (js "data-price="); quote; amount; quote]);
      (true, seqs [lit (jsq "itemprop=`price`"); plus space; lit (js "content=");
                   quote; amount; quote]);
      (true, seqs [lit (js "__NEXT_DATA__"); lazy_star any; keyed (js "price")]);
      (true, seqs [alts [lit (js "__NUXT__"); lit (js "__INITIAL_STATE__");
                         lit (jsq "`product`")];
                   star space; one_of (js ":}"); lazy_star any; keyed (js "price")]) ]
  /\ match extractPriceFromHtml html with
     | Some n =>
       (exists (i : nat) (p : bool * regex) (m : rmatch),
           nth_error price_patterns i = Some p
           /\ rx_match (fst p) (snd p) html = Some m
           /\ n = parseFloat (replace_str (cap1 m) (js ",") (js "."))
           /\ forall (j : nat) (q : bool * regex),
               (j < i)%nat -> nth_error price_patterns j = Some q ->
               match rx_match (fst q) (snd q) html with
               | None => True
               | Some m' =>
                 negb (isNaN (parseFloat (replace_str (cap1 m') (js ",") (js "."))))
                 && ltb zero (parseFloat (replace_str (cap1 m') (js ",") (js ".")))
                 && ltb (parseFloat (replace_str (cap1 m') (js ",") (js "."))) billion
                 = false
               end)
       /\ isNaN n = false /\ is_finite n = true
       /\ ltb zero n = true /\ ltb n billion = true
     | None =>
       forall p, In p price_patterns ->
                 match rx_match (fst p) (snd p) html with
                 | None => True
                 | Some m =>
                   negb (isNaN (parseFloat (replace_str (cap1 m) (js ",") (js "."))))
                   && ltb zero (parseFloat (replace_str (cap1 m) (js ",") (js ".")))
                   && ltb (parseFloat (replace_str (cap1 m) (js ",") (js "."))) billion
                   = false
                 end
     end
  /\ Forall (fun s => extractPriceFromHtml (fst s) = snd s) price_samples.
Proof.
  split; [reflexivity|]. split.
  - unfold extractPriceFromHtml.
    pose proof (first_price_first html price_patterns) as H.
    destruct (first_price html price_patterns) as [n|].
    + destruct H as (i & p & Hi & Hp & Hbefore).
      pose proof (price_candidate_range _ _ _ Hp) as (Hnan & H0 & H9).
      apply price_candidate_match in Hp as (m & Hm & Hn & _).
      split.
      * exists i, p, m. repeat split; try assumption.
        intros j q Hj Hq. apply price_candidate_none, (Hbefore j q Hj Hq).
      * repeat split; try assumption. apply range_is_finite; assumption.
    + intros p Hp. apply price_candidate_none, H, Hp.
  - unfold price_samples. repeat constructor; vm_compute; reflexivity.
Qed.

(** The priority at work: a price key that holds 0 is passed over and the
    currentPrice key gives the price. *)
Example price_passes_over_zero :
  extractPriceFromHtml (jsq "{`price`:0, `currentPrice`:`7`}") = Some (of_Z 7).
Proof. vm_compute. reflexivity. Qed.

(** *** Currency normalization *)

(** C8, as stated, fails: the document scanner given the symbol ₸ as its
    input text reports no currency. *)
Lemma scanner_does_not_keep_symbols :
  ~ (forall s : jsstring, In s Spec.symbols ->
       wish_currency (VStr s) = Returned (VStr s)
       /\ extractCurrencyFromHtml s = Some s).
Proof.
  intros H. destruct (H (js "₸")) as [_ Hs].
  - vm_compute. tauto.
  - vm_compute in Hs. discriminate Hs.
Qed.

(** C8, amended. The currency map of the wish-text analyzer is idempotent
    on the closed set: each of ₽, Br, $, €, ₸ as the currency of an answer
    comes out as that same symbol. The document scanner keeps Br when Br is
    its input text, and reports no currency for ₸, which its token pattern
    does not list. *)
Theorem wish_currency_keeps_symbols :
  Forall (fun s => wish_currency (VStr s) = Returned (VStr s)) Spec.symbols
  /\ extractCurrencyFromHtml (js "Br") = Some (js "Br")
  /\ extractCurrencyFromHtml (js "₸") = None.
Proof. vm_compute. repeat constructor. Qed.

(** *** The span between braces *)

Lemma star_any_longest (k : mstate -> option mstate) (fuel : nat) :
  forall (s : jsstring) (prev : option N) (caps : list (nat * jsstring)),
    (List.length s < fuel)%nat ->
    rep_loop (exec false any) true k fuel 0 None (MState prev s caps)
    = try_longest k prev s caps.
Proof.
  induction fuel as [|fuel IH]; intros s prev caps Hlen; [lia|].
  destruct s as [|x s']; simpl.
  - reflexivity.
  - replace (Nat.eqb (List.length s') (S (List.length s'))) with false
      by (symmetry; apply Nat.eqb_neq; lia).
    rewrite IH by (simpl in Hlen; lia). reflexivity.
Qed.

Lemma upto_last_prefix (c : N) (s p : jsstring) :
  Spec.upto_last c s = Some p -> exists r, s = p ++ r.
Proof.
  revert p. induction s as [|x s IH]; simpl; intros p; [discriminate|].
  destruct (Spec.upto_last c s) as [q|].
  - intros [= <-]. destruct (IH q eq_refl) as [r ->]. now exists r.
  - destruct (x =? c)%N; [|discriminate]. intros [= <-]. now exists s.
Qed.

Lemma longest_to_close_brace (s : jsstring) :
  forall (prev : option N) (caps : list (nat * jsstring)),
    try_longest close_brace prev s caps
    = match Spec.upto_last 125 s with
      | Some p => Some (MState (Some 125%N) (skipn (List.length p) s) caps)
      | None => None
      end.
Proof.
  induction s as [|x s IH]; intros prev caps; [reflexivity|].
  cbn [try_longest Spec.upto_last]. rewrite IH.
  destruct (Spec.upto_last 125 s) as [p|]; [reflexivity|].
  unfold close_brace. cbn [orelse exec ms_rest ms_caps char_eq].
  rewrite (N.eqb_sym 125 x).
  destruct (x =? 125)%N eqn:Hx; [|reflexivity].
  apply N.eqb_eq in Hx. subst x. reflexivity.
Qed.

Lemma exec_braces (prev : option N) (s : jsstring) :
  exec false re_braces (MState prev s []) Some
  = match s with
    | x :: s' =>
      if (x =? 123)%N then
        match Spec.upto_last 125 s' with
        | Some p => Some (MState (Some 125%N) (skipn (List.length p) s') [])
        | None => None
        end
      else None
    | [] => None
    end.
Proof.
  destruct s as [|x s']; [reflexivity|].
  unfold re_braces, seqs, star. cbn [fold_right exec ms_rest ms_caps char_eq].
  rewrite N.eqb_sym. destruct (x =? 123)%N; [|reflexivity].
  cbn [ms_rest Nat.add].
  rewrite (star_any_longest _ _ s' (Some x) []) by lia.
  apply longest_to_close_brace.
Qed.

Lemma search_unfold (ic : bool) (r : regex) (prev : option N) (s : jsstring) (pos : nat) :
  search ic r prev s pos
  = match exec ic r (MState prev s []) Some with
    | Some st' =>
      Some (RMatch pos (consumed (MState prev s []) st') (ms_caps st') (ms_rest st'))
    | None =>
      match s with
      | [] => None
      | c :: s' => search ic r (Some c) s' (S pos)
      end
    end.
Proof. destruct s; reflexivity. Qed.

Lemma search_braces_none (s : jsstring) :
  forall (prev : option N) (pos : nat),
    Spec.upto_last 125 s = None -> search false re_braces prev s pos = None.
Proof.
  induction s as [|x s IH]; intros prev pos H; rewrite search_unfold, exec_braces.
  - reflexivity.
  - cbn [Spec.upto_last] in H.
    destruct (Spec.upto_last 125 s) as [p|] eqn:Hs; [discriminate|].
    destruct (x =? 123)%N; apply IH; reflexivity.
Qed.

Lemma search_braces (s : jsstring) :
  forall (prev : option N) (pos : nat),
    option_map m_text (search false re_braces prev s pos) = Spec.widest_brace_span s.
Proof.
  unfold Spec.widest_brace_span.
  induction s as [|x s IH]; intros prev pos; rewrite search_unfold, exec_braces.
  - reflexivity.
  - cbn [Spec.from_first]. destruct (x =? 123)%N eqn:Hx.
    + apply N.eqb_eq in Hx. subst x.
      destruct (Spec.upto_last 125 s) as [p|] eqn:Hp.
      * destruct (upto_last_prefix _ _ _ Hp) as [r ->].
        cbn [option_map m_text]. unfold consumed. cbn [ms_rest].
        rewrite drop_app_length.
        replace (List.length (123%N :: p ++ r) - List.length r)%nat
          with (S (List.length p)) by (cbn [List.length]; rewrite length_app; lia).
        cbn [firstn]. now rewrite take_app_length.
      * rewrite search_braces_none by exact Hp. reflexivity.
    + apply IH.
Qed.

(** The pattern of the program cuts out the span from the first opening
    brace to the last closing brace after it. *)
Lemma match_braces_widest (t : jsstring) :
  option_map m_text (rx_match false re_braces t) = Spec.widest_brace_span t.
Proof. apply search_braces. Qed.

(** *** Tests with literal patterns *)

Lemma exec_lit (ic : bool) (p : jsstring) :
  forall st : mstate,
    is_some (exec ic (lit p) st Some) = prefix_eq ic p (ms_rest st).
Proof.
  induction p as [|c p IH]; intros st.
  - destruct (ms_rest st); reflexivity.
  - change (lit (c :: p)) with (Seq (Char c) (lit p)). cbn [exec prefix_eq].
    destruct (ms_rest st) as [|x t]; [reflexivity|].
    destruct (char_eq ic c x); [|reflexivity].
    rewrite IH. reflexivity.
Qed.

Lemma search_some (ic : bool) (r : regex) (s : jsstring) :
  forall (prev : option N) (pos : nat),
    is_some (search ic r prev s pos)
    = is_some (exec ic r (MState prev s []) Some)
      || match s with
         | [] => false
         | c :: s' => is_some (search ic r (Some c) s' (S pos))
         end.
Proof.
  intros prev pos. rewrite search_unfold.
  destruct (exec ic r _ Some); [reflexivity|]. destruct s; reflexivity.
Qed.

Lemma rx_test_is_some (ic : bool) (r : regex) (s : jsstring) :
  rx_test ic r s = is_some (search ic r None s 0).
Proof. unfold rx_test, rx_match. destruct (search _ _ _ _ _); reflexivity. Qed.

Lemma prefix_eq_upper (p s : jsstring) :
  prefix_eq true p s = starts_with (map upper p) (map upper s).
Proof.
  revert s. induction p as [|c p IH]; intros [|x s]; try reflexivity.
  cbn [prefix_eq map starts_with char_eq]. now rewrite IH.
Qed.

Lemma search_lit (p s : jsstring) :
  forall (prev : option N) (pos : nat),
    is_some (search true (lit p) prev s pos) = holds s p.
Proof.
  unfold holds. induction s as [|x s IH]; intros prev pos; rewrite search_some, exec_lit.
  - cbn [ms_rest map includes]. rewrite prefix_eq_upper, !orb_false_r. reflexivity.
  - cbn [ms_rest map includes]. rewrite prefix_eq_upper, IH. reflexivity.
Qed.

(** A literal pattern without regard to case is found in a text when the
    upper-case text includes the upper-case literal. *)
Lemma rx_test_lit (p s : jsstring) : rx_test true (lit p) s = holds s p.
Proof. rewrite rx_test_is_some. apply search_lit. Qed.

Lemma search_alt (ic : bool) (a b : regex) (s : jsstring) :
  forall (prev : option N) (pos : nat),
    is_some (search ic (Alt a b) prev s pos)
    = is_some (search ic a prev s pos) || is_some (search ic b prev s pos).
Proof.
  induction s as [|x s IH]; intros prev pos;
    rewrite (search_some ic (Alt a b)), (search_some ic a), (search_some ic b);
    cbn [exec]; destruct (exec ic a _ Some), (exec ic b _ Some); cbn [orelse is_some orb];
    rewrite ?IH, ?orb_true_r; try reflexivity.
Qed.

(** A choice is found in a text when one of its alternatives is. *)
Lemma rx_test_alt (ic : bool) (a b : regex) (s : jsstring) :
  rx_test ic (Alt a b) s = rx_test ic a s || rx_test ic b s.
Proof. rewrite !rx_test_is_some. apply search_alt. Qed.

(** The currency scanner, said without the patterns of its tests. *)
Lemma extractCurrencyFromHtml_classifies (html : jsstring) :
  extractCurrencyFromHtml html
  = match rx_match true re_priceCurrency html with
    | Some m1 => Some (code_symbol (cap1 m1))
    | None =>
      match rx_match true re_currency_token html with
      | Some m2 => token_symbol (cap1 m2)
      | None => None
      end
    end.
Proof.
  unfold extractCurrencyFromHtml, code_symbol, token_symbol, cap1, alts.
  destruct (rx_match true re_priceCurrency html) as [m1|].
  - rewrite !rx_test_alt, !rx_test_lit.
    repeat match goal with
           | |- context [if ?b then _ else _] => destruct b; try reflexivity
           end.
  - destruct (rx_match true re_currency_token html) as [m2|]; [|reflexivity].
    rewrite !rx_test_alt, !rx_test_lit.
    repeat match goal with
           | |- context [if ?b then _ else _] => destruct b; try reflexivity
           end.
Qed.

(** *** The image analyzer *)

Lemma read_answer_unusable (content : jsval -> outcome jsval) (resp : fetch_result) :
  unusable content resp -> attempt (read_answer resp content) = None.
Proof.
  intros H. unfold attempt, read_answer, res_json, json_parse.
  destruct H as [ | body | body Hb | body data Hb Hc | body data t Hb Hc Ht
                | body data t Hb Hc Ht Hs | body data ts Hb Hc Hm
                | body data ts span Hb Hc Hm Hj
                | body data ts span p Hb Hc Hm Hj Hn ];
    try reflexivity; rewrite Hb; cbn [bind]; try rewrite Hc; cbn [bind];
    try reflexivity.
  - now rewrite Ht.
  - rewrite Ht. destruct t; try discriminate Hs; reflexivity.
  - destruct ts as [|c ts']; [reflexivity|]. cbn [truthy match_braces bind].
    now rewrite match_braces_widest, Hm.
  - destruct ts as [|c ts']; [reflexivity|]. cbn [truthy match_braces bind].
    rewrite match_braces_widest, Hm. now rewrite Hj.
  - destruct ts as [|c ts']; [reflexivity|]. cbn [truthy match_braces bind].
    rewrite match_braces_widest, Hm. rewrite Hj. cbn [bind].
    unfold vision_record. now rewrite Hn.
Qed.

(** The list of failures is complete: a call that gives no record is
    unusable in one of the listed ways. *)
Lemma no_record_is_unusable (content : jsval -> outcome jsval) (resp : fetch_result) :
  attempt (read_answer resp content) = None -> unusable content resp.
Proof.
  destruct resp as [|[|] body]; [constructor | | constructor].
  unfold attempt, read_answer, res_json, json_parse.
  destruct (JSON_parse body) as [data|] eqn:Hb; [|intros _; now apply body_not_json].
  cbn [bind].
  destruct (content data) as [t|] eqn:Hc; [|intros _; eapply content_raises; eauto].
  cbn [bind].
  destruct (truthy t) eqn:Ht; [|intros _; eapply content_empty; eauto].
  destruct t as [| | b | x | ts | l | fs | k];
    try (intros _; eapply content_not_text; eauto; reflexivity).
  cbn [match_braces bind]. rewrite match_braces_widest.
  destruct (Spec.widest_brace_span ts) as [span|] eqn:Hm;
    [|intros _; eapply no_braces; eauto].
  destruct (JSON_parse span) as [p|] eqn:Hj; [|intros _; eapply answer_not_json; eauto].
  cbn [bind]. unfold vision_record.
  destruct (has_text (get p (js "name"))) as [named|] eqn:Hn;
    [discriminate | intros _; eapply name_not_printable; eauto].
Qed.

(** C9. When no vision provider credential is configured, and likewise
    when the call of every configured provider fails or comes back with
    nothing usable, the image analyzer returns the record with the name
    N/A and null price, currency and size; and it never raises an error. *)
Theorem analyzeImage_unknown_when_no_provider_answers
        (fetch : request -> fetch_result) (env : Env) (imageBase64 : jsstring) :
  (is_set (GROQ_API_KEY env) = false -> is_set (OPENROUTER_API_KEY env) = false ->
   is_set (GEMINI_API_KEY env) = false ->
   analyzeImage fetch env imageBase64 = Returned unknown)
  /\ ((is_set (GROQ_API_KEY env) = true ->
       unusable choices_content (fetch (groq_request env imageBase64))) ->
      (is_set (OPENROUTER_API_KEY env) = true ->
       unusable choices_content (fetch (openrouter_request env imageBase64))) ->
      (is_set (GEMINI_API_KEY env) = true ->
       unusable candidates_text (fetch (gemini_request env imageBase64))) ->
      analyzeImage fetch env imageBase64 = Returned unknown)
  /\ (exists r, analyzeImage fetch env imageBase64 = Returned r)
  /\ (name unknown = VStr (js "N/A") /\ price unknown = VNull
      /\ currency unknown = VNull /\ size unknown = VNull).
Proof.
  unfold analyzeImage, groq_vision, openrouter_vision, gemini_vision.
  repeat split.
  - intros Hg Ho Hm. rewrite Hg, Ho, Hm.
    destruct (negb _); reflexivity.
  - intros Hg Ho Hm.
    destruct (negb _); [reflexivity|].
    destruct (is_set (GROQ_API_KEY env));
      [rewrite (read_answer_unusable _ _ (Hg eq_refl))|];
      (destruct (is_set (OPENROUTER_API_KEY env));
       [rewrite (read_answer_unusable _ _ (Ho eq_refl))|]);
      (destruct (is_set (GEMINI_API_KEY env));
       [rewrite (read_answer_unusable _ _ (Hm eq_refl))|]);
      reflexivity.
  - destruct (negb _); [eexists; reflexivity|].
    repeat match goal with
           | |- context [match ?x with Some _ => _ | None => _ end] =>
             destruct x; [eexists; reflexivity|]
           end.
    eexists; reflexivity.
Qed.

Lemma analyzeImage_unknown_when_no_provider_answers_witness :
  analyzeImage (fun _ => FetchError)
    {| OPENROUTER_API_KEY := None; GROQ_API_KEY := None; GEMINI_API_KEY := None |}
    (js "aGVsbG8=") = Returned unknown
  /\ analyzeImage (fun _ => Response false [])
       {| OPENROUTER_API_KEY := Some (js ""); GROQ_API_KEY := Some (js "gsk_1");
          GEMINI_API_KEY := None |}
       (js "aGVsbG8=") = Returned unknown.
Proof.
  split.
  - destruct (analyzeImage_unknown_when_no_provider_answers (fun _ => FetchError)
                {| OPENROUTER_API_KEY := None; GROQ_API_KEY := None;
                   GEMINI_API_KEY := None |} (js "aGVsbG8=")) as [H _].
    apply H; reflexivity.
  - destruct (analyzeImage_unknown_when_no_provider_answers (fun _ => Response false [])
                {| OPENROUTER_API_KEY := Some (js ""); GROQ_API_KEY := Some (js "gsk_1");
                   GEMINI_API_KEY := None |} (js "aGVsbG8=")) as [_ [H _]].
    apply H.
    + intros _. apply bad_status.
    + intros Hset. vm_compute in Hset. discriminate Hset.
    + intros Hset. vm_compute in Hset. discriminate Hset.
Defined.

(** *** The wish-text analyzer and the reply of the provider *)

Ltac split_match H :=
  repeat match type of H with
         | match ?x with _ => _ end = Some _ => destruct x eqn:?; try discriminate H
         end.

Lemma pmembers_object (fuel : nat) :
  forall (s : jsstring) (acc : list (jsstring * jsval)) (v : jsval) (r : jsstring),
    pmembers fuel s acc = Some (v, r) -> exists fs, v = VObj fs.
Proof.
  induction fuel as [|f IH]; intros s acc v r H; [discriminate H|].
  cbn [pmembers] in H.
  split_match H; first [eapply IH, H | injection H as <- _; eauto].
Qed.

(** What parses from a text that opens with a brace is an object. *)
Lemma JSON_parse_brace_object (s : jsstring) (v : jsval) :
  JSON_parse (123%N :: s) = Some v -> exists fs, v = VObj fs.
Proof.
  unfold JSON_parse. intros H.
  destruct (pvalue _ _) as [[w r]|] eqn:Hv; [|discriminate H].
  destruct (skip_ws r); [|discriminate H]. injection H as <-.
  cbn [pvalue skip_ws is_ws N.eqb Pos.eqb orb] in Hv.
  split_match Hv; first [eapply pmembers_object, Hv | injection Hv as <- _; eauto].
Qed.

Lemma widest_brace_span_opens (t span : jsstring) :
  Spec.widest_brace_span t = Some span -> exists s, span = 123%N :: s.
Proof.
  unfold Spec.widest_brace_span. destruct (Spec.from_first 123 t) as [s|]; [|discriminate].
  destruct (Spec.upto_last 125 s) as [p|]; [|discriminate].
  intros [= <-]. eauto.
Qed.

(** *** The first balanced span and the span that is parsed *)

Lemma neutral_nil : neutral [].
Proof. intros d acc r _. reflexivity. Qed.

Lemma neutral_app (u v : jsstring) : neutral u -> neutral v -> neutral (u ++ v).
Proof.
  intros Hu Hv d acc r Hd. rewrite <- app_assoc, Hu, Hv by exact Hd.
  now rewrite rev_app_distr, <- app_assoc.
Qed.

Lemma neutral_plain (c : N) : plain c -> neutral [c].
Proof.
  intros (H1 & H2 & H3) d acc r Hd. cbn [app rev Spec.balanced_end].
  apply N.eqb_neq in H1, H2, H3. unfold dq. now rewrite H1, H2, H3.
Qed.

Lemma neutral_plains (w : jsstring) : Forall plain w -> neutral w.
Proof.
  induction 1 as [|c w Hc _ IH]; [apply neutral_nil|].
  change (c :: w) with ([c] ++ w). apply neutral_app; [apply neutral_plain, Hc | exact IH].
Qed.

Lemma neutral_object (w : jsstring) : neutral w -> neutral (123 :: w ++ [125]).
Proof.
  intros Hw d acc r Hd. cbn [app Spec.balanced_end].
  change (123 =? dq) with false. cbn [N.eqb Pos.eqb].
  rewrite <- app_assoc, Hw by lia. cbn [app Spec.balanced_end].
  change (125 =? dq) with false. cbn [N.eqb Pos.eqb].
  destruct d as [|d]; [lia|]. cbn [Nat.pred].
  cbn [rev]. rewrite rev_app_distr. cbn [rev app]. now rewrite <- !app_assoc.
Qed.

Lemma neutral_string (b : jsstring) : string_body b -> neutral (34 :: b ++ [34]).
Proof.
  intros Hb d acc r Hd. cbn [app Spec.balanced_end].
  change (34 =? dq) with true. cbv iota.
  rewrite <- app_assoc. cbn [app]. rewrite Hb.
  cbn [rev]. rewrite rev_app_distr. cbn [rev app]. now rewrite <- !app_assoc.
Qed.

Lemma pstring_other (c : N) (t acc : jsstring) :
  c <> 34 -> c <> 92 ->
  pstring (c :: t) acc
  = if c <? 32 then None else if c =? 92 then None else pstring t (c :: acc).
Proof.
  intros H34 H92. destruct c as [|p]; [reflexivity|].
  do 7 (try (destruct p as [p|p|]; try reflexivity)); congruence.
Qed.

Lemma pstring_escape (e : N) (t acc : jsstring) :
  e <> 117 ->
  pstring (92 :: e :: t) acc
  = match
      (if e =? 34 then Some 34 else if e =? 92 then Some 92
       else if e =? 47 then Some 47 else if e =? 98 then Some 8
       else if e =? 102 then Some 12 else if e =? 110 then Some 10
       else if e =? 114 then Some 13 else if e =? 116 then Some 9 else None)
    with
    | Some c => pstring t (c :: acc)
    | None => None
    end.
Proof.
  intros H. destruct e as [|p]; [reflexivity|].
  do 7 (try (destruct p as [p|p|]; try reflexivity)); congruence.
Qed.

Ltac N_bools :=
  repeat match goal with
         | H : (_ && _) = true |- _ => apply andb_true_iff in H as [? ?]
         | H : (_ || _) = false |- _ => apply orb_false_iff in H as [? ?]
         | H : (_ <=? _) = true |- _ => apply N.leb_le in H
         | H : (_ <=? _) = false |- _ => apply N.leb_gt in H
         | H : (_ =? _) = true |- _ => apply N.eqb_eq in H
         | H : (_ =? _) = false |- _ => apply N.eqb_neq in H
         end.

Lemma hex_not_special (a x : N) : hex_val a = Some x -> a <> 34 /\ a <> 92.
Proof.
  unfold hex_val.
  repeat match goal with
         | |- context [if ?b then _ else _] =>
           let E := fresh "E" in destruct b eqn:E
         end; try discriminate; intros _; N_bools; lia.
Qed.

Lemma string_body_nil : string_body [].
Proof. intros d acc r. reflexivity. Qed.

Lemma string_body_char (c : N) (b : jsstring) :
  c <> 34 -> c <> 92 -> string_body b -> string_body (c :: b).
Proof.
  intros H34 H92 Hb d acc r. cbn [app Spec.balanced_end].
  apply N.eqb_neq in H34, H92. unfold dq. rewrite H34, H92. cbn [negb].
  rewrite Hb. cbn [rev]. now rewrite <- app_assoc.
Qed.

Lemma string_body_escape (e : N) (b : jsstring) :
  string_body b -> string_body (92 :: e :: b).
Proof.
  intros Hb d acc r. cbn [app Spec.balanced_end N.eqb Pos.eqb].
  rewrite Hb. cbn [rev]. now rewrite <- !app_assoc.
Qed.

Lemma pstring_body (n : nat) :
  forall (t acc str r : jsstring),
    (List.length t <= n)%nat ->
    pstring t acc = Some (str, r) ->
    exists b, t = b ++ 34 :: r /\ string_body b.
Proof.
  induction n as [|n IH]; intros t acc str r Hn H.
  - destruct t; [discriminate H | simpl in Hn; lia].
  - destruct t as [|c t1]; [discriminate H|].
    destruct (N.eq_dec c 34) as [-> | H34].
    + cbn [pstring] in H. injection H as _ <-. exists []. split; [reflexivity|].
      apply string_body_nil.
    + destruct (N.eq_dec c 92) as [-> | H92].
      * destruct t1 as [|e t2]; [discriminate H|].
        destruct (N.eq_dec e 117) as [-> | H117].
        -- destruct t2 as [|a [|b [|c [|d t3]]]]; try discriminate H.
           cbn [pstring] in H.
           destruct (hex_val a) as [x|] eqn:Ha; [|discriminate H].
           destruct (hex_val b) as [y|] eqn:Hb; [|discriminate H].
           destruct (hex_val c) as [z|] eqn:Hc; [|discriminate H].
           destruct (hex_val d) as [w|] eqn:Hd; [|discriminate H].
           apply IH in H as (b' & -> & Hb'); [|simpl in Hn |- *; lia].
           exists (92 :: 117 :: a :: b :: c :: d :: b'). split; [reflexivity|].
           apply string_body_escape.
           apply hex_not_special in Ha as [? ?], Hb as [? ?], Hc as [? ?], Hd as [? ?].
           repeat apply string_body_char; assumption.
        -- rewrite pstring_escape in H by exact H117.
           destruct (if e =? 34 then _ else _) as [c'|]; [|discriminate H].
           apply IH in H as (b' & -> & Hb'); [|simpl in Hn |- *; lia].
           exists (92 :: e :: b'). split; [reflexivity|].
           apply string_body_escape, Hb'.
      * rewrite pstring_other in H by assumption.
        destruct (c <? 32); [discriminate H|].
        destruct (c =? 92); [discriminate H|].
        apply IH in H as (b' & -> & Hb'); [|simpl in Hn |- *; lia].
        exists (c :: b'). split; [reflexivity|].
        apply string_body_char; assumption.
Qed.

Lemma skip_ws_split (s : jsstring) :
  exists ws, s = ws ++ skip_ws s /\ Forall plain ws.
Proof.
  induction s as [|c s (ws & IH & Hws)]; [exists []; split; [reflexivity | constructor]|].
  cbn [skip_ws]. destruct (is_ws c) eqn:Hc.
  - exists (c :: ws). split; [simpl; now rewrite <- IH|].
    constructor; [|exact Hws]. unfold is_ws in Hc.
    repeat (apply orb_true_iff in Hc as [Hc | Hc]); apply N.eqb_eq in Hc; subst c;
      repeat split; discriminate.
  - exists []. split; [reflexivity | constructor].
Qed.

Lemma span_digits_split (s : jsstring) :
  forall ds r, span_digits s = (ds, r) -> s = ds ++ r /\ Forall plain ds.
Proof.
  induction s as [|c s IH]; intros ds r; cbn [span_digits].
  - intros [= <- <-]. split; [reflexivity | constructor].
  - destruct (is_digit c) eqn:Hc.
    + destruct (span_digits s) as [d r'] eqn:Hs. intros [= <- <-].
      destruct (IH d r' eq_refl) as [-> Hd]. split; [reflexivity|].
      constructor; [|exact Hd]. unfold is_digit in Hc. N_bools.
      repeat split; lia.
    + intros [= <- <-]. split; [reflexivity | constructor].
Qed.

Lemma minus_head {A} (s : jsstring) (f : jsstring -> A) (g : A) :
  match s with 45 :: t => f t | _ => g end
  = match s with c :: t => if c =? 45 then f t else g | [] => g end.
Proof.
  destruct s as [|[|p] t]; try reflexivity.
  do 7 (try (destruct p as [p|p|]; try reflexivity)).
Qed.

Lemma dot_head {A} (s : jsstring) (f : jsstring -> A) (g : A) :
  match s with 46 :: t => f t | _ => g end
  = match s with c :: t => if c =? 46 then f t else g | [] => g end.
Proof.
  destruct s as [|[|p] t]; try reflexivity.
  do 7 (try (destruct p as [p|p|]; try reflexivity)).
Qed.

Lemma sign_head {A} (s : jsstring) (f h : jsstring -> A) (g : A) :
  match s with 45 :: u => f u | 43 :: u => h u | _ => g end
  = match s with
    | c :: u => if c =? 45 then f u else if c =? 43 then h u else g
    | [] => g
    end.
Proof.
  destruct s as [|[|p] t]; try reflexivity.
  do 7 (try (destruct p as [p|p|]; try reflexivity)).
Qed.

Lemma frac_plain (s2 fp s3 : jsstring) :
  match s2 with
  | c :: t => if c =? 46
              then let '(fp, r0) := span_digits t in
                   match fp with [] => None | _ => Some (fp, r0) end
              else Some ([], s2)
  | [] => Some ([], s2)
  end = Some (fp, s3) ->
  exists w, s2 = w ++ s3 /\ Forall plain w.
Proof.
  destruct s2 as [|c t].
  - intros [= <- <-]. exists []. split; [reflexivity | constructor].
  - destruct (c =? 46) eqn:Hc.
    + apply N.eqb_eq in Hc. subst c.
      destruct (span_digits t) as [fp' r0] eqn:Hfp.
      apply span_digits_split in Hfp as [-> Hfpp].
      destruct fp'; [discriminate|]. intros [= <- <-].
      exists (46 :: n :: fp'). split; [reflexivity|].
      constructor; [repeat split; discriminate | exact Hfpp].
    + intros [= <- <-]. exists []. split; [reflexivity | constructor].
Qed.

Lemma expo_plain (s3 : jsstring) (ex : Z) (s4 : jsstring) :
  match s3 with
  | c :: t =>
    if (c =? 101) || (c =? 69) then
      let '(eneg, t') := match t with
                         | c2 :: u => if c2 =? 45 then (true, u)
                                      else if c2 =? 43 then (false, u) else (false, t)
                         | [] => (false, t)
                         end in
      let '(ed, r0) := span_digits t' in
      match ed with
      | [] => None
      | _ => Some ((if eneg then - digits_value ed else digits_value ed)%Z, r0)
      end
    else Some (0%Z, s3)
  | [] => Some (0%Z, s3)
  end = Some (ex, s4) ->
  exists w, s3 = w ++ s4 /\ Forall plain w.
Proof.
  destruct s3 as [|c t].
  - intros [= <- <-]. exists []. split; [reflexivity | constructor].
  - destruct ((c =? 101) || (c =? 69)) eqn:Hc.
    + assert (Hc' : plain c).
      { apply orb_true_iff in Hc as [Hc | Hc]; apply N.eqb_eq in Hc; subst c;
          repeat split; discriminate. }
      destruct t as [|c2 u].
      * cbn [span_digits]. discriminate.
      * destruct (c2 =? 45) eqn:H45; [|destruct (c2 =? 43) eqn:H43].
        -- apply N.eqb_eq in H45. subst c2.
           destruct (span_digits u) as [ed r0] eqn:He.
           apply span_digits_split in He as [-> Hed].
           destruct ed; [discriminate|]. intros [= <- <-].
           exists (c :: 45 :: n :: ed). split; [reflexivity|].
           constructor; [exact Hc'|]. constructor; [repeat split; discriminate|].
           exact Hed.
        -- apply N.eqb_eq in H43. subst c2.
           destruct (span_digits u) as [ed r0] eqn:He.
           apply span_digits_split in He as [-> Hed].
           destruct ed; [discriminate|]. intros [= <- <-].
           exists (c :: 43 :: n :: ed). split; [reflexivity|].
           constructor; [exact Hc'|]. constructor; [repeat split; discriminate|].
           exact Hed.
        -- destruct (span_digits (c2 :: u)) as [ed r0] eqn:He.
           apply span_digits_split in He as [He Hed].
           destruct ed; [discriminate|]. intros [= <- <-].
           exists (c :: n :: ed). split; [simpl; now rewrite He|].
           constructor; [exact Hc' | exact Hed].
    + intros [= <- <-]. exists []. split; [reflexivity | constructor].
Qed.

Lemma pnumber_plain (s : jsstring) (v : jsval) (r : jsstring) :
  pnumber s = Some (v, r) -> exists w, s = w ++ r /\ Forall plain w.
Proof.
  unfold pnumber.
  rewrite (minus_head s (fun t => (true, t)) (false, s)).
  assert (Hsign : exists sg s1 pre,
             match s with c :: t => if c =? 45 then (true, t) else (false, s)
                        | [] => (false, s) end = (sg, s1)
             /\ s = pre ++ s1 /\ Forall plain pre).
  { destruct s as [|c t]; [exists false, [], []; repeat split; constructor|].
    destruct (c =? 45) eqn:Hc.
    - apply N.eqb_eq in Hc. subst c. exists true, t, [45].
      repeat split; try discriminate. constructor; [|constructor].
      repeat split; discriminate.
    - exists false, (c :: t), []. repeat split. constructor. }
  destruct Hsign as (sg & s1 & pre & -> & -> & Hpre).
  destruct (span_digits s1) as [ip s2] eqn:Hip.
  apply span_digits_split in Hip as [-> Hipp].
  destruct ip as [|d0 ip']; [discriminate|].
  destruct ((d0 =? 48) && negb (Nat.eqb (List.length ip') 0)); [discriminate|].
  rewrite (dot_head s2 (fun t => let '(fp, r0) := span_digits t in
                                 match fp with [] => None | _ => Some (fp, r0) end)
             (Some ([], s2))).
  match goal with
  | |- match ?f with Some _ => _ | None => _ end = _ -> _ =>
    destruct f as [[fp s3]|] eqn:Hf; [|discriminate]
  end.
  apply frac_plain in Hf as (wf & -> & Hwf).
  match goal with
  | |- match ?f with Some _ => _ | None => _ end = _ -> _ =>
    assert (Hx : forall ex s4, f = Some (ex, s4) ->
                               exists w, s3 = w ++ s4 /\ Forall plain w);
      [|destruct f as [[ex s4]|] eqn:He; [|discriminate]]
  end.
  { intros ex s4 He. apply (expo_plain s3 ex s4). rewrite <- He.
    destruct s3 as [|c t]; [reflexivity|].
    destruct ((c =? 101) || (c =? 69)); [|reflexivity].
    now rewrite (sign_head t (fun u => (true, u)) (fun u => (false, u)) (false, t)). }
  destruct (Hx ex s4 eq_refl) as (we & -> & Hwe).
  intros [= <- <-].
  exists (pre ++ (d0 :: ip') ++ wf ++ we). split.
  - now rewrite <- !app_assoc.
  - repeat (apply Forall_app; split); assumption.
Qed.

Ltac by_bits :=
  let p := fresh "p" in
  intros;
  match goal with
  | |- context [match ?s with [] => _ | _ :: _ => _ end] =>
    destruct s as [|[|p] ?]; try reflexivity;
    do 7 (try (destruct p as [p|p|]; try reflexivity))
  end.

Lemma brace_head {A} (s : jsstring) (f : jsstring -> A) (g : A) :
  match s with 125 :: t => f t | _ => g end
  = match s with c :: t => if c =? 125 then f t else g | [] => g end.
Proof. by_bits. Qed.

Lemma bracket_head {A} (s : jsstring) (f : jsstring -> A) (g : A) :
  match s with 93 :: t => f t | _ => g end
  = match s with c :: t => if c =? 93 then f t else g | [] => g end.
Proof. by_bits. Qed.

Lemma quote_head {A} (s : jsstring) (f : jsstring -> A) (g : A) :
  match s with 34 :: t => f t | _ => g end
  = match s with c :: t => if c =? 34 then f t else g | [] => g end.
Proof. by_bits. Qed.

Lemma colon_head {A} (s : jsstring) (f : jsstring -> A) (g : A) :
  match s with 58 :: t => f t | _ => g end
  = match s with c :: t => if c =? 58 then f t else g | [] => g end.
Proof. by_bits. Qed.

Lemma comma_bracket_head {A} (s : jsstring) (f h : jsstring -> A) (g : A) :
  match s with 44 :: t => f t | 93 :: t => h t | _ => g end
  = match s with
    | c :: t => if c =? 44 then f t else if c =? 93 then h t else g
    | [] => g
    end.
Proof. by_bits. Qed.

Lemma comma_brace_head {A} (s : jsstring) (f h : jsstring -> A) (g : A) :
  match s with 44 :: t => f t | 125 :: t => h t | _ => g end
  = match s with
    | c :: t => if c =? 44 then f t else if c =? 125 then h t else g
    | [] => g
    end.
Proof. by_bits. Qed.

Lemma pvalue_step (f : nat) (s : jsstring) :
  pvalue (S f) s
  = match skip_ws s with
    | c :: t =>
      if c =? 123 then
        match skip_ws t with
        | c2 :: t' => if c2 =? 125 then Some (VObj [], t') else pmembers f t []
        | [] => pmembers f t []
        end
      else if c =? 91 then
        match skip_ws t with
        | c2 :: t' => if c2 =? 93 then Some (VArr [], t') else pelements f t []
        | [] => pelements f t []
        end
      else if c =? 34 then
        match pstring t [] with
        | Some (str, r) => Some (VStr str, r)
        | None => None
        end
      else if starts_with (js "true") (c :: t) then Some (VBool true, skipn 4 (c :: t))
      else if starts_with (js "false") (c :: t) then Some (VBool false, skipn 5 (c :: t))
      else if starts_with (js "null") (c :: t) then Some (VNull, skipn 4 (c :: t))
      else pnumber (c :: t)
    | [] => None
    end.
Proof.
  cbn [pvalue]. destruct (skip_ws s) as [|[|p] t]; try reflexivity.
  do 7 (try (destruct p as [p|p|]; try reflexivity));
    first [ apply (brace_head (skip_ws t) (fun t' => Some (VObj [], t'))
                     (pmembers f t []))
          | apply (bracket_head (skip_ws t) (fun t' => Some (VArr [], t'))
                     (pelements f t [])) ].
Qed.

Lemma pelements_step (f : nat) (s : jsstring) (acc : list jsval) :
  pelements (S f) s acc
  = match pvalue f s with
    | Some (v, r) =>
      match skip_ws r with
      | c :: r' => if c =? 44 then pelements f r' (v :: acc)
                   else if c =? 93 then Some (VArr (rev (v :: acc)), r') else None
      | [] => None
      end
    | None => None
    end.
Proof.
  cbn [pelements]. destruct (pvalue f s) as [[v r]|]; [|reflexivity].
  apply (comma_bracket_head (skip_ws r) (fun r' => pelements f r' (v :: acc))
           (fun r' => Some (VArr (rev (v :: acc)), r')) None).
Qed.

Lemma pmembers_step (f : nat) (s : jsstring) (acc : list (jsstring * jsval)) :
  pmembers (S f) s acc
  = match skip_ws s with
    | c :: t =>
      if c =? 34 then
        match pstring t [] with
        | Some (key, r) =>
          match skip_ws r with
          | c1 :: r1 =>
            if c1 =? 58 then
              match pvalue f r1 with
              | Some (v, r2) =>
                match skip_ws r2 with
                | c2 :: r3 =>
                  if c2 =? 44 then pmembers f r3 ((key, v) :: acc)
                  else if c2 =? 125 then Some (VObj (rev ((key, v) :: acc)), r3)
                  else None
                | [] => None
                end
              | None => None
              end
            else None
          | [] => None
          end
        | None => None
        end
      else None
    | [] => None
    end.
Proof.
  cbn [pmembers].
  rewrite (quote_head (skip_ws s)
             (fun t => match pstring t [] with
                       | Some (key, r) =>
                         match skip_ws r with
                         | 58 :: r1 =>
                           match pvalue f r1 with
                           | Some (v, r2) =>
                             match skip_ws r2 with
                             | 44 :: r3 => pmembers f r3 ((key, v) :: acc)
                             | 125 :: r3 => Some (VObj (rev ((key, v) :: acc)), r3)
                             | _ => None
                             end
                           | None => None
                           end
                         | _ => None
                         end
                       | None => None
                       end) None).
  destruct (skip_ws s) as [|c t]; [reflexivity|].
  destruct (c =? 34); [|reflexivity].
  destruct (pstring t []) as [[key r]|]; [|reflexivity].
  rewrite (colon_head (skip_ws r)
             (fun r1 => match pvalue f r1 with
                        | Some (v, r2) =>
                          match skip_ws r2 with
                          | 44 :: r3 => pmembers f r3 ((key, v) :: acc)
                          | 125 :: r3 => Some (VObj (rev ((key, v) :: acc)), r3)
                          | _ => None
                          end
                        | None => None
                        end) None).
  destruct (skip_ws r) as [|c1 r1]; [reflexivity|].
  destruct (c1 =? 58); [|reflexivity].
  destruct (pvalue f r1) as [[v r2]|]; [|reflexivity].
  apply (comma_brace_head (skip_ws r2) (fun r3 => pmembers f r3 ((key, v) :: acc))
           (fun r3 => Some (VObj (rev ((key, v) :: acc)), r3)) None).
Qed.

Lemma starts_with_split (p s : jsstring) :
  starts_with p s = true -> s = p ++ skipn (List.length p) s.
Proof.
  revert s. induction p as [|x p IH]; intros s; [reflexivity|].
  destruct s as [|y s]; [discriminate|]. cbn [starts_with].
  intros H. apply andb_true_iff in H as [Hx Hp]. apply N.eqb_eq in Hx. subst y.
  cbn [List.length skipn app]. f_equal. apply IH, Hp.
Qed.

Lemma literal_plain (p s : jsstring) :
  Forall plain p -> starts_with p s = true ->
  exists w, s = w ++ skipn (List.length p) s /\ neutral w.
Proof.
  intros Hp H. exists p. split; [apply starts_with_split, H | apply neutral_plains, Hp].
Qed.

Lemma plain_of (c : N) : (c =? 34) = false -> (c =? 123) = false -> (c =? 125) = false ->
                         plain c.
Proof. intros H1 H2 H3. N_bools. repeat split; assumption. Qed.

(** What the parser consumes leaves the count of braces as it is. *)
Lemma parsed_is_neutral (fuel : nat) :
  (forall s v r, pvalue fuel s = Some (v, r) -> exists w, s = w ++ r /\ neutral w)
  /\ (forall s acc v r, pelements fuel s acc = Some (v, r) ->
                        exists w, s = w ++ r /\ neutral w)
  /\ (forall s acc v r, pmembers fuel s acc = Some (v, r) ->
                        exists w, s = w ++ 125 :: r /\ neutral w).
Proof.
  induction fuel as [|f (IHv & IHe & IHm)]; [repeat split; discriminate|].
  split; [|split].
  - intros s v r. rewrite pvalue_step.
    destruct (skip_ws_split s) as (ws & Hs & Hws). apply neutral_plains in Hws.
    destruct (skip_ws s) as [|c t]; [discriminate|].
    destruct (c =? 123) eqn:H123.
    { apply N.eqb_eq in H123. subst c.
      destruct (skip_ws_split t) as (ws2 & Ht & Hws2). apply neutral_plains in Hws2.
      assert (Hmem : pmembers f t [] = Some (v, r) ->
                     exists w, s = w ++ r /\ neutral w).
      { intros H. apply IHm in H as (w & -> & Hw).
        exists (ws ++ (123 :: w ++ [125])). split.
        - rewrite Hs. rewrite <- !app_assoc. cbn [app]. now rewrite <- app_assoc.
        - apply neutral_app; [exact Hws | apply neutral_object, Hw]. }
      destruct (skip_ws t) as [|c2 t']; [exact Hmem|].
      destruct (c2 =? 125) eqn:H125; [|exact Hmem].
      apply N.eqb_eq in H125. subst c2. intros [= <- <-].
      exists (ws ++ (123 :: ws2 ++ [125])). split.
      - rewrite Hs, Ht. rewrite <- !app_assoc. cbn [app]. now rewrite <- app_assoc.
      - apply neutral_app; [exact Hws | apply neutral_object, Hws2]. }
    destruct (c =? 91) eqn:H91.
    { apply N.eqb_eq in H91. subst c.
      destruct (skip_ws_split t) as (ws2 & Ht & Hws2). apply neutral_plains in Hws2.
      assert (H91p : neutral [91]) by (apply neutral_plain; repeat split; discriminate).
      assert (Hel : pelements f t [] = Some (v, r) ->
                    exists w, s = w ++ r /\ neutral w).
      { intros H. apply IHe in H as (w & -> & Hw).
        exists (ws ++ [91] ++ w). split.
        - rewrite Hs. now rewrite <- !app_assoc.
        - repeat apply neutral_app; assumption. }
      destruct (skip_ws t) as [|c2 t']; [exact Hel|].
      destruct (c2 =? 93) eqn:H93; [|exact Hel].
      apply N.eqb_eq in H93. subst c2. intros [= <- <-].
      exists (ws ++ [91] ++ ws2 ++ [93]). split.
      - rewrite Hs, Ht. now rewrite <- !app_assoc.
      - repeat apply neutral_app; try assumption.
        apply neutral_plain; repeat split; discriminate. }
    destruct (c =? 34) eqn:H34.
    { apply N.eqb_eq in H34. subst c.
      destruct (pstring t []) as [[str r']|] eqn:Hp; [|discriminate].
      intros [= <- <-].
      apply (pstring_body (List.length t)) in Hp as (b & -> & Hb); [|lia].
      exists (ws ++ (34 :: b ++ [34])). split.
      - rewrite Hs. rewrite <- !app_assoc. cbn [app]. now rewrite <- app_assoc.
      - apply neutral_app; [exact Hws | apply neutral_string, Hb]. }
    assert (Hlit : forall (p : jsstring) (n : nat),
               Forall plain p -> List.length p = n ->
               starts_with p (c :: t) = true ->
               exists w, s = w ++ skipn n (c :: t) /\ neutral w).
    { intros p n Hp <- H. apply (literal_plain p) in H as (w & Hw & Hn); [|exact Hp].
      exists (ws ++ w). split; [rewrite Hs; rewrite Hw at 1; now rewrite app_assoc|].
      apply neutral_app; assumption. }
    destruct (starts_with (js "true") (c :: t)) eqn:Ht.
    { intros [= <- <-]. apply (Hlit (js "true") 4%nat); [|reflexivity | exact Ht].
      repeat constructor; discriminate. }
    destruct (starts_with (js "false") (c :: t)) eqn:Hf.
    { intros [= <- <-]. apply (Hlit (js "false") 5%nat); [|reflexivity | exact Hf].
      repeat constructor; discriminate. }
    destruct (starts_with (js "null") (c :: t)) eqn:Hn.
    { intros [= <- <-]. apply (Hlit (js "null") 4%nat); [|reflexivity | exact Hn].
      repeat constructor; discriminate. }
    intros H. apply pnumber_plain in H as (w & Hw & Hp).
    exists (ws ++ w). split; [rewrite Hs, Hw; now rewrite app_assoc|].
    apply neutral_app; [exact Hws | apply neutral_plains, Hp].
  - intros s acc v r. rewrite pelements_step.
    destruct (pvalue f s) as [[v1 r1]|] eqn:Hv; [|discriminate].
    apply IHv in Hv as (w1 & -> & Hw1).
    destruct (skip_ws_split r1) as (ws & Hr1 & Hws). apply neutral_plains in Hws.
    destruct (skip_ws r1) as [|c r']; [discriminate|].
    destruct (c =? 44) eqn:H44.
    { apply N.eqb_eq in H44. subst c. intros H.
      apply IHe in H as (w2 & -> & Hw2).
      exists (w1 ++ ws ++ [44] ++ w2). split.
      - rewrite Hr1. now rewrite <- !app_assoc.
      - repeat apply neutral_app; try assumption.
        apply neutral_plain; repeat split; discriminate. }
    destruct (c =? 93) eqn:H93; [|discriminate].
    apply N.eqb_eq in H93. subst c. intros [= <- <-].
    exists (w1 ++ ws ++ [93]). split.
    + rewrite Hr1. now rewrite <- !app_assoc.
    + repeat apply neutral_app; try assumption.
      apply neutral_plain; repeat split; discriminate.
  - intros s acc v r. rewrite pmembers_step.
    destruct (skip_ws_split s) as (ws & Hs & Hws). apply neutral_plains in Hws.
    destruct (skip_ws s) as [|c t]; [discriminate|].
    destruct (c =? 34) eqn:H34; [|discriminate].
    apply N.eqb_eq in H34. subst c.
    destruct (pstring t []) as [[key rk]|] eqn:Hp; [|discriminate].
    apply (pstring_body (List.length t)) in Hp as (b & -> & Hb); [|lia].
    apply neutral_string in Hb.
    destruct (skip_ws_split rk) as (ws1 & Hrk & Hws1). apply neutral_plains in Hws1.
    destruct (skip_ws rk) as [|c1 r1]; [discriminate|].
    destruct (c1 =? 58) eqn:H58; [|discriminate].
    apply N.eqb_eq in H58. subst c1.
    destruct (pvalue f r1) as [[v1 r2]|] eqn:Hv; [|discriminate].
    apply IHv in Hv as (wv & -> & Hwv).
    destruct (skip_ws_split r2) as (ws2 & Hr2 & Hws2). apply neutral_plains in Hws2.
    assert (H58p : neutral [58]) by (apply neutral_plain; repeat split; discriminate).
    destruct (skip_ws r2) as [|c2 r3]; [discriminate|].
    destruct (c2 =? 44) eqn:H44.
    { apply N.eqb_eq in H44. subst c2. intros H.
      apply IHm in H as (w3 & -> & Hw3).
      exists (ws ++ (34 :: b ++ [34]) ++ ws1 ++ [58] ++ wv ++ ws2 ++ [44] ++ w3). split.
      - rewrite Hs, Hrk, Hr2. rewrite <- !app_assoc. cbn [app].
        now rewrite <- !app_assoc.
      - repeat apply neutral_app; try assumption.
        apply neutral_plain; repeat split; discriminate. }
    destruct (c2 =? 125) eqn:H125; [|discriminate].
    apply N.eqb_eq in H125. subst c2. intros [= <- <-].
    exists (ws ++ (34 :: b ++ [34]) ++ ws1 ++ [58] ++ wv ++ ws2). split.
    + rewrite Hs, Hrk, Hr2. rewrite <- !app_assoc. cbn [app].
      now rewrite <- !app_assoc.
    + repeat apply neutral_app; assumption.
Qed.

Lemma first_balanced_from_first (t : jsstring) :
  Spec.first_balanced_span t
  = match Spec.from_first 123 t with
    | Some s => Spec.balanced_end s 1 false [123]
    | None => None
    end.
Proof.
  induction t as [|c t IH]; [reflexivity|].
  cbn [Spec.first_balanced_span Spec.from_first]. destruct (c =? 123) eqn:Hc; [|exact IH].
  apply N.eqb_eq in Hc. now subst c.
Qed.

Lemma upto_last_ends (c : N) (s p : jsstring) :
  Spec.upto_last c s = Some p -> exists q, p = q ++ [c].
Proof.
  revert p. induction s as [|x s IH]; cbn [Spec.upto_last]; intros p; [discriminate|].
  destruct (Spec.upto_last c s) as [p'|].
  - intros [= <-]. destruct (IH p' eq_refl) as [q ->]. now exists (x :: q).
  - destruct (x =? c) eqn:Hx; [|discriminate]. apply N.eqb_eq in Hx. subst x.
    intros [= <-]. now exists [].
Qed.

Lemma skip_ws_nil (r : jsstring) :
  skip_ws r = [] -> Forall (fun c => is_ws c = true) r.
Proof.
  induction r as [|c r IH]; [constructor|]. cbn [skip_ws].
  destruct (is_ws c) eqn:Hc; [|discriminate]. intros H. constructor; [exact Hc | apply IH, H].
Qed.

(** Nothing but white space can follow a closing brace that ends the text. *)
Lemma nothing_after_last_brace (q w r : jsstring) :
  q ++ [125] = w ++ 125 :: r -> skip_ws r = [] -> r = [].
Proof.
  intros Heq Hws. apply skip_ws_nil in Hws.
  destruct (rev r) as [|x r'] eqn:Hr.
  - apply (f_equal (@rev N)) in Hr. now rewrite rev_involutive in Hr.
  - exfalso. apply (f_equal (@rev N)) in Heq.
    rewrite rev_app_distr in Heq. cbn [rev app] in Heq.
    rewrite rev_app_distr in Heq. cbn [rev] in Heq. rewrite <- app_assoc in Heq.
    rewrite Hr in Heq. cbn [app] in Heq. injection Heq as Hx _. subst x.
    assert (Hin : In 125 r) by (apply in_rev; rewrite Hr; now left).
    rewrite List.Forall_forall in Hws. specialize (Hws _ Hin). discriminate Hws.
Qed.

(** When the text from the first opening brace to the last closing brace
    is JSON, it is the first balanced span. *)
Lemma widest_json_is_first_balanced (t span : jsstring) (v : jsval) :
  Spec.widest_brace_span t = Some span -> JSON_parse span = Some v ->
  Spec.first_balanced_span t = Some span.
Proof.
  unfold Spec.widest_brace_span. rewrite first_balanced_from_first.
  destruct (Spec.from_first 123 t) as [s|]; [|discriminate].
  destruct (Spec.upto_last 125 s) as [p|] eqn:Hp; [|discriminate].
  intros [= <-].
  destruct (upto_last_prefix _ _ _ Hp) as [rest ->].
  destruct (upto_last_ends _ _ _ Hp) as [q Hq].
  unfold JSON_parse.
  destruct (pvalue _ _) as [[v' r]|] eqn:Hv; [|discriminate].
  destruct (skip_ws r) eqn:Hr; [|discriminate]. intros _.
  rewrite pvalue_step in Hv. cbn [skip_ws is_ws N.eqb Pos.eqb orb] in Hv.
  assert (Hinner : exists inner, p = inner ++ [125] /\ neutral inner).
  { assert (Hmem : pmembers (2 * List.length (123 :: p)) p [] = Some (v', r) ->
                   exists inner, p = inner ++ [125] /\ neutral inner).
    { intros H. apply (proj2 (proj2 (parsed_is_neutral _))) in H as (w & Hw & Hn).
      rewrite Hq in Hw. rewrite (nothing_after_last_brace q w r Hw Hr) in Hw.
      exists w. split; [now rewrite Hq | exact Hn]. }
    destruct (skip_ws_split p) as (ws & Hsp & Hws).
    destruct (skip_ws p) as [|c2 t'] eqn:Hsk; [apply Hmem, Hv|].
    destruct (c2 =? 125) eqn:H125; [|apply Hmem, Hv].
    apply N.eqb_eq in H125. subst c2. injection Hv as _ <-.
    rewrite Hq in Hsp. rewrite (nothing_after_last_brace q ws t' Hsp Hr) in Hsp.
    exists ws. split; [now rewrite Hq | apply neutral_plains, Hws]. }
  destruct Hinner as (inner & -> & Hn).
  rewrite <- app_assoc. cbn [app]. rewrite Hn by lia.
  cbn [Spec.balanced_end]. change (125 =? dq) with false. cbn [N.eqb Pos.eqb].
  f_equal. cbn [rev]. rewrite rev_app_distr. cbn [rev app]. now rewrite rev_involutive.
Qed.

(** What the analyzer does with a reply whose answer is a text, said with
    the span from the first opening brace to the last closing brace. *)
Lemma analyzeWishText_on_text (fetch : request -> fetch_result) (env : Env)
      (text body : jsstring) (data : jsval) (t : jsstring) :
  is_set (env_or (OPENROUTER_API_KEY env) (GROQ_API_KEY env)) = true ->
  fetch (wish_request env text) = Response true body ->
  JSON_parse body = Some data ->
  choices_content data = Returned (VStr t) ->
  analyzeWishText fetch env text
  = match Spec.widest_brace_span t with
    | Some span =>
      match JSON_parse span with
      | Some parsed =>
        try_catch (wish_record text parsed) (Returned (analyzeWishTextFallback text))
      | None => Returned (analyzeWishTextFallback text)
      end
    | None => Returned (analyzeWishTextFallback text)
    end.
Proof.
  intros Hkey Hfetch Hbody Hcontent.
  unfold analyzeWishText. rewrite Hkey, Hfetch. cbn [negb].
  unfold res_json. rewrite Hbody. cbn [bind]. rewrite Hcontent. cbn [bind].
  destruct t as [|c t'].
  - reflexivity.
  - cbn [truthy negb match_braces bind]. rewrite match_braces_widest.
    destruct (Spec.widest_brace_span (c :: t')) as [span|]; [|reflexivity].
    unfold json_parse. destruct (JSON_parse span) as [parsed|]; reflexivity.
Qed.



(** The converse is not promised: a reply whose first balanced span is
    valid JSON, followed by a remark in braces, gets the fallback, the text
    up to the last closing brace not being JSON. *)
Example valid_first_span_before_later_braces :
  let t := jsq
    "{`name`:`кеды Nike`,`price`:null,`currency`:null,`size`:`42`} (формат: {name, price, currency, size})" in
  Spec.first_balanced_span t
  = Some (jsq "{`name`:`кеды Nike`,`price`:null,`currency`:null,`size`:`42`}")
  /\ is_some (JSON_parse (jsq "{`name`:`кеды Nike`,`price`:null,`currency`:null,`size`:`42`}"))
     = true
  /\ analyzeWishText
       (fun _ => Response true (jsq
          "{`choices`:[{`message`:{`content`:`{\`name\`:\`кеды Nike\`,\`price\`:null,\`currency\`:null,\`size\`:\`42\`} (формат: {name, price, currency, size})`}}]}"))
       {| OPENROUTER_API_KEY := None; GROQ_API_KEY := Some (js "gsk_1");
          GEMINI_API_KEY := None |}
       (js "хочу кеды Nike 42")
     = Returned (analyzeWishTextFallback (js "хочу кеды Nike 42")).
Proof. vm_compute. repeat split; reflexivity. Qed.


(** *** The attribute resolver *)

Lemma number_or_null_typed (v : jsval) :
  number_or_null v = VNull \/ exists x, number_or_null v = VNum x /\ isNaN x = false.
Proof.
  destruct v; simpl; try (now left).
  destruct (isNaN x) eqn:H; [now left | right; eauto].
Qed.

(** The resolver calls the script blob scanner before it resolves any
    field and does not guard the call: what the scanner raises, the
    resolver raises. *)
Lemma parse_raises_with_scanner
      (new_URL : jsstring -> jsstring -> option jsstring) (html url : jsstring) :
  extractFromJsonBlobs html url = Thrown -> parse new_URL html url = Thrown.
Proof. intros H. unfold parse. cbv zeta. now rewrite H. Qed.

(** The page endpoint answers a failure of the resolver with the 502
    reply that carries the address asked for. *)
Lemma get_page_resolver_raises
      (new_URL : jsstring -> jsstring -> option jsstring)
      (render : jsstring -> outcome jsstring) (visit : jsstring -> image_visit)
      (u html : jsstring) :
  starts_with (js "https://") u = true ->
  render u = Returned html ->
  parse new_URL html u = Thrown ->
  get_page new_URL render visit (VStr u) = Page502 u.
Proof.
  intros Hs Hr Hp. unfold get_page. destruct u as [|c u]; [discriminate Hs|].
  rewrite Hs, Hr. cbn [negb bind]. rewrite Hp. reflexivity.
Qed.




(* ===================================================================== *)
(** ** Further properties                                                *)
(* ===================================================================== *)

(** *** The shape of the fallback record *)

Lemma wish_not_empty : wish <> [].
Proof. vm_compute. discriminate. Qed.

Lemma fallback_fields (text : jsstring) :
  let r := analyzeWishTextFallback text in
  (exists s, name r = VStr s /\ s <> [])
  /\ ((price r = VNull /\ currency r = VNull)
      \/ (exists x, price r = VNum x /\ isNaN x = false /\ ltb x billion = true)
         /\ (currency r = VNull
             \/ exists c, currency r = VStr c /\ In c [js "₽"; js "Br"; js "$"; js "€"]))
  /\ (size r = VNull \/ exists s, size r = VStr s)
  /\ link r = VUndef /\ image r = VUndef.
Proof.
  unfold analyzeWishTextFallback.
  set (s0 := match trim (rx_replace true re_intent text []) with
             | [] => wish
             | c :: t => c :: t
             end).
  set (pc := match rx_match true priceRe s0 with Some _ => _ | None => _ end).
  assert (Hpc : (pc.1.2 = VNull /\ pc.2 = VNull)
                \/ (exists x, pc.1.2 = VNum x /\ isNaN x = false /\ ltb x billion = true)
                   /\ (pc.2 = VNull
                       \/ exists c, pc.2 = VStr c
                                    /\ In c [js "₽"; js "Br"; js "$"; js "€"])).
  { unfold pc. destruct (rx_match true priceRe s0) as [m|]; [|left; split; reflexivity].
    set (num := parseFloat _).
    destruct (negb (isNaN num) && ltb num billion) eqn:Hguard;
      [|left; split; reflexivity].
    apply andb_true_iff in Hguard as [Hnan Hlt]. apply negb_true_iff in Hnan.
    right. split; [exists num; auto|]. cbn [snd].
    repeat match goal with
           | |- context [if ?b then _ else _] => destruct b
           end;
      first [ left; reflexivity
            | right; eexists; split; [reflexivity|]; simpl; tauto ]. }
  destruct pc as [[s price_] currency_]. cbn [fst snd] in Hpc. cbv zeta.
  cbn [name price currency size link image].
  split.
  - destruct s as [|c t]; eexists; split; try reflexivity;
      [apply wish_not_empty | discriminate].
  - split; [exact Hpc|]. split; [|split; reflexivity].
    destruct (rx_match true sizeRe s) as [sm|]; [|now left].
    repeat match goal with
           | |- context [if ?b then _ else _] => destruct b
           end; eauto.
Qed.

(** X1. Whatever the text, the deterministic fallback returns a name that
    is a string and not empty; its price is null or a number that is not
    NaN and is below 1e9; its currency is null or one of ₽, Br, $, €, and
    is set only together with a price; its size is null or a string. *)
Theorem fallback_record_shape (text : jsstring) :
  let r := analyzeWishTextFallback text in
  (exists s, name r = VStr s /\ s <> [])
  /\ ((price r = VNull /\ currency r = VNull)
      \/ (exists x, price r = VNum x /\ isNaN x = false /\ ltb x billion = true)
         /\ (currency r = VNull
             \/ exists c, currency r = VStr c /\ In c [js "₽"; js "Br"; js "$"; js "€"]))
  /\ (size r = VNull \/ exists s, size r = VStr s)
  /\ link r = VUndef /\ image r = VUndef.
Proof. exact (fallback_fields text). Qed.

Lemma fallback_named_and_typed (text : jsstring) :
  named_and_typed (analyzeWishTextFallback text).
Proof.
  destruct (fallback_fields text) as ((s & Hn & Hs) & Hp & Hz & _).
  split; [|split].
  - rewrite Hn. destruct s; [contradiction | reflexivity].
  - destruct Hp as [[-> _] | [(x & -> & Hx & _) _]]; eauto.
  - exact Hz.
Qed.

(** *** The wish-text analyzer and the network *)

(** X2. Without a credential the wish-text analyzer returns the
    deterministic fallback whatever the network would answer. With one, a
    response that is not a success also gives the fallback, while a
    rejected request, a body that is not JSON and a null body make the
    analyzer itself raise: no fallback is returned then. *)
Theorem analyzeWishText_failures (fetch : request -> fetch_result) (env : Env)
        (text : jsstring) :
  (is_set (env_or (OPENROUTER_API_KEY env) (GROQ_API_KEY env)) = false ->
   analyzeWishText fetch env text = Returned (analyzeWishTextFallback text))
  /\ (is_set (env_or (OPENROUTER_API_KEY env) (GROQ_API_KEY env)) = true ->
      (forall body, fetch (wish_request env text) = Response false body ->
         analyzeWishText fetch env text = Returned (analyzeWishTextFallback text))
      /\ (fetch (wish_request env text) = FetchError ->
          analyzeWishText fetch env text = Thrown)
      /\ (forall body, fetch (wish_request env text) = Response true body ->
            JSON_parse body = None \/ JSON_parse body = Some VNull ->
            analyzeWishText fetch env text = Thrown)).
Proof.
  unfold analyzeWishText. split.
  - intros ->. reflexivity.
  - intros ->. cbn [negb]. split; [|split].
    + intros body ->. reflexivity.
    + intros ->. reflexivity.
    + intros body -> [H | H]; unfold res_json; rewrite H; reflexivity.
Qed.

Lemma analyzeWishText_failures_witness :
  analyzeWishText (fun _ => FetchError)
    {| OPENROUTER_API_KEY := None; GROQ_API_KEY := Some []; GEMINI_API_KEY := None |}
    (js "хочу кеды") = Returned (analyzeWishTextFallback (js "хочу кеды"))
  /\ analyzeWishText (fun _ => FetchError)
       {| OPENROUTER_API_KEY := Some (js "sk-or-1"); GROQ_API_KEY := None;
          GEMINI_API_KEY := None |}
       (js "хочу кеды") = Thrown
  /\ analyzeWishText (fun _ => Response true (js "<html>502</html>"))
       {| OPENROUTER_API_KEY := Some (js "sk-or-1"); GROQ_API_KEY := None;
          GEMINI_API_KEY := None |}
       (js "хочу кеды") = Thrown.
Proof.
  split; [|split].
  - apply (analyzeWishText_failures (fun _ => FetchError)
             {| OPENROUTER_API_KEY := None; GROQ_API_KEY := Some [];
                GEMINI_API_KEY := None |} (js "хочу кеды")).
    reflexivity.
  - destruct (analyzeWishText_failures (fun _ => FetchError)
                {| OPENROUTER_API_KEY := Some (js "sk-or-1"); GROQ_API_KEY := None;
                   GEMINI_API_KEY := None |} (js "хочу кеды")) as [_ H].
    destruct (H eq_refl) as (_ & Hrej & _). apply Hrej. reflexivity.
  - destruct (analyzeWishText_failures (fun _ => Response true (js "<html>502</html>"))
                {| OPENROUTER_API_KEY := Some (js "sk-or-1"); GROQ_API_KEY := None;
                   GEMINI_API_KEY := None |} (js "хочу кеды")) as [_ H].
    destruct (H eq_refl) as (_ & _ & Hbody).
    apply (Hbody (js "<html>502</html>")); [reflexivity|].
    left. vm_compute. reflexivity.
Defined.

Lemma has_text_truthy (v : jsval) :
  has_text v = Returned true -> truthy v = true.
Proof. unfold has_text. destruct (truthy v); [reflexivity | discriminate]. Qed.

Lemma wish_record_shape (text : jsstring) (parsed : jsval) (r : AttributeRecord) :
  wish_record text parsed = Returned r -> named_and_typed r.
Proof.
  unfold wish_record. cbv zeta.
  destruct (has_text (get parsed (js "name"))) as [named|] eqn:Hn; [|discriminate].
  cbn [bind]. destruct (wish_currency _) as [cur|]; [|discriminate]. cbn [bind].
  intros [= <-]. split; [|split]; cbn [name price size].
  - destruct named; [apply has_text_truthy, Hn|].
    apply (fallback_named_and_typed text).
  - apply number_or_null_typed.
  - destruct (get parsed (js "size")); simpl; eauto.
Qed.

(** X3. Every record the wish-text analyzer returns, from the provider or
    from the fallback, has a name that is truthy (never null, never an
    empty string), a price that is null or a number that is not NaN, and a
    size that is null or a string. *)
Theorem analyzeWishText_record_shape (fetch : request -> fetch_result) (env : Env)
        (text : jsstring) (r : AttributeRecord) :
  analyzeWishText fetch env text = Returned r ->
  truthy (name r) = true
  /\ (price r = VNull \/ exists x, price r = VNum x /\ isNaN x = false)
  /\ (size r = VNull \/ exists s, size r = VStr s).
Proof.
  pose proof (fallback_named_and_typed text) as Hf.
  unfold analyzeWishText.
  destruct (negb _); [intros [= <-]; exact Hf|].
  destruct (fetch _) as [|[|] body]; [discriminate | | intros [= <-]; exact Hf].
  cbn [negb]. destruct (res_json body) as [data|]; [|discriminate]. cbn [bind].
  destruct (choices_content data) as [t|]; [|discriminate]. cbn [bind].
  destruct (negb (truthy t)); [intros [= <-]; exact Hf|].
  destruct (match_braces t) as [[m0|]|]; [| intros [= <-]; exact Hf | discriminate].
  cbn [bind]. destruct (json_parse m0) as [parsed|]; cbn [bind try_catch];
    [|intros [= <-]; exact Hf].
  destruct (wish_record text parsed) as [r'|] eqn:Hw; cbn [try_catch];
    intros [= <-]; [eapply wish_record_shape, Hw | exact Hf].
Qed.

Lemma analyzeWishText_record_shape_witness :
  truthy (VStr (js "кеды")) = true.
Proof.
  assert (E : analyzeWishText (fun _ => FetchError)
                {| OPENROUTER_API_KEY := None; GROQ_API_KEY := None;
                   GEMINI_API_KEY := None |} (js "хочу кеды")
              = Returned {| name := VStr (js "кеды"); price := VNull; currency := VNull;
                            size := VNull; link := VUndef; image := VUndef |})
    by (vm_compute; reflexivity).
  destruct (analyzeWishText_record_shape _ _ _ _ E) as [H _]. exact H.
Defined.

(** *** The image analyzer: order and shape *)

Lemma analyzeImage_first (fetch : request -> fetch_result) (env : Env)
      (imageBase64 : jsstring) :
  analyzeImage fetch env imageBase64
  = Returned
      match (if is_set (GROQ_API_KEY env)
             then attempt (groq_vision fetch env imageBase64) else None) with
      | Some r => r
      | None =>
        match (if is_set (OPENROUTER_API_KEY env)
               then attempt (openrouter_vision fetch env imageBase64) else None) with
        | Some r => r
        | None =>
          match (if is_set (GEMINI_API_KEY env)
                 then attempt (gemini_vision fetch env imageBase64) else None) with
          | Some r => r
          | None => unknown
          end
        end
      end.
Proof.
  unfold analyzeImage, env_or, is_set.
  destruct (GROQ_API_KEY env) as [[|c g]|], (OPENROUTER_API_KEY env) as [[|c' o]|],
    (GEMINI_API_KEY env) as [[|c'' m]|]; cbn [negb];
    repeat match goal with
           | |- context [match ?x with Some _ => _ | None => _ end] => destruct x
           end; reflexivity.
Qed.

(** X4. The vision providers are asked in the order Groq, OpenRouter,
    Gemini, and the first usable answer is the result: an answer of Groq
    is returned whatever the others would reply, an answer of OpenRouter
    when Groq is not configured or gave nothing, an answer of Gemini when
    neither of the first two is configured or gave anything. *)
Theorem analyzeImage_first_usable_answer
        (fetch fetch' : request -> fetch_result) (env : Env)
        (imageBase64 : jsstring) (r : AttributeRecord) :
  (is_set (GROQ_API_KEY env) = true ->
   fetch' (groq_request env imageBase64) = fetch (groq_request env imageBase64) ->
   attempt (groq_vision fetch env imageBase64) = Some r ->
   analyzeImage fetch' env imageBase64 = Returned r)
  /\ ((is_set (GROQ_API_KEY env) = false
       \/ attempt (groq_vision fetch env imageBase64) = None) ->
      is_set (OPENROUTER_API_KEY env) = true ->
      attempt (openrouter_vision fetch env imageBase64) = Some r ->
      analyzeImage fetch env imageBase64 = Returned r)
  /\ ((is_set (GROQ_API_KEY env) = false
       \/ attempt (groq_vision fetch env imageBase64) = None) ->
      (is_set (OPENROUTER_API_KEY env) = false
       \/ attempt (openrouter_vision fetch env imageBase64) = None) ->
      is_set (GEMINI_API_KEY env) = true ->
      attempt (gemini_vision fetch env imageBase64) = Some r ->
      analyzeImage fetch env imageBase64 = Returned r).
Proof.
  split; [|split].
  - intros Hg Hsame Hr. rewrite analyzeImage_first, Hg.
    unfold groq_vision in *. rewrite Hsame, Hr. reflexivity.
  - intros Hg Ho Hr. rewrite analyzeImage_first, Ho, Hr.
    destruct Hg as [-> | Hg]; [reflexivity|].
    rewrite Hg. destruct (is_set (GROQ_API_KEY env)); reflexivity.
  - intros Hg Ho Hm Hr. rewrite analyzeImage_first, Hm, Hr.
    assert (Hg' : (if is_set (GROQ_API_KEY env)
                   then attempt (groq_vision fetch env imageBase64) else None) = None)
      by (destruct Hg as [-> | ->]; [|destruct (is_set (GROQ_API_KEY env))]; reflexivity).
    assert (Ho' : (if is_set (OPENROUTER_API_KEY env)
                   then attempt (openrouter_vision fetch env imageBase64) else None) = None)
      by (destruct Ho as [-> | ->]; [|destruct (is_set (OPENROUTER_API_KEY env))];
          reflexivity).
    now rewrite Hg', Ho'.
Qed.

Lemma analyzeImage_first_usable_answer_witness :
  let answer := Response true (jsq
    "{`choices`:[{`message`:{`content`:`{\`name\`:\`Кеды\`,\`price\`:99,\`currency\`:\`BYN\`,\`size\`:null}`}}]}") in
  let env := {| OPENROUTER_API_KEY := Some (js "sk-or-1"); GROQ_API_KEY := Some (js "gsk_1");
                GEMINI_API_KEY := None |} in
  analyzeImage (fun rq => if str_eqb (req_url rq) groq_url then answer else FetchError)
    env (js "aGVsbG8=")
  = Returned {| name := VStr (js "Кеды"); price := VNum (of_Z 99);
                currency := VStr (js "BYN"); size := VNull;
                link := VUndef; image := VUndef |}.
Proof.
  intros answer env.
  destruct (analyzeImage_first_usable_answer
              (fun _ => answer)
              (fun rq => if str_eqb (req_url rq) groq_url then answer else FetchError)
              env (js "aGVsbG8=")
              {| name := VStr (js "Кеды"); price := VNum (of_Z 99);
                 currency := VStr (js "BYN"); size := VNull;
                 link := VUndef; image := VUndef |}) as [Hgroq _].
  apply Hgroq.
  - reflexivity.
  - vm_compute. reflexivity.
  - vm_compute. reflexivity.
Defined.

(** X5. A provider that is not configured is never asked: two networks
    that agree on the requests of the configured providers give the same
    result. *)
Theorem analyzeImage_ignores_unconfigured
        (fetch fetch' : request -> fetch_result) (env : Env) (imageBase64 : jsstring) :
  (is_set (GROQ_API_KEY env) = true ->
   fetch' (groq_request env imageBase64) = fetch (groq_request env imageBase64)) ->
  (is_set (OPENROUTER_API_KEY env) = true ->
   fetch' (openrouter_request env imageBase64)
   = fetch (openrouter_request env imageBase64)) ->
  (is_set (GEMINI_API_KEY env) = true ->
   fetch' (gemini_request env imageBase64) = fetch (gemini_request env imageBase64)) ->
  analyzeImage fetch' env imageBase64 = analyzeImage fetch env imageBase64.
Proof.
  intros Hg Ho Hm. rewrite !analyzeImage_first.
  unfold groq_vision, openrouter_vision, gemini_vision.
  destruct (is_set (GROQ_API_KEY env)); [rewrite (Hg eq_refl)|];
    (destruct (is_set (OPENROUTER_API_KEY env)); [rewrite (Ho eq_refl)|]);
    (destruct (is_set (GEMINI_API_KEY env)); [rewrite (Hm eq_refl)|]); reflexivity.
Qed.

Lemma analyzeImage_ignores_unconfigured_witness :
  analyzeImage (fun _ => Response true (js "{}"))
    {| OPENROUTER_API_KEY := None; GROQ_API_KEY := None; GEMINI_API_KEY := None |}
    (js "aGVsbG8=")
  = analyzeImage (fun _ => FetchError)
      {| OPENROUTER_API_KEY := None; GROQ_API_KEY := None; GEMINI_API_KEY := None |}
      (js "aGVsbG8=").
Proof.
  apply analyzeImage_ignores_unconfigured; intros H; vm_compute in H; discriminate H.
Defined.

Lemma vision_record_shape (p : jsval) (r : AttributeRecord) :
  vision_record p = Returned r ->
  named_and_typed r
  /\ (currency r = VNull \/ exists s, currency r = VStr s)
  /\ link r = VUndef /\ image r = VUndef.
Proof.
  unfold vision_record.
  destruct (has_text (get p (js "name"))) as [named|] eqn:Hn; [|discriminate].
  cbn [bind]. intros [= <-]. cbn [name price size currency link image].
  split; [split; [|split]|split; [|split; reflexivity]].
  - destruct named; [apply has_text_truthy, Hn | reflexivity].
  - apply number_or_null_typed.
  - destruct (get p (js "size")); simpl; eauto.
  - destruct (get p (js "currency")); simpl; eauto.
Qed.

Lemma read_answer_shape (resp : fetch_result) (content : jsval -> outcome jsval)
      (r : AttributeRecord) :
  attempt (read_answer resp content) = Some r ->
  named_and_typed r
  /\ (currency r = VNull \/ exists s, currency r = VStr s)
  /\ link r = VUndef /\ image r = VUndef.
Proof.
  unfold attempt, read_answer.
  destruct resp as [|[|] body]; try discriminate.
  destruct (res_json body) as [data|]; [|discriminate]. cbn [bind].
  destruct (content data) as [t|]; [|discriminate]. cbn [bind].
  destruct (truthy t); [|discriminate].
  destruct (match_braces t) as [[m0|]|]; try discriminate. cbn [bind].
  destruct (json_parse m0) as [p|]; [|discriminate]. cbn [bind].
  destruct (vision_record p) as [r'|] eqn:Hv; [|discriminate]. cbn [bind].
  intros [= <-]. eapply vision_record_shape, Hv.
Qed.

Lemma analyzeImage_shaped (fetch : request -> fetch_result) (env : Env)
        (imageBase64 : jsstring) :
  exists r, analyzeImage fetch env imageBase64 = Returned r
            /\ truthy (name r) = true
            /\ (price r = VNull \/ exists x, price r = VNum x /\ isNaN x = false)
            /\ (currency r = VNull \/ exists s, currency r = VStr s)
            /\ (size r = VNull \/ exists s, size r = VStr s)
            /\ link r = VUndef /\ image r = VUndef.
Proof.
  rewrite analyzeImage_first. eexists. split; [reflexivity|].
  assert (Hshape : forall r,
             (named_and_typed r
              /\ (currency r = VNull \/ exists s, currency r = VStr s)
              /\ link r = VUndef /\ image r = VUndef) ->
             truthy (name r) = true
             /\ (price r = VNull \/ exists x, price r = VNum x /\ isNaN x = false)
             /\ (currency r = VNull \/ exists s, currency r = VStr s)
             /\ (size r = VNull \/ exists s, size r = VStr s)
             /\ link r = VUndef /\ image r = VUndef)
    by (intros r ((Hn & Hp & Hs) & Hc & Hl & Hi); auto 10).
  unfold groq_vision, openrouter_vision, gemini_vision.
  repeat match goal with
         | |- context [if ?b then attempt ?a else None] =>
           let H := fresh "H" in
           destruct b; [destruct (attempt a) eqn:H;
                        [apply Hshape; eapply read_answer_shape, H|] |]
         end;
    (repeat split; simpl; auto).
Qed.

(** X6. The image analyzer always returns, and what it returns has a
    truthy name, a price that is null or a number that is not NaN, a
    currency and a size that are null or strings, and neither link nor
    image. *)
Theorem analyzeImage_record_shape (fetch : request -> fetch_result) (env : Env)
        (imageBase64 : jsstring) :
  exists r, analyzeImage fetch env imageBase64 = Returned r
            /\ truthy (name r) = true
            /\ (price r = VNull \/ exists x, price r = VNum x /\ isNaN x = false)
            /\ (currency r = VNull \/ exists s, currency r = VStr s)
            /\ (size r = VNull \/ exists s, size r = VStr s)
            /\ link r = VUndef /\ image r = VUndef.
Proof. apply analyzeImage_shaped. Qed.

(** *** The text store: timers, round trips, reuse of an id *)

Lemma str_eqb_eq (a b : jsstring) : str_eqb a b = true <-> a = b.
Proof.
  revert b. induction a as [|x a IH]; intros [|y b]; simpl; split;
    try discriminate; try reflexivity.
  - intros H. apply andb_true_iff in H as [Hx Hab].
    apply N.eqb_eq in Hx. apply IH in Hab. now subst.
  - intros [= -> ->]. rewrite N.eqb_refl. now apply IH.
Qed.

Lemma disarm_incl (t u : Z * list N) (ts : list (Z * list N)) :
  In u (disarm t ts) -> In u ts.
Proof.
  induction ts as [|v ts IH]; simpl; [tauto|].
  destruct (_ && _); simpl; tauto.
Qed.

Lemma disarm_other (t u : Z * list N) (ts : list (Z * list N)) :
  snd u <> snd t -> In u ts -> In u (disarm t ts).
Proof.
  intros Hne. induction ts as [|v ts IH]; simpl; [tauto|].
  intros [-> | Hin].
  - destruct (str_eqb (snd u) (snd t)) eqn:He.
    + apply str_eqb_eq in He. contradiction.
    + rewrite andb_false_r. now left.
  - destruct (_ && _); [exact Hin | right; apply IH, Hin].
Qed.

Lemma timers_cover_step fetch env (ev : event) (st : state) :
  enabled ev st -> timers_cover st -> timers_cover (fst (step fetch env ev st)).
Proof.
  unfold timers_cover.
  intros Hen [Hcov Hdue]. destruct ev as [dt | id t | id a | tm]; simpl in *.
  - split; [exact Hcov|]. intros t Ht. specialize (Hdue t Ht). lia.
  - unfold store_wish_text. destruct t; try (split; assumption).
    destruct (invalid_text (VStr s)); [split; assumption|]. simpl. split.
    + intros k e. rewrite lookup_insert. case_decide.
      * intros [= <-]. subst k. simpl. apply in_or_app. right. now left.
      * intros Hk. apply in_or_app. left. apply Hcov, Hk.
    + intros t Ht. apply in_app_or in Ht as [Ht | [<- | []]].
      * apply Hdue, Ht.
      * simpl. lia.
  - split; assumption.
  - split.
    + intros k e. rewrite lookup_delete. case_decide; [discriminate|].
      intros Hk. apply disarm_other; [simpl; congruence | apply Hcov, Hk].
    + intros t Ht. apply Hdue. eapply disarm_incl, Ht.
Qed.

(** X7. In every state the server can reach, each stored entry has its
    deleting timer armed and due exactly at the expiry of the entry, and no
    timer is due later than one time to live from now: no entry is left
    without a pending deletion. *)
Theorem every_entry_has_its_timer fetch env (st : state) :
  reachable fetch env st ->
  (forall (k : list N) (e : entry),
      wishTextStore st !! k = Some e ->
      In (expires e, k) (timers st) /\ (expires e <= now st + WISH_TEXT_TTL)%Z)
  /\ (forall t, In t (timers st) -> (fst t <= now st + WISH_TEXT_TTL)%Z).
Proof.
  intros Hr.
  assert (Hc : timers_cover st).
  { induction Hr as [| st ev _ IH Hen].
    - split; [intros k e; unfold init; simpl; rewrite lookup_empty; discriminate
             | intros t []].
    - apply timers_cover_step; assumption. }
  destruct Hc as [Hcov Hdue]. split; [|exact Hdue].
  intros k e Hk. split; [apply Hcov, Hk|]. apply (Hdue _ (Hcov k e Hk)).
Qed.

Lemma every_entry_has_its_timer_witness :
  In (600000%Z, js "k3x9q2ab")
     (timers (fst (step (fun _ => FetchError)
                        {| OPENROUTER_API_KEY := None; GROQ_API_KEY := None;
                           GEMINI_API_KEY := None |}
                        (Post (js "k3x9q2ab") (VStr (js "хочу кеды"))) init))).
Proof.
  pose (fetch := fun _ : request => FetchError).
  pose (env := {| OPENROUTER_API_KEY := None; GROQ_API_KEY := None;
                  GEMINI_API_KEY := None |}).
  destruct (every_entry_has_its_timer fetch env
              (fst (step fetch env (Post (js "k3x9q2ab") (VStr (js "хочу кеды"))) init))
              (reach_step fetch env init
                 (Post (js "k3x9q2ab") (VStr (js "хочу кеды")))
                 (reach_init fetch env) I)) as [Hcov _].
  apply (Hcov (js "k3x9q2ab") {| text := js "хочу кеды"; expires := 600000 |}).
  vm_compute. reflexivity.
Defined.

(** X8. Storing a valid text and looking its id up gives the text back,
    the reply to the store request carries the id, and the lookup of every
    other id answers as before. *)
Theorem store_then_lookup fetch env (id : jsstring) (s : jsstring) (st : state) :
  invalid_text (VStr s) = false ->
  let st' := fst (store_wish_text id (VStr s) st) in
  snd (store_wish_text id (VStr s) st) = Stored id
  /\ wish_text fetch env (VStr id) false st' = Text s
  /\ (forall (k : jsval) (a : bool),
         k <> VStr id -> wish_text fetch env k a st' = wish_text fetch env k a st).
Proof.
  intros Hv. unfold store_wish_text. rewrite Hv. cbn [fst snd].
  split; [reflexivity|]. split.
  - unfold wish_text. cbn [wishTextStore]. rewrite lookup_insert.
    case_decide; [reflexivity | congruence].
  - intros k a Hk. unfold wish_text. destruct k; try reflexivity.
    cbn [wishTextStore]. rewrite lookup_insert.
    case_decide; [subst; congruence | reflexivity].
Qed.

Lemma store_then_lookup_witness :
  wish_text (fun _ => FetchError)
    {| OPENROUTER_API_KEY := None; GROQ_API_KEY := None; GEMINI_API_KEY := None |}
    (VStr (js "k3x9q2ab")) false
    (fst (store_wish_text (js "k3x9q2ab") (VStr (js "хочу кеды")) init))
  = Text (js "хочу кеды").
Proof.
  apply (store_then_lookup (fun _ => FetchError)
           {| OPENROUTER_API_KEY := None; GROQ_API_KEY := None; GEMINI_API_KEY := None |}
           (js "k3x9q2ab") (js "хочу кеды") init).
  vm_compute. reflexivity.
Defined.

(** X9. When the timer of an id runs, the lookup of that id replies not
    found, whatever was stored under it; the lookup of every other id
    answers as before. *)
Theorem fire_deletes_only_its_entry fetch env (t : Z * list N) (st : state) :
  (forall a : bool, wish_text fetch env (VStr (snd t)) a (fire t st) = NotFound)
  /\ (forall (k : jsval) (a : bool),
         k <> VStr (snd t) ->
         wish_text fetch env k a (fire t st) = wish_text fetch env k a st).
Proof.
  split.
  - intros a. unfold wish_text, fire. cbn [wishTextStore].
    rewrite lookup_delete. case_decide; [reflexivity | congruence].
  - intros k a Hk. unfold wish_text, fire. destruct k; try reflexivity.
    cbn [wishTextStore]. rewrite lookup_delete.
    case_decide; [subst; congruence | reflexivity].
Qed.

Lemma fire_deletes_only_its_entry_witness :
  wish_text (fun _ => FetchError)
    {| OPENROUTER_API_KEY := None; GROQ_API_KEY := None; GEMINI_API_KEY := None |}
    (VStr (js "p0o9i8u7")) false
    (fire (600000%Z, js "k3x9q2ab")
       (fst (store_wish_text (js "p0o9i8u7") (VStr (js "хочу кеды")) init)))
  = Text (js "хочу кеды").
Proof.
  destruct (fire_deletes_only_its_entry (fun _ => FetchError)
              {| OPENROUTER_API_KEY := None; GROQ_API_KEY := None;
                 GEMINI_API_KEY := None |}
              (600000%Z, js "k3x9q2ab")
              (fst (store_wish_text (js "p0o9i8u7") (VStr (js "хочу кеды")) init)))
    as [_ Hother].
  rewrite Hother; [vm_compute; reflexivity | vm_compute; discriminate].
Defined.

(** X10. An id that is drawn again while its first text is still stored
    replaces the text, but the timer of the first text stays armed: when it
    runs, at the first expiry, it deletes the second text, which is then not
    found although its own expiry is still ahead. *)
Theorem reused_id_is_deleted_early fetch env (id s1 s2 : jsstring) (d : Z) (st : state) :
  invalid_text (VStr s1) = false ->
  invalid_text (VStr s2) = false ->
  (0 < d <= WISH_TEXT_TTL)%Z ->
  let t1 := ((now st + WISH_TEXT_TTL)%Z, id) in
  let before := fst (run fetch env
                       [Post id (VStr s1); Tick d; Post id (VStr s2);
                        Tick (WISH_TEXT_TTL - d)] st) in
  let after := fire t1 before in
  enabled (Fire t1) before
  /\ wishTextStore before !! id
     = Some {| text := s2; expires := (now st + d + WISH_TEXT_TTL)%Z |}
  /\ wish_text fetch env (VStr id) false after = NotFound
  /\ (now after < now st + d + WISH_TEXT_TTL)%Z.
Proof.
  intros H1 H2 Hd. cbn [run step]. unfold store_wish_text.
  rewrite H1. cbn [fst snd wishTextStore timers now]. rewrite H2.
  cbn [fst snd wishTextStore timers now enabled].
  split; [|split; [|split]].
  - split; [|lia]. apply in_or_app. left. apply in_or_app. right. now left.
  - rewrite lookup_insert. case_decide; [reflexivity | congruence].
  - unfold wish_text, fire. cbn [wishTextStore snd].
    rewrite lookup_delete. case_decide; [reflexivity | congruence].
  - unfold fire. cbn [now]. lia.
Qed.

Lemma reused_id_is_deleted_early_witness :
  wish_text (fun _ => FetchError)
    {| OPENROUTER_API_KEY := None; GROQ_API_KEY := None; GEMINI_API_KEY := None |}
    (VStr (js "k3x9q2ab")) false
    (fire (600000%Z, js "k3x9q2ab")
       (fst (run (fun _ => FetchError)
               {| OPENROUTER_API_KEY := None; GROQ_API_KEY := None;
                  GEMINI_API_KEY := None |}
               [Post (js "k3x9q2ab") (VStr (js "хочу кеды")); Tick 1000;
                Post (js "k3x9q2ab") (VStr (js "хочу куртку"));
                Tick (WISH_TEXT_TTL - 1000)] init)))
  = NotFound.
Proof.
  apply (reused_id_is_deleted_early (fun _ => FetchError)
           {| OPENROUTER_API_KEY := None; GROQ_API_KEY := None; GEMINI_API_KEY := None |}
           (js "k3x9q2ab") (js "хочу кеды") (js "хочу куртку") 1000 init);
    vm_compute; try reflexivity. split; [reflexivity | discriminate].
Defined.

(** X11. The lookup with analysis of a stored text replies with the text
    and the fallback record when no text-model credential is set, and
    rejects, sending no reply, when a credential is set and the request to
    the model fails; it leaves the store untouched in both cases. *)
Theorem lookup_with_analysis fetch env (k : list N) (e : entry) (st : state) :
  wishTextStore st !! k = Some e ->
  (is_set (env_or (OPENROUTER_API_KEY env) (GROQ_API_KEY env)) = false ->
   step fetch env (Get (VStr k) true) st
   = (st, Some (Analyzed (text e) (analyzeWishTextFallback (text e)))))
  /\ (is_set (env_or (OPENROUTER_API_KEY env) (GROQ_API_KEY env)) = true ->
      fetch (wish_request env (text e)) = FetchError ->
      step fetch env (Get (VStr k) true) st = (st, Some Rejected)).
Proof.
  intros Hk. cbn [step]. unfold wish_text. rewrite Hk. cbn [negb].
  split.
  - intros Hset. unfold analyzeWishText. rewrite Hset. reflexivity.
  - intros Hset Hf. unfold analyzeWishText. rewrite Hset, Hf. reflexivity.
Qed.

Lemma lookup_with_analysis_witness :
  step (fun _ => FetchError)
    {| OPENROUTER_API_KEY := None; GROQ_API_KEY := Some (js "gsk_1");
       GEMINI_API_KEY := None |}
    (Get (VStr (js "k3x9q2ab")) true)
    (fst (store_wish_text (js "k3x9q2ab") (VStr (js "хочу кеды")) init))
  = (fst (store_wish_text (js "k3x9q2ab") (VStr (js "хочу кеды")) init), Some Rejected).
Proof.
  destruct (lookup_with_analysis (fun _ => FetchError)
              {| OPENROUTER_API_KEY := None; GROQ_API_KEY := Some (js "gsk_1");
                 GEMINI_API_KEY := None |}
              (js "k3x9q2ab") {| text := js "хочу кеды"; expires := 600000 |}
              (fst (store_wish_text (js "k3x9q2ab") (VStr (js "хочу кеды")) init)))
    as [_ Hrej].
  - vm_compute. reflexivity.
  - apply Hrej; reflexivity.
Defined.

(** *** The search for the product in structured data *)

Lemma jsval_nested_ind (P : jsval -> Prop) :
  P VUndef -> P VNull -> (forall b, P (VBool b)) -> (forall x, P (VNum x)) ->
  (forall s, P (VStr s)) ->
  (forall l, Forall P l -> P (VArr l)) ->
  (forall fs, Forall (fun kv => P (snd kv)) fs -> P (VObj fs)) ->
  (forall k, P (VBuiltin k)) ->
  forall v, P v.
Proof.
  intros Hu Hn Hb Hx Hs Ha Ho Hk. fix IH 1.
  intros [ | | b | x | s | l | fs | k].
  - exact Hu.
  - exact Hn.
  - apply Hb.
  - apply Hx.
  - apply Hs.
  - apply Ha. induction l as [|a l IHl]; constructor; [apply IH | exact IHl].
  - apply Ho. induction fs as [|[k v] fs IHfs]; constructor; [apply IH | exact IHfs].
  - apply Hk.
Qed.

Lemma lookup_last_in (fs : list (jsstring * jsval)) (k : jsstring) (v : jsval) :
  lookup_last fs k = Some v -> exists k', In (k', v) fs.
Proof.
  induction fs as [|[k' w] fs IH]; simpl; [discriminate|].
  destruct (lookup_last fs k) as [u|].
  - intros [= ->]. destruct IH as [k'' H]; [reflexivity|]. exists k''. now right.
  - destruct (str_eqb k' k); [|discriminate]. intros [= ->]. exists k'. now left.
Qed.

Lemma typed_product_container (obj : jsval) :
  typed_product obj = Returned true -> exists fs, obj = VObj fs.
Proof.
  destruct obj as [ | | b | x | s | l | fs | k]; [| | | | | | eauto |];
    cbv beta iota zeta delta [typed_product get]; vm_compute; discriminate.
Qed.

(** The search, one level at a time. *)
Lemma findProductInJsonLd_unfold (obj : jsval) :
  findProductInJsonLd obj
  = if negb (truthy obj) then Returned VNull else
    let* is_product := typed_product obj in
    if is_product then Returned obj else
    match obj with
    | VArr l => find_in_array l
    | VObj fs =>
      if truthy (get obj (js "@graph"))
      then findProductInJsonLd (get obj (js "@graph")) else Returned VNull
    | _ => Returned VNull
    end.
Proof.
  destruct obj as [ | | b | x | s | l | fs | k]; try reflexivity.
  - cbn [findProductInJsonLd]. destruct (negb _); [reflexivity|].
    destruct (typed_product (VObj fs)) as [[|]|]; try reflexivity. cbn [bind get].
    match goal with
    | |- match ?G fs with Some _ => _ | None => _ end = _ =>
      assert (HG : forall fs',
                 G fs' = option_map
                           (fun v => if truthy v then findProductInJsonLd v
                                     else Returned VNull)
                           (lookup_last fs' (js "@graph")))
    end.
    { induction fs' as [|[k v] fs' IH]; [reflexivity|].
      cbn [lookup_last]. rewrite IH.
      destruct (lookup_last fs' (js "@graph")); [reflexivity|].
      cbn [option_map]. destruct (str_eqb k (js "@graph")); reflexivity. }
    rewrite HG. destruct (lookup_last fs (js "@graph")) as [w|]; reflexivity.
Qed.

Lemma answer_of_container (obj r : jsval) :
  answer_of obj r -> is_container obj = true.
Proof.
  destruct 1 as [obj H | l x r _ _ _ | fs r _]; try reflexivity.
  apply typed_product_container in H as [fs ->]. reflexivity.
Qed.

Lemma find_in_array_first (l : list jsval) (r : jsval) :
  find_in_array l = Returned r ->
  r = VUndef
  \/ (In r l /\ exists r', findProductInJsonLd r = Returned r' /\ truthy r' = true).
Proof.
  induction l as [|x l IH]; cbn [find_in_array].
  - intros [= <-]. now left.
  - destruct (findProductInJsonLd x) as [r'|] eqn:Hx; [|discriminate]. cbn [bind].
    destruct (truthy r') eqn:Ht.
    + intros [= <-]. right. split; [now left | eauto].
    + intros H. destruct (IH H) as [-> | [Hin Hr]]; [now left|].
      right. split; [now right | exact Hr].
Qed.

Lemma findProductInJsonLd_sound (obj : jsval) :
  forall r, findProductInJsonLd obj = Returned r ->
            r = VNull \/ r = VUndef \/ (is_container r = true /\ answer_of obj r).
Proof.
  induction obj as [ | | b | x | s | l IH | fs IH | k] using jsval_nested_ind;
    intros r; rewrite findProductInJsonLd_unfold;
    try (destruct (negb _); [intros [= <-]; now left|]);
    try (destruct (typed_product _) as [[|]|] eqn:Hty; [| |discriminate]; cbn [bind]);
    try (apply typed_product_container in Hty as [fs' Hfs']; discriminate Hfs');
    try (intros [= <-]; now left).
  - intros Hr. apply find_in_array_first in Hr as [-> | [Hin (r' & Hr' & Ht)]];
      [right; now left|].
    right. right. split; [|eapply answer_element; eassumption].
    rewrite List.Forall_forall in IH.
    destruct (IH r Hin r' Hr') as [-> | [-> | [_ Ha]]]; try discriminate Ht.
    eapply answer_of_container, Ha.
  - intros [= <-]. right. right. split; [reflexivity | now apply answer_self].
  - destruct (truthy (get (VObj fs) (js "@graph"))) eqn:Hg;
      [|intros [= <-]; now left].
    intros Hr.
    assert (Hin : exists k', In (k', get (VObj fs) (js "@graph")) fs).
    { cbn [get] in *. destruct (lookup_last fs (js "@graph")) as [w|] eqn:Hw;
        [eapply lookup_last_in, Hw | discriminate Hg]. }
    destruct Hin as [k' Hin]. rewrite List.Forall_forall in IH.
    destruct (IH _ Hin r Hr) as [-> | [-> | [Hc Ha]]];
      [now left | right; now left |].
    right. right. split; [exact Hc | now apply answer_graph].
Qed.

(** X12. A search in structured data that returns gives null, undefined,
    or an object or array that is: the node itself, typed as a product; or
    an element of an array in which the search succeeds (the element, not
    the node found inside it); or what the search in the graph member
    gives. *)
Theorem findProductInJsonLd_answers (obj r : jsval) :
  findProductInJsonLd obj = Returned r ->
  r = VNull \/ r = VUndef \/ (is_container r = true /\ answer_of obj r).
Proof. apply findProductInJsonLd_sound. Qed.

Lemma findProductInJsonLd_answers_witness :
  let node := VObj [(js "@type", VStr (js "Product")); (js "name", VStr (js "Кеды"))] in
  is_container node = true
  /\ answer_of (VObj [(js "@context", VStr (js "https://schema.org"));
                      (js "@graph", VArr [VObj [(js "@type", VStr (js "WebSite"))]; node])])
       node.
Proof.
  intros node.
  destruct (findProductInJsonLd_answers
              (VObj [(js "@context", VStr (js "https://schema.org"));
                     (js "@graph", VArr [VObj [(js "@type", VStr (js "WebSite"))]; node])])
              node) as [H | [H | H]].
  - vm_compute. reflexivity.
  - discriminate H.
  - discriminate H.
  - exact H.
Defined.

Lemma find_in_array_skips (l1 : list jsval) (x : jsval) (l2 : list jsval) (r : jsval) :
  (forall y, In y l1 ->
             exists ry, findProductInJsonLd y = Returned ry /\ truthy ry = false) ->
  findProductInJsonLd x = Returned r -> truthy r = true ->
  find_in_array (l1 ++ x :: l2) = Returned x.
Proof.
  intros Hl1 Hx Ht. induction l1 as [|y l1 IH]; cbn [app find_in_array].
  - rewrite Hx. cbn [bind]. now rewrite Ht.
  - destruct (Hl1 y (or_introl eq_refl)) as (ry & Hy & Hf).
    rewrite Hy. cbn [bind]. rewrite Hf.
    apply IH. intros z Hz. apply Hl1. now right.
Qed.

(** X13. On an array the search gives back the first element in which the
    search succeeds, that element as a whole: when the product sits deeper
    inside the element, in a graph member or a nested array, the wrapper is
    the result and not the product. *)
Theorem findProductInJsonLd_array_gives_element
        (l1 : list jsval) (x : jsval) (l2 : list jsval) (r : jsval) :
  (forall y, In y l1 ->
             exists ry, findProductInJsonLd y = Returned ry /\ truthy ry = false) ->
  findProductInJsonLd x = Returned r -> truthy r = true ->
  findProductInJsonLd (VArr (l1 ++ x :: l2)) = Returned x.
Proof.
  intros Hl1 Hx Ht. rewrite findProductInJsonLd_unfold.
  change (find_in_array (l1 ++ x :: l2) = Returned x).
  eapply find_in_array_skips; eassumption.
Qed.

Lemma findProductInJsonLd_array_gives_element_witness :
  let product := VObj [(js "@type", VStr (js "Product")); (js "name", VStr (js "Кеды"))] in
  let wrapper := VObj [(js "@graph", VArr [product])] in
  findProductInJsonLd (VArr [VObj [(js "@type", VStr (js "WebSite"))]; wrapper])
  = Returned wrapper
  /\ get wrapper (js "name") = VUndef.
Proof.
  intros product wrapper. split; [|reflexivity].
  apply (findProductInJsonLd_array_gives_element
           [VObj [(js "@type", VStr (js "WebSite"))]] wrapper [] product).
  - intros y [<- | []]. exists VNull. split; vm_compute; reflexivity.
  - vm_compute. reflexivity.
  - reflexivity.
Defined.

Lemma ld_block_gives (body : jsstring) (product : jsval) :
  ld_block body = Some product ->
  exists parsed, json_parse body = Returned parsed
                 /\ findProductInJsonLd parsed = Returned product
                 /\ truthy product = true.
Proof.
  unfold ld_block.
  destruct (json_parse body) as [parsed|]; [|discriminate]. cbn [bind].
  destruct (findProductInJsonLd parsed) as [p|] eqn:Hp; [|discriminate].
  cbn [bind try_catch]. destruct (truthy p) eqn:Ht; [|discriminate].
  intros [= <-]. eauto.
Qed.

Lemma first_product_gives (ms : list rmatch) :
  first_product ms = VNull
  \/ exists m parsed,
      In m ms
      /\ json_parse (match group m 1 with Some x => x | None => [] end) = Returned parsed
      /\ findProductInJsonLd parsed = Returned (first_product ms)
      /\ truthy (first_product ms) = true.
Proof.
  induction ms as [|m ms IH]; cbn [first_product]; [now left|].
  destruct (ld_block _) as [product|] eqn:Hb.
  - apply ld_block_gives in Hb as (parsed & Hj & Hf & Ht).
    right. exists m, parsed. split; [now left | auto].
  - destruct IH as [IH | (m' & parsed & Hin & H)]; [now left|].
    right. exists m', parsed. split; [now right | exact H].
Qed.

(** X14. What the structured-data reader returns is null, or an object or
    array that the search found in one of the blocks of the document that
    parse as JSON: never a string, a number or a boolean, so the member
    lookups of the resolver on it are defined. *)
Theorem extractJsonLd_null_or_container (html : jsstring) :
  extractJsonLd html = VNull
  \/ (is_container (extractJsonLd html) = true
      /\ exists m parsed,
          In m (match_all true re_ld_script html)
          /\ json_parse (match group m 1 with Some x => x | None => [] end)
             = Returned parsed
          /\ answer_of parsed (extractJsonLd html)).
Proof.
  unfold extractJsonLd.
  destruct (first_product_gives (match_all true re_ld_script html))
    as [H | (m & parsed & Hin & Hj & Hf & Ht)]; [now left|].
  right. apply findProductInJsonLd_sound in Hf as [Hf | [Hf | [Hc Ha]]];
    try (rewrite Hf in Ht; discriminate Ht).
  split; [exact Hc|]. exists m, parsed. auto.
Qed.

(** *** The resolver: where it raises *)

Section ParseFacts.

Variable new_URL : jsstring -> jsstring -> option jsstring.

Lemma resolve_image_of_object jsonLd blob_image targetUrl :
  truthy (first_or_self (get jsonLd (js "image"))) = true ->
  is_string (first_or_self (get jsonLd (js "image"))) = false ->
  resolve_image new_URL None jsonLd blob_image targetUrl = Thrown.
Proof.
  intros Ht Hs. unfold resolve_image. cbv zeta.
  assert (Hld : truthy jsonLd = true).
  { destruct jsonLd; try reflexivity; discriminate Ht. }
  unfold and_then. rewrite Hld. cbn [opt_str or_else truthy].
  unfold or_else. rewrite Ht. cbn [truthy]. rewrite Ht. rewrite Ht.
  destruct (first_or_self (get jsonLd (js "image"))); try reflexivity; discriminate.
Qed.

Lemma resolve_size_property_not_a_list jsonLd :
  truthy (get jsonLd (js "size")) = false ->
  truthy (get jsonLd (js "additionalProperty")) = true ->
  is_array (get jsonLd (js "additionalProperty")) = false ->
  resolve_size jsonLd = Thrown.
Proof.
  intros Hs Ht Ha. unfold resolve_size, additional_size. cbv zeta.
  assert (Hld : truthy jsonLd = true).
  { destruct jsonLd; try reflexivity; discriminate Ht. }
  unfold and_then. rewrite Hld, Hs. cbn [negb]. rewrite Ht. cbn [negb].
  destruct (get jsonLd (js "additionalProperty")); try reflexivity; discriminate.
Qed.


End ParseFacts.


(** *** The endpoints *)

Section ImageEndpointFacts.

Variable fetch : request -> fetch_result.
Variable env : Env.
Variable fetch_bytes : jsstring -> download.
Variable storage : option (jsstring -> outcome (option jsval)).

Lemma stored_image_gives (b64 : jsstring) :
  (storage = None -> stored_image storage b64 = VNull)
  /\ (forall upload,
         storage = Some upload ->
         match upload (rx_replace false re_data_prefix b64 []) with
         | Returned (Some publicUrl) =>
           if truthy publicUrl then stored_image storage b64 = publicUrl
           else stored_image storage b64 = VNull
         | Returned None => stored_image storage b64 = VNull
         | Thrown => stored_image storage b64 = VNull
         end).
Proof.
  unfold stored_image. split; [now intros ->|].
  intros upload ->. destruct (upload _) as [[publicUrl|]|]; try reflexivity.
  unfold or_else. destruct (truthy publicUrl); reflexivity.
Qed.

(** X20. The image endpoint never replies 502: the analyzer does not raise.
    A 200 reply is the record of the analyzer for the image of the request,
    with a truthy name, a price that is null or a number that is not NaN, a
    currency and a size that are null or strings. Its image is null when
    there is no storage; with a storage it is the public address that the
    upload of the image, its data prefix removed, gives when that address is
    truthy, and null when the upload gives a falsy address or none, or
    raises. *)
Theorem analyze_image_replies (req_body : jsval) :
  analyze_image fetch env fetch_bytes storage req_body <> Image502
  /\ (forall r,
         analyze_image fetch env fetch_bytes storage req_body = Image200 r ->
         truthy (name r) = true
         /\ (price r = VNull \/ exists x, price r = VNum x /\ isNaN x = false)
         /\ (currency r = VNull \/ exists s, currency r = VStr s)
         /\ (size r = VNull \/ exists s, size r = VStr s)
         /\ exists b64 extracted,
             image_payload fetch_bytes (or_else req_body (VObj [])) = Returned (VStr b64)
             /\ b64 <> []
             /\ analyzeImage fetch env b64 = Returned extracted
             /\ r = with_image extracted (image r)
             /\ (storage = None -> image r = VNull)
             /\ (forall upload,
                    storage = Some upload ->
                    match upload (rx_replace false re_data_prefix b64 []) with
                    | Returned (Some publicUrl) =>
                      if truthy publicUrl then image r = publicUrl
                      else image r = VNull
                    | Returned None => image r = VNull
                    | Thrown => image r = VNull
                    end)).
Proof.
  unfold analyze_image. cbv zeta.
  destruct (image_payload _ _) as [[ | | b | x | [|c b64] | l | fs | k]|];
    try (split; [discriminate | intros r Hr; discriminate Hr]).
  destruct (analyzeImage_shaped fetch env (c :: b64))
    as (r0 & Hr0 & Hn & Hp & Hc & Hs & _ & _).
  rewrite Hr0. split; [discriminate|]. intros r [= <-].
  cbn [with_image name price currency size image].
  repeat (split; [assumption|]).
  exists (c :: b64), r0.
  destruct (stored_image_gives (c :: b64)) as [Hnone Hup].
  repeat split; try assumption; try reflexivity. discriminate.
Qed.

Lemma analyze_image_of_image (b64 : jsstring) :
  analyze_image fetch env fetch_bytes storage (VObj [(js "image", VStr b64)])
  = match b64 with
    | [] => Image400 true
    | _ :: _ =>
      match analyzeImage fetch env b64 with
      | Returned extracted => Image200 (with_image extracted (stored_image storage b64))
      | Thrown => Image502
      end
    end.
Proof. destruct b64; reflexivity. Qed.

(** X21. A request that names an address to download, as a string that is
    not empty, is answered from the download alone, whatever image the
    body carries: a download that fails or is not ok gives the 400 reply of
    the failed download, and one that succeeds is answered as a request
    whose image is the downloaded text. *)
Theorem analyze_image_download_wins (body : jsval) (u : jsstring) :
  truthy body = true ->
  get body (js "imageUrl") = VStr u ->
  u <> [] ->
  match fetch_bytes u with
  | Downloaded true b64 =>
    analyze_image fetch env fetch_bytes storage body
    = analyze_image fetch env fetch_bytes storage (VObj [(js "image", VStr b64)])
  | _ => analyze_image fetch env fetch_bytes storage body = Image400 false
  end.
Proof.
  intros Hb Hu Hne. destruct u as [|c u]; [congruence|].
  assert (Hpay : image_payload fetch_bytes (or_else body (VObj []))
                 = match fetch_bytes (c :: u) with
                   | Downloaded true b64 => Returned (VStr b64)
                   | _ => Thrown
                   end).
  { unfold image_payload, or_else. rewrite Hb, Hu. reflexivity. }
  destruct (fetch_bytes (c :: u)) as [|[|] b64].
  - unfold analyze_image. cbv zeta. now rewrite Hpay.
  - rewrite analyze_image_of_image. unfold analyze_image. cbv zeta. rewrite Hpay.
    destruct b64; reflexivity.
  - unfold analyze_image. cbv zeta. now rewrite Hpay.
Qed.

End ImageEndpointFacts.

Lemma analyze_image_replies_witness :
  let r := {| name := VStr (js "N/A"); price := VNull; currency := VNull;
              size := VNull; link := VUndef;
              image := VStr (js "https://cdn.example/wish-images/k3x9q2ab_17.jpg") |} in
  truthy (name r) = true
  /\ image r = VStr (js "https://cdn.example/wish-images/k3x9q2ab_17.jpg").
Proof.
  intros r.
  pose (upload := fun _ : jsstring =>
          Returned (Some (VStr (js "https://cdn.example/wish-images/k3x9q2ab_17.jpg")))).
  destruct (analyze_image_replies (fun _ => FetchError)
              {| OPENROUTER_API_KEY := None; GROQ_API_KEY := None;
                 GEMINI_API_KEY := None |}
              (fun _ => DownloadError) (Some upload)
              (VObj [(js "image", VStr (js "data:image/png;base64,aGVsbG8="))])) as [_ H].
  destruct (H r) as (Hn & _ & _ & _ & (b64 & extracted & _ & _ & _ & _ & _ & Hup)).
  - vm_compute. reflexivity.
  - split; [exact Hn|]. specialize (Hup upload eq_refl).
    unfold upload in Hup. cbv beta iota in Hup.
    assert (Ht : truthy (VStr (js "https://cdn.example/wish-images/k3x9q2ab_17.jpg"))
                 = true) by (vm_compute; reflexivity).
    rewrite Ht in Hup. exact Hup.
Defined.

Lemma analyze_image_download_wins_witness :
  analyze_image (fun _ => FetchError)
    {| OPENROUTER_API_KEY := None; GROQ_API_KEY := None; GEMINI_API_KEY := None |}
    (fun _ => Downloaded false []) None
    (VObj [(js "image", VStr (js "aGVsbG8="));
           (js "imageUrl", VStr (js "https://shop.example/i/17.jpg"))])
  = Image400 false.
Proof.
  apply (analyze_image_download_wins (fun _ => FetchError)
           {| OPENROUTER_API_KEY := None; GROQ_API_KEY := None; GEMINI_API_KEY := None |}
           (fun _ => Downloaded false []) None
           (VObj [(js "image", VStr (js "aGVsbG8="));
                  (js "imageUrl", VStr (js "https://shop.example/i/17.jpg"))])
           (js "https://shop.example/i/17.jpg")).
  - reflexivity.
  - vm_compute. reflexivity.
  - vm_compute. discriminate.
Defined.

Section PageEndpointFacts.

Variable new_URL : jsstring -> jsstring -> option jsstring.
Variable render : jsstring -> outcome jsstring.
Variable visit : jsstring -> image_visit.

(** The link of a returned record is the address asked for. *)
Lemma parse_link (html url : jsstring) (r : AttributeRecord) :
  parse new_URL html url = Returned r -> link r = VStr url.
Proof.
  unfold parse. cbv zeta.
  destruct (extractFromJsonBlobs html url) as [blob|]; [|discriminate]. cbn [bind].
  destruct (resolve_price _ _ _ _) as [price_|]; [|discriminate]. cbn [bind].
  destruct (resolve_size _) as [size_|]; [|discriminate]. cbn [bind].
  destruct (resolve_image _ _ _ _ _) as [imageUrl|]; [|discriminate]. cbn [bind].
  intros [= <-]. reflexivity.
Qed.

Lemma image_data_gives (result : AttributeRecord) (targetUrl : jsstring) :
  or_else (image_data new_URL visit result targetUrl) VNull = VNull
  \/ exists rest,
      or_else (image_data new_URL visit result targetUrl) VNull
      = VStr (js "data:" ++ rest).
Proof.
  unfold image_data.
  repeat match goal with
         | |- context [match ?x with _ => _ end] => destruct x; try (now left)
         end.
  right. eexists. reflexivity.
Qed.




End PageEndpointFacts.



(** *** What the matcher returns is a match *)

Lemma cap_of_set_cap (i j : nat) (u : jsstring) (caps : list (nat * jsstring)) :
  cap_of (set_cap i u caps) j = if Nat.eqb i j then Some u else cap_of caps j.
Proof.
  unfold cap_of, set_cap. cbn [find fst].
  destruct (Nat.eqb i j) eqn:Hij; [reflexivity|].
  f_equal. induction caps as [|[a b] caps IH]; [reflexivity|].
  rewrite filter_cons. cbn [find fst].
  destruct (Nat.eqb a i) eqn:Hai; cbn [negb].
  - apply Nat.eqb_eq in Hai. subst a. rewrite Hij.
    case_decide as Hd; [destruct Hd | exact IH].
  - case_decide as Hd; [|exfalso; apply Hd; exact I].
    cbn [find fst]. destruct (Nat.eqb a j); [reflexivity | exact IH].
Qed.

Lemma consumed_app (st st' : mstate) (w : jsstring) :
  ms_rest st = w ++ ms_rest st' -> consumed st st' = w.
Proof.
  intros H. unfold consumed. rewrite H, length_app.
  replace (List.length w + List.length (ms_rest st') - List.length (ms_rest st'))%nat
    with (List.length w) by lia.
  rewrite take_app_length. reflexivity.
Qed.

Lemma orelse_some {A} (a b : option A) (x : A) :
  orelse a b = Some x -> a = Some x \/ b = Some x.
Proof. destruct a; simpl; auto. Qed.

Lemma rep_loop_sound (ic : bool) (a : regex) (m : matcher) (g : bool)
      (k : mstate -> option mstate) :
  (forall st k' fin, m st k' = Some fin ->
                     exists st', k' st' = Some fin /\ run_of ic a st st') ->
  forall fuel mn mx st fin,
    (mn + List.length (ms_rest st) < fuel)%nat ->
    rep_loop m g k fuel mn mx st = Some fin ->
    exists st', k st' = Some fin /\ run_of ic (Rep mn mx g a) st st'.
Proof.
  intros Hm. induction fuel as [|fuel IH]; intros mn mx st fin Hfuel; [lia|].
  assert (Hstop : k st = Some fin ->
                  (mn = 0%nat \/ mx = Some 0%nat) ->
                  exists st', k st' = Some fin /\ run_of ic (Rep mn mx g a) st st').
  { intros Hk Hz. exists st. split; [exact Hk|]. exists []. split; [reflexivity|].
    split; [|split; [intros i; now left|]].
    - exists []. split; [reflexivity|]. split; [constructor|].
      destruct Hz as [-> | ->]; [destruct mx|]; simpl; lia.
    - intros i Hi. cbn [must_cap] in Hi.
      destruct Hz as [-> | ->]; [discriminate Hi|].
      rewrite andb_false_r in Hi. discriminate Hi. }
  assert (Hiter :
            m st (fun st' =>
                    if Nat.eqb mn 0
                       && Nat.eqb (List.length (ms_rest st')) (List.length (ms_rest st))
                    then None
                    else rep_loop m g k fuel (Nat.pred mn) (option_map Nat.pred mx) st')
            = Some fin ->
            mx <> Some 0%nat ->
            exists st', k st' = Some fin /\ run_of ic (Rep mn mx g a) st st').
  { intros Hit Hmx. apply Hm in Hit as (st1 & Hk1 & (w1 & Hw1 & Hl1 & Hc1 & Hm1)).
    destruct (Nat.eqb mn 0
              && Nat.eqb (List.length (ms_rest st1)) (List.length (ms_rest st))) eqn:Hc;
      [discriminate|].
    assert (Hlen : List.length (ms_rest st) = (List.length w1 + List.length (ms_rest st1))%nat)
      by (rewrite Hw1, length_app; reflexivity).
    apply IH in Hk1 as (st' & Hk & (w & Hw & (ws & Hws & Hall & Hcnt) & Hcap & _)).
    2:{ apply andb_false_iff in Hc as [Hc | Hc].
        - apply Nat.eqb_neq in Hc. lia.
        - apply Nat.eqb_neq in Hc. lia. }
    exists st'. split; [exact Hk|]. exists (w1 ++ w). split; [|split; [|split]].
    - rewrite Hw1, Hw. now rewrite app_assoc.
    - exists (w1 :: ws). split; [simpl; now rewrite Hws|]. split; [now constructor|].
      destruct mx as [[|b]|]; [congruence | |]; simpl in *; lia.
    - intros i. destruct (Hcap i) as [He | (u & Hu & Hcl)].
      + rewrite He. destruct (Hc1 i) as [He1 | (u & Hu & Hcl)]; [now left|].
        right. exists u. split; [exact Hu | exact Hcl].
      + right. exists u. split; [exact Hu | exact Hcl].
    - intros i Hi. cbn [must_cap] in Hi. apply andb_true_iff in Hi as [_ Hi].
      destruct (Hcap i) as [He | (u & Hu & _)]; [rewrite He; apply Hm1, Hi|].
      rewrite Hu. discriminate. }
  cbn [rep_loop].
  destruct mx as [[|b]|].
  - intros Hk. apply Hstop; [exact Hk | now right].
  - destruct (Nat.eqb mn 0) eqn:Hmn.
    + apply Nat.eqb_eq in Hmn. subst mn.
      destruct g; intros Hr; apply orelse_some in Hr as [Hr | Hr];
        first [ apply Hiter; [exact Hr | discriminate]
              | apply Hstop; [exact Hr | now left] ].
    + intros Hr. apply Hiter; [exact Hr | discriminate].
  - destruct (Nat.eqb mn 0) eqn:Hmn.
    + apply Nat.eqb_eq in Hmn. subst mn.
      destruct g; intros Hr; apply orelse_some in Hr as [Hr | Hr];
        first [ apply Hiter; [exact Hr | discriminate]
              | apply Hstop; [exact Hr | now left] ].
    + intros Hr. apply Hiter; [exact Hr | discriminate].
Qed.

Lemma exec_sound (ic : bool) (r : regex) :
  forall st k fin,
    exec ic r st k = Some fin ->
    exists st', k st' = Some fin /\ run_of ic r st st'.
Proof.
  induction r as [ | c | neg rs | a IHa b IHb | a IHa b IHb | mn mx g a IHa
                   | i a IHa | | | ]; intros st k fin; cbn [exec].
  - intros Hk. exists st. split; [exact Hk|]. exists []. split; [reflexivity|].
    split; [reflexivity|]. split; [intros i; now left | intros i Hi; discriminate Hi].
  - destruct (ms_rest st) as [|x t] eqn:Hrest; [discriminate|].
    destruct (char_eq ic c x) eqn:Hc; [|discriminate].
    intros Hk. eexists. split; [exact Hk|]. exists [x]. cbn [ms_rest ms_caps].
    split; [exact Hrest|]. split; [exists x; auto|].
    split; [intros i; now left | intros i Hi; discriminate Hi].
  - destruct (ms_rest st) as [|x t] eqn:Hrest; [discriminate|].
    destruct (xorb neg (class_mem ic rs x)) eqn:Hc; [|discriminate].
    intros Hk. eexists. split; [exact Hk|]. exists [x]. cbn [ms_rest ms_caps].
    split; [exact Hrest|]. split; [exists x; auto|].
    split; [intros i; now left | intros i Hi; discriminate Hi].
  - intros H. apply IHa in H as (st1 & H & (w1 & Hw1 & Hl1 & Hc1 & Hm1)).
    apply IHb in H as (st2 & Hk & (w2 & Hw2 & Hl2 & Hc2 & Hm2)).
    exists st2. split; [exact Hk|]. exists (w1 ++ w2). split; [|split; [|split]].
    + rewrite Hw1, Hw2. now rewrite app_assoc.
    + exists w1, w2. auto.
    + intros i. cbn [cap_lang]. destruct (Hc2 i) as [He | (u & Hu & Hcl)].
      * rewrite He. destruct (Hc1 i) as [He1 | (u & Hu & Hcl)]; [now left|].
        right. eauto.
      * right. eauto.
    + intros i Hi. cbn [must_cap] in Hi.
      destruct (must_cap b i) eqn:Hb; [apply Hm2, Hb|].
      rewrite orb_false_r in Hi.
      destruct (Hc2 i) as [He | (u & Hu & _)]; [rewrite He; apply Hm1, Hi|].
      rewrite Hu. discriminate.
  - unfold orelse. destruct (exec ic a st k) as [f|] eqn:Ha.
    + intros [= ->]. apply IHa in Ha as (st' & Hk & (w & Hw & Hl & Hc & Hmc)).
      exists st'. split; [exact Hk|]. exists w. split; [exact Hw|].
      split; [now left|]. split.
      * intros i. destruct (Hc i) as [He | (u & Hu & Hcl)];
          [now left | right; cbn [cap_lang]; eauto].
      * intros i Hi. cbn [must_cap] in Hi. apply andb_true_iff in Hi as [Hi _].
        apply Hmc, Hi.
    + intros Hb. apply IHb in Hb as (st' & Hk & (w & Hw & Hl & Hc & Hmc)).
      exists st'. split; [exact Hk|]. exists w. split; [exact Hw|].
      split; [now right|]. split.
      * intros i. destruct (Hc i) as [He | (u & Hu & Hcl)];
          [now left | right; cbn [cap_lang]; eauto].
      * intros i Hi. cbn [must_cap] in Hi. apply andb_true_iff in Hi as [_ Hi].
        apply Hmc, Hi.
  - intros H. eapply rep_loop_sound in H; [exact H | exact IHa | lia].
  - intros H. apply IHa in H as (st1 & Hk & (w & Hw & Hl & Hc & Hmc)).
    eexists. split; [exact Hk|]. exists w. cbn [ms_rest ms_caps].
    split; [exact Hw|]. split; [exact Hl|]. split.
    + intros j. rewrite cap_of_set_cap. destruct (Nat.eqb i j) eqn:Hij.
      * apply Nat.eqb_eq in Hij. subst j. right. exists (consumed st st1).
        split; [reflexivity|]. cbn [cap_lang]. left. split; [reflexivity|].
        now rewrite (consumed_app st st1 w Hw).
      * destruct (Hc j) as [He | (u & Hu & Hcl)]; [now left|].
        right. exists u. split; [exact Hu|]. cbn [cap_lang]. now right.
    + intros j Hj. rewrite cap_of_set_cap. cbn [must_cap] in Hj.
      destruct (Nat.eqb i j); [discriminate | apply Hmc, Hj].
  - destruct (ms_prev st); [discriminate|].
    intros Hk. exists st. split; [exact Hk|]. exists []. split; [reflexivity|].
    split; [reflexivity|]. split; [intros i; now left | intros i Hi; discriminate Hi].
  - destruct (ms_rest st) eqn:Hrest; [|discriminate].
    intros Hk. exists st. split; [exact Hk|]. exists []. split; [reflexivity|].
    split; [reflexivity|]. split; [intros i; now left | intros i Hi; discriminate Hi].
  - destruct (xorb _ _); [|discriminate].
    intros Hk. exists st. split; [exact Hk|]. exists []. split; [reflexivity|].
    split; [reflexivity|]. split; [intros i; now left | intros i Hi; discriminate Hi].
Qed.

Lemma search_sound (ic : bool) (r : regex) :
  forall s prev pos m,
    search ic r prev s pos = Some m ->
    lang ic r (m_text m)
    /\ (forall i u, cap_of (m_caps m) i = Some u -> cap_lang ic r i u)
    /\ (forall i, must_cap r i = true -> cap_of (m_caps m) i <> None)
    /\ exists pre, s = pre ++ m_text m ++ m_after m
                   /\ m_index m = (pos + List.length pre)%nat.
Proof.
  induction s as [|c s IH]; intros prev pos m; rewrite search_unfold.
  - destruct (exec ic r (MState prev [] []) Some) as [st'|] eqn:He; [|discriminate].
    intros [= <-]. apply exec_sound in He as (st1 & [= ->] & (w & Hw & Hl & Hc & Hmc)).
    cbn [m_text m_caps m_after m_index ms_rest ms_caps] in *.
    rewrite (consumed_app (MState prev [] []) st' w Hw).
    split; [exact Hl|]. split; [|split; [exact Hmc|]].
    + intros i u Hu. destruct (Hc i) as [He | (u' & Hu' & Hcl)].
      * rewrite Hu in He. discriminate He.
      * rewrite Hu in Hu'. injection Hu' as <-. exact Hcl.
    + exists []. split; [exact Hw | simpl; lia].
  - destruct (exec ic r (MState prev (c :: s) []) Some) as [st'|] eqn:He.
    + intros [= <-].
      apply exec_sound in He as (st1 & [= ->] & (w & Hw & Hl & Hc & Hmc)).
      cbn [m_text m_caps m_after m_index ms_rest ms_caps] in *.
      rewrite (consumed_app (MState prev (c :: s) []) st' w Hw).
      split; [exact Hl|]. split; [|split; [exact Hmc|]].
      * intros i u Hu. destruct (Hc i) as [He | (u' & Hu' & Hcl)].
        -- rewrite Hu in He. discriminate He.
        -- rewrite Hu in Hu'. injection Hu' as <-. exact Hcl.
      * exists []. split; [exact Hw | simpl; lia].
    + intros H. apply IH in H as (Hl & Hc & Hmc & (pre & Hs & Hi)).
      split; [exact Hl|]. split; [exact Hc|]. split; [exact Hmc|].
      exists (c :: pre). split; [simpl; now rewrite <- Hs | simpl; lia].
Qed.

(** *** The metadata readers *)

Lemma cap_lang_bodies (ic : bool) (r : regex) (i : nat) (u : jsstring) :
  cap_lang ic r i u -> exists a, In a (group_bodies r i) /\ lang ic a u.
Proof.
  induction r as [ | c | neg rs | a IHa b IHb | a IHa b IHb | mn mx g a IHa
                   | j a IHa | | | ]; cbn [cap_lang group_bodies]; try tauto.
  - intros [H | H]; [apply IHa in H | apply IHb in H]; destruct H as (x & Hin & Hl);
      exists x; (split; [apply in_or_app; auto | exact Hl]).
  - intros [H | H]; [apply IHa in H | apply IHb in H]; destruct H as (x & Hin & Hl);
      exists x; (split; [apply in_or_app; auto | exact Hl]).
  - intros [[-> Hl] | H].
    + exists a. rewrite Nat.eqb_refl. split; [now left | exact Hl].
    + apply IHa in H as (x & Hin & Hl). exists x.
      split; [apply in_or_app; now right | exact Hl].
Qed.

Lemma group_bodies_lit (s : jsstring) (i : nat) : group_bodies (lit s) i = [].
Proof. induction s as [|c s IH]; [reflexivity | exact IH]. Qed.

(** The text that a capture of a match holds is a text of a group of that
    number. *)
Lemma rx_match_capture (ic : bool) (r : regex) (s : jsstring) (m : rmatch)
      (i : nat) (u : jsstring) :
  rx_match ic r s = Some m -> group m (S i) = Some u ->
  exists a, In a (group_bodies r (S i)) /\ lang ic a u.
Proof.
  intros Hm Hg. apply search_sound in Hm as (_ & Hc & _).
  apply cap_lang_bodies, Hc, Hg.
Qed.

(** A group that takes part in every match of the pattern has a text. *)
Lemma rx_match_captured (ic : bool) (r : regex) (s : jsstring) (m : rmatch) (i : nat) :
  rx_match ic r s = Some m -> must_cap r (S i) = true ->
  exists u a, group m (S i) = Some u /\ In a (group_bodies r (S i)) /\ lang ic a u.
Proof.
  intros Hm Hi. pose proof Hm as Hm'.
  apply search_sound in Hm as (_ & _ & Hmc & _). specialize (Hmc (S i) Hi).
  change (cap_of (m_caps m) (S i)) with (group m (S i)) in Hmc.
  destruct (group m (S i)) as [u|] eqn:Hg; [|contradiction].
  destruct (rx_match_capture ic r s m i u Hm' Hg) as (a & Hin & Hl).
  exists u, a. auto.
Qed.

(** A quantified class consumes code units of the class, as many as the
    quantifier allows. *)
Lemma lang_rep_class (ic : bool) (mn : nat) (mx : option nat) (g neg : bool)
      (rs : list (N * N)) (v : jsstring) :
  lang ic (Rep mn mx g (Class neg rs)) v ->
  Forall (fun x => xorb neg (class_mem ic rs x) = true) v
  /\ count_ok mn mx (List.length v).
Proof.
  cbn [lang]. intros (ws & -> & Hall & Hcnt).
  assert (H : Forall (fun x => xorb neg (class_mem ic rs x) = true) (concat ws)
              /\ List.length (concat ws) = List.length ws).
  { clear Hcnt. induction Hall as [|w ws (x & -> & Hx) _ [IH1 IH2]];
      [split; [constructor | reflexivity]|].
    cbn [concat app List.length]. split; [now constructor | now rewrite IH2]. }
  destruct H as [H1 H2]. rewrite H2. auto.
Qed.

Lemma not_a_quote (x : N) :
  xorb true (class_mem true (singles (jsq "`'")) x) = true -> x <> 34 /\ x <> 39.
Proof.
  intros H. apply negb_true_iff in H.
  unfold class_mem in H. apply orb_false_iff in H as [H _].
  change (singles (jsq "`'")) with [(34, 34); (39, 39)] in H.
  cbn [in_ranges existsb fst snd] in H.
  apply orb_false_iff in H as [H1 H2]. apply orb_false_iff in H2 as [H2 _].
  split; intros ->; discriminate.
Qed.

Lemma meta_content (nm v : jsstring) (r : regex) :
  group_bodies r 1 = [plus (none_of (jsq "`'"))] ->
  forall html m, rx_match true r html = Some m -> group m 1 = Some v ->
                 v <> [] /\ Forall (fun x => x <> 34 /\ x <> 39) v.
Proof.
  intros Hb html m Hm Hg.
  destruct (rx_match_capture true r html m 0 v Hm Hg) as (a & Hin & Hl).
  rewrite Hb in Hin. destruct Hin as [<- | []].
  apply lang_rep_class in Hl as [Hall Hcnt]. split.
  - intros ->. simpl in Hcnt. lia.
  - eapply Forall_impl; [exact Hall|]. intros x Hx. apply not_a_quote, Hx.
Qed.

Lemma re_meta1_bodies (nm : jsstring) :
  group_bodies (re_meta1 nm) 1 = [plus (none_of (jsq "`'"))].
Proof.
  unfold re_meta1, seqs. cbn [fold_right group_bodies].
  rewrite !group_bodies_lit. reflexivity.
Qed.

Lemma re_meta2_bodies (nm : jsstring) :
  group_bodies (re_meta2 nm) 1 = [plus (none_of (jsq "`'"))].
Proof.
  unfold re_meta2, seqs. cbn [fold_right group_bodies].
  rewrite !group_bodies_lit. reflexivity.
Qed.

(** X25. The content that the meta reader returns for a tag is never
    empty and holds neither quote character: a tag that is found always
    gives a truthy value. *)
Theorem extractMeta_content (html nm v : jsstring) :
  extractMeta html nm = Some v ->
  v <> [] /\ Forall (fun x => x <> 34 /\ x <> 39) v.
Proof.
  unfold extractMeta.
  destruct (rx_match true (re_meta1 nm) html) as [m1|] eqn:H1.
  - intros Hg. eapply (meta_content nm v _ (re_meta1_bodies nm)); eassumption.
  - destruct (rx_match true (re_meta2 nm) html) as [m2|] eqn:H2; [|discriminate].
    intros Hg. eapply (meta_content nm v _ (re_meta2_bodies nm)); eassumption.
Qed.

Lemma extractMeta_content_witness :
  js "Кеды Nike Air" <> [].
Proof.
  apply (extractMeta_content page_title_and_blob (js "og:title") (js "Кеды Nike Air")).
  vm_compute. reflexivity.
Defined.

Lemma trim_start_head (s : jsstring) (c : N) :
  hd_error (trim_start s) = Some c -> is_space c = false.
Proof.
  induction s as [|x s IH]; cbn [trim_start]; [discriminate|].
  destruct (is_space x) eqn:Hx; [exact IH|]. intros [= <-]. exact Hx.
Qed.

Lemma trim_start_suffix (s : jsstring) : exists p, s = p ++ trim_start s.
Proof.
  induction s as [|x s [p IH]]; cbn [trim_start]; [now exists []|].
  destruct (is_space x); [|now exists []].
  exists (x :: p). simpl. now rewrite <- IH.
Qed.

(** A trimmed text neither starts nor ends with white space. *)
Lemma trim_ends (s : jsstring) :
  (forall c, hd_error (trim s) = Some c -> is_space c = false)
  /\ (forall c, hd_error (rev (trim s)) = Some c -> is_space c = false).
Proof.
  unfold trim. split.
  - intros c Hc.
    destruct (trim_start_suffix (rev (trim_start s))) as [p Hp].
    apply (f_equal (@rev N)) in Hp. rewrite rev_involutive, rev_app_distr in Hp.
    apply (trim_start_head s c). rewrite Hp.
    destruct (rev (trim_start (rev (trim_start s)))); [discriminate Hc | exact Hc].
  - intros c. rewrite rev_involutive. apply trim_start_head.
Qed.

Lemma not_an_angle (x : N) :
  xorb true (class_mem true (singles (js "<")) x) = true -> x <> 60.
Proof.
  intros H. apply negb_true_iff in H.
  unfold class_mem in H. apply orb_false_iff in H as [H _].
  change (singles (js "<")) with [(60, 60)] in H.
  cbn [in_ranges existsb fst snd] in H.
  apply orb_false_iff in H as [H _]. intros ->. discriminate.
Qed.

(** X26. The title that the title reader returns is the trimmed text of a
    title element: the text between the tags is not empty and holds no
    opening angle bracket, and the result neither starts nor ends with
    white space (it is empty when the element holds white space only). *)
Theorem extractTitle_trimmed (html t : jsstring) :
  extractTitle html = Some t ->
  (exists raw, raw <> [] /\ Forall (fun x => x <> 60) raw /\ t = trim raw)
  /\ (forall c, hd_error t = Some c -> is_space c = false)
  /\ (forall c, hd_error (rev t) = Some c -> is_space c = false).
Proof.
  unfold extractTitle.
  destruct (rx_match true re_title html) as [m|] eqn:Hm; [|discriminate].
  destruct (group m 1) as [raw|] eqn:Hg; [|discriminate].
  intros [= <-].
  destruct (rx_match_capture true re_title html m 0 raw Hm Hg) as (a & Hin & Hl).
  change (group_bodies re_title 1) with [plus (none_of (js "<"))] in Hin.
  destruct Hin as [<- | []]. apply lang_rep_class in Hl as [Hall Hcnt].
  split; [|apply trim_ends].
  exists raw. split; [|split; [|reflexivity]].
  - intros ->. simpl in Hcnt. lia.
  - eapply Forall_impl; [exact Hall|]. intros x Hx. apply not_an_angle, Hx.
Qed.

Lemma extractTitle_trimmed_witness :
  exists raw, raw <> [] /\ Forall (fun x => x <> 60) raw /\ js "Кеды Nike Air" = trim raw.
Proof.
  apply (extractTitle_trimmed page_named_by_object (js "Кеды Nike Air")).
  vm_compute. reflexivity.
Defined.

Lemma in_capitals (y : N) : in_ranges [(65, 90)] y = true -> 65 <= y <= 90.
Proof.
  cbn [in_ranges existsb fst snd]. rewrite orb_false_r. intros H. N_bools. lia.
Qed.

Lemma upper_capital (x : N) :
  65 <= upper x <= 90 -> (65 <= x <= 90) \/ (97 <= x <= 122).
Proof.
  unfold upper.
  repeat match goal with
         | |- context [if ?b then _ else _] =>
           let E := fresh "E" in destruct b eqn:E; N_bools; try lia
         end.
Qed.

Lemma lower_no_capital (u : N) : ~ 65 <= lower u <= 90.
Proof.
  unfold lower.
  repeat match goal with
         | |- context [if ?b then _ else _] =>
           let E := fresh "E" in destruct b eqn:E; N_bools; try lia
         end.
  apply andb_false_iff in E as [E | E]; N_bools; lia.
Qed.

Lemma ascii_letter (x : N) :
  xorb false (class_mem true [(65, 90)] x) = true ->
  (65 <= x <= 90) \/ (97 <= x <= 122).
Proof.
  cbn [xorb]. unfold class_mem. cbn [andb].
  intros H. apply orb_true_iff in H as [H | H].
  - left. apply in_capitals, H.
  - apply existsb_exists in H as (y & Hin & Hy). apply in_capitals in Hy.
    unfold same_case in Hin. cbv zeta in Hin.
    repeat (apply in_app_or in Hin as [Hin | Hin]);
      try (revert Hin;
           match goal with
           | |- In _ (if ?b then _ else _) -> _ => destruct b
           end; cbn [In]; intros Hin; intuition lia).
    cbn [In] in Hin. destruct Hin as [<- | [<- | [<- | []]]].
    + now left.
    + apply upper_capital, Hy.
    + exfalso. apply (lower_no_capital _ Hy).
Qed.

(** X27. The currency scanner returns one of the symbols Br, ₽, $, €, ₸,
    or, for a currency code next to a priceCurrency key that it does not
    know, the code as it is written: exactly three ASCII letters. *)
Theorem extractCurrencyFromHtml_result (html c : jsstring) :
  extractCurrencyFromHtml html = Some c ->
  In c [js "Br"; js "₽"; js "$"; js "€"; js "₸"]
  \/ (List.length c = 3%nat
      /\ Forall (fun x => (65 <= x <= 90) \/ (97 <= x <= 122)) c).
Proof.
  rewrite extractCurrencyFromHtml_classifies.
  destruct (rx_match true re_priceCurrency html) as [m1|] eqn:H1.
  - destruct (rx_match_captured true re_priceCurrency html m1 0 H1 eq_refl)
      as (u & a & Hg & Hin & Hl).
    change (group_bodies re_priceCurrency 1)
      with [times 3 3 (Class false [(65, 90)])] in Hin.
    destruct Hin as [<- | []]. apply lang_rep_class in Hl as [Hall Hcnt].
    unfold cap1. rewrite Hg. unfold code_symbol.
    repeat match goal with
           | |- context [if ?b then _ else _] =>
             destruct b; [intros [= <-]; left; simpl; tauto|]
           end.
    intros [= <-]. right. split.
    + simpl in Hcnt. lia.
    + eapply Forall_impl; [exact Hall|]. intros x Hx. apply ascii_letter, Hx.
  - destruct (rx_match true re_currency_token html) as [m2|]; [|discriminate].
    unfold token_symbol.
    repeat match goal with
           | |- context [if ?b then _ else _] =>
             destruct b; [intros [= <-]; left; simpl; tauto|]
           end.
    discriminate.
Qed.

Lemma extractCurrencyFromHtml_result_witness :
  In (js "PLN") [js "Br"; js "₽"; js "$"; js "€"; js "₸"]
  \/ (List.length (js "PLN") = 3%nat
      /\ Forall (fun x => (65 <= x <= 90) \/ (97 <= x <= 122)) (js "PLN")).
Proof.
  apply (extractCurrencyFromHtml_result
           (jsq "<script>{`offers`:{`price`:10,`priceCurrency`:`PLN`}}</script>")).
  vm_compute. reflexivity.
Defined.
